(** * The consensus validation core of libbitcoin (src/validate.cpp)

    A shallow embedding of [validate_transaction] (the memory-pool validator)
    and [validate_block] (the block validator), with the properties their
    specification states about them.

    Conventions of the embedding.
    - Unsigned machine integers are values of [Z]; every addition or
      subtraction that the source performs in a fixed width is followed by
      the reduction modulo that width ([size_t] has [size_t_bits] bits,
      [uint64_t] 64, [uint32_t] 32).  Counters that range over the positions of a vector
      ([current_input_], loop indices) stay below the vector's size and are
      incremented without reduction.
    - [BITCOIN_ASSERT] is the debugging macro of utility/assert.hpp; the
      embedding follows a release build, where it expands to nothing.
    - [operator[]] on a vector outside its range has no defined behaviour;
      the embedding makes this explicit with the [Out_of_range] outcome.
    - What validate.cpp calls but does not define (the script interpreter,
      hashing, serialisation, [big_number], the opcode enumeration) is a
      variable of the section; the consensus constants whose values the
      specification gives are definitions. *)

From Stdlib Require Import ZArith List ListSet Sorted Bool Lia.
From Stdlib Require Import Strings.Byte.
Import ListNotations.
Local Open Scope Z_scope.

(** ** Error codes (include/bitcoin/error.hpp) *)

Module error.

(** [success] is the default-constructed [std::error_code] (value 0); the
    other constructors are the enumerators of [error_code_t], in order. *)
Inductive error_code_t : Type :=
| success
| service_stopped
| not_found
| duplicate
| unspent_output
| unsupported_payment_type
| start_failed
| resolve_failed
| network_unreachable
| address_in_use
| listen_failed
| accept_failed
| bad_stream
| channel_timeout
| coinbase_transaction
| is_not_standard
| double_spend
| input_not_found
| empty_transaction
| output_value_overflow
| invalid_coinbase_script_size
| previous_output_null
| previous_block_invalid
| size_limits
| proof_of_work
| futuristic_timestamp
| first_not_coinbase
| extra_coinbases
| too_many_sigs
| merkle_mismatch
| incorrect_proof_of_work
| timestamp_too_early
| non_final_transaction
| checkpoints_failed
| duplicate_or_spent
| validate_inputs_failed
| fees_out_of_range
| coinbase_too_large.

Definition eq_dec (a b : error_code_t) : {a = b} + {a <> b}.
Proof. decide equality. Defined.

Definition eqb (a b : error_code_t) : bool :=
  if eq_dec a b then true else false.

End error.

Definition error_code : Type := error.error_code_t.

(** [if (ec)]: a [std::error_code] converts to [true] when its value is not 0. *)
Definition is_error (ec : error_code) : bool := negb (error.eqb ec error.success).

(** ** Machine integers *)

Definition wrap (bits : Z) (x : Z) : Z := x mod 2 ^ bits.
Definition uint64 (x : Z) : Z := wrap 64 x.
Definition uint32 (x : Z) : Z := wrap 32 x.
(** [static_cast<byte>] *)
Definition to_byte (x : Z) : Z := wrap 8 x.

(** ** Messages (transactions and blocks) *)

Definition hash_digest := list byte.
Definition data_chunk := list byte.

Definition hash_eqb (a b : hash_digest) : bool :=
  if list_eq_dec Byte.byte_eq_dec a b then true else false.

(** The 32 zero bytes. *)
Definition null_hash : hash_digest := repeat x00 32.

Record output_point := {
  hash : hash_digest;
  index : Z                      (* uint32_t *)
}.

(** [operator==] on output points. *)
Definition output_point_eqb (a b : output_point) : bool :=
  hash_eqb (hash a) (hash b) && (index a =? index b).

(** An opcode is the value of its enumerator. *)
Definition opcode := Z.

Record operation := {
  code : opcode;
  data : data_chunk
}.

Definition operation_stack := list operation.

(** A script is opaque to the validators apart from its operations. *)
Record script := {
  operations : operation_stack
}.

(** Modelled from the spec: [payment_type] is declared in script.hpp, which
    is not among the sources.  The classifier has the variant [script_hash];
    validate.cpp does not tell the others apart. *)
Inductive payment_type : Type :=
| script_hash
| non_standard.

Record transaction_input := {
  previous_output : output_point;
  input_script : script;
  sequence : Z                   (* uint32_t *)
}.

Record transaction_output := {
  value : Z;                     (* uint64_t *)
  output_script : script
}.

Record transaction := {
  version : Z;
  locktime : Z;
  inputs : list transaction_input;
  outputs : list transaction_output
}.

Record block := {
  block_version : Z;
  previous_block_hash : hash_digest;
  merkle : hash_digest;
  timestamp : Z;                 (* uint32_t, unix seconds *)
  bits : Z;                      (* uint32_t, compact target *)
  nonce : Z;
  transactions : list transaction
}.

(** An entry of the memory pool ([pool_buffer] is a sequence of these). *)
Record transaction_entry_info := {
  entry_hash : hash_digest;
  entry_tx : transaction
}.

Definition pool_buffer := list transaction_entry_info.
Definition index_list := list Z.

(** ** Consensus constants *)

(** Modelled from the spec: constants.hpp is not among the sources; the
    values are those of the specification's list of constants. *)
Definition max_money : Z := 21000000 * 100000000.
Definition coinbase_maturity : Z := 100.
Definition target_timespan : Z := 14 * 24 * 3600.
Definition readjustment_interval : Z := 2016.

(** validate.cpp, lines 25-26. *)
Definition max_block_size : Z := 1000000.
Definition max_block_script_sig_operations : Z := max_block_size / 50.

(** ** Helpers of transaction.hpp *)

(** Modelled from the spec: [previous_output_is_null] is declared in
    transaction.hpp, which is not among the sources.  A null outpoint is the
    all-ones index with the zero hash. *)
Definition previous_output_is_null (previous_output : output_point) : bool :=
  (index previous_output =? 2 ^ 32 - 1) && hash_eqb (hash previous_output) null_hash.

(** Modelled from the spec: [is_coinbase] is declared in transaction.hpp.  A
    coinbase transaction has exactly one input, whose previous output is
    null. *)
Definition is_coinbase (tx : transaction) : bool :=
  match inputs tx with
  | [input] => previous_output_is_null (previous_output input)
  | _ => false
  end.

(** Modelled from the spec: [total_output_value] is declared in
    transaction.hpp; it is the sum of the output values, accumulated in a
    [uint64_t]. *)
Definition total_output_value (tx : transaction) : Z :=
  fold_left (fun total output => uint64 (total + value output)) (outputs tx) 0.

(** Modelled from the spec: [block_value] (the subsidy) is declared in
    transaction.hpp: fifty coins shifted right once per 210000 blocks, zero
    once the shift exhausts. *)
Definition block_value (depth : Z) : Z :=
  Z.shiftr (50 * 100000000) (depth / 210000).

(** Modelled from the spec: [is_final] is declared in transaction.hpp.  A
    transaction is final when its lock time is 0, or lies below the depth
    (lock times under [locktime_threshold]) or the time of the block, or
    when every input has the sequence [0xFFFFFFFF]. *)
Definition locktime_threshold : Z := 500000000.

Definition is_final (tx : transaction) (block_depth block_time : Z) : bool :=
  (locktime tx =? 0)
  || (locktime tx <? (if locktime tx <? locktime_threshold then block_depth
                      else block_time))
  || forallb (fun input => sequence input =? 4294967295) (inputs tx).

(** The depths and hashes that [validate_block::passes_checkpoints] compares
    (lines 527-616). *)
Definition checkpoints : list (Z * hash_digest) :=
  [
    (11111,
     [x00; x00; x00; x00; x69; xe2; x44; xf7;
      x3d; x78; xe8; xfd; x29; xba; x2f; xd2;
      xed; x61; x8b; xd6; xfa; x2e; xe9; x25;
      x59; xf5; x42; xfd; xb2; x6e; x7c; x1d]);
    (33333,
     [x00; x00; x00; x00; x2d; xd5; x58; x8a;
      x74; x78; x4e; xaa; x7a; xb0; x50; x7a;
      x18; xad; x16; xa2; x36; xe7; xb1; xce;
      x69; xf0; x0d; x7d; xdf; xb5; xd0; xa6]);
    (68555,
     [x00; x00; x00; x00; x00; x1e; x1b; x49;
      x03; x55; x0a; x0b; x96; xe9; xa9; x40;
      x5c; x8a; x95; xf3; x87; x16; x2e; x49;
      x44; xe8; xd9; xfb; xe5; x01; xcd; x6a]);
    (70567,
     [x00; x00; x00; x00; x00; x6a; x49; xb1;
      x4b; xcf; x27; x46; x20; x68; xf1; x26;
      x4c; x96; x1f; x11; xfa; x2e; x0e; xdd;
      xd2; xbe; x07; x91; xe1; xd4; x12; x4a]);
    (74000,
     [x00; x00; x00; x00; x00; x57; x39; x93;
      xa3; xc9; xe4; x1c; xe3; x44; x71; xc0;
      x79; xdc; xf5; xf5; x2a; x0e; x82; x4a;
      x81; xe7; xf9; x53; xb8; x66; x1a; x20]);
    (105000,
     [x00; x00; x00; x00; x00; x02; x91; xce;
      x28; x02; x7f; xae; xa3; x20; xc8; xd2;
      xb0; x54; xb2; xe0; xfe; x44; xa7; x73;
      xf3; xee; xfb; x15; x1d; x6b; xdc; x97]);
    (118000,
     [x00; x00; x00; x00; x00; x00; x77; x4a;
      x7f; x8a; x7a; x12; xdc; x90; x6d; xdb;
      x9e; x17; xe7; x5d; x68; x4f; x15; xe0;
      x0f; x87; x67; xf9; xe8; xf3; x65; x53]);
    (134444,
     [x00; x00; x00; x00; x00; x00; x05; xb1;
      x2f; xfd; x4c; xd3; x15; xcd; x34; xff;
      xd4; xa5; x94; xf4; x30; xac; x81; x4c;
      x91; x18; x4a; x0d; x42; xd2; xb0; xfe]);
    (140700,
     [x00; x00; x00; x00; x00; x00; x03; x3b;
      x51; x20; x28; xab; xb9; x0e; x16; x26;
      xd8; xb3; x46; xfd; x0e; xd5; x98; xac;
      x0a; x3c; x37; x11; x38; xdc; xe2; xbd]);
    (168000,
     [x00; x00; x00; x00; x00; x00; x09; x9e;
      x61; xea; x72; x01; x5e; x79; x63; x2f;
      x21; x6f; xe6; xcb; x33; xd7; x89; x9a;
      xcb; x35; xb7; x5c; x83; x03; xb7; x63]);
    (193000,
     [x00; x00; x00; x00; x00; x00; x05; x9f;
      x45; x2a; x5f; x73; x40; xde; x66; x82;
      xa9; x77; x38; x7c; x17; x01; x0f; xf6;
      xe6; xc3; xbd; x83; xca; x8b; x13; x17]);
    (210000,
     [x00; x00; x00; x00; x00; x00; x04; x8b;
      x95; x34; x7e; x83; x19; x2f; x69; xcf;
      x03; x66; x07; x63; x36; xc6; x39; xf9;
      xb7; x22; x8e; x9b; xa1; x71; x34; x2e]);
    (216116,
     [x00; x00; x00; x00; x00; x00; x01; xb4;
      xf4; xb4; x33; xe8; x1e; xe4; x64; x94;
      xaf; x94; x5c; xf9; x60; x14; x81; x6a;
      x4e; x23; x70; xf1; x1b; x23; xdf; x4e])
  ].

(** The sum of the output values as an integer, without any width. *)
Definition sum_output_values (tx : transaction) : Z :=
  fold_right (fun output total => value output + total) 0 (outputs tx).

(** ** Results of code that can index a vector out of its range *)

Inductive outcome (A : Type) : Type :=
| Returns (a : A)
| Out_of_range.

Arguments Returns {A} a.
Arguments Out_of_range {A}.

Definition bind {A B : Type} (m : outcome A) (k : A -> outcome B) : outcome B :=
  match m with
  | Returns a => k a
  | Out_of_range => Out_of_range
  end.

Notation "x <- m ;; k" := (bind m (fun x => k))
  (at level 61, m at next level, right associativity).

(** [v[i]] for a vector [v] and an unsigned index [i]. *)
Definition at_index {A : Type} (v : list A) (i : Z) : outcome A :=
  if i <? 0 then Out_of_range
  else match nth_error v (Z.to_nat i) with
       | Some a => Returns a
       | None => Out_of_range
       end.

(** ** What validate.cpp links against

    The declarations of these are in headers that are not among the sources
    (script.hpp, big_number.hpp, transaction.hpp, satoshi_serialize.hpp,
    constants.hpp); validate.cpp only calls them.  The validators are
    embedded over an arbitrary implementation of this interface. *)

Class externals : Type := {
  (** the width of [size_t] *)
  size_t_bits : Z;
  (** enumerators of [opcode] *)
  checksig : opcode;
  checksigverify : opcode;
  checkmultisig : opcode;
  checkmultisigverify : opcode;
  op_1 : opcode;
  op_16 : opcode;
  (** [script::type()] *)
  script_type : script -> payment_type;
  (** [output_script.run(input_script, tx, input_index, bip16_enabled)] *)
  script_run : script -> script -> transaction -> Z -> bool -> bool;
  parse_script : data_chunk -> script;
  (** [save_script(s).size()] *)
  save_script_size : script -> Z;
  hash_transaction : transaction -> hash_digest;
  hash_block_header : block -> hash_digest;
  generate_merkle_root : list transaction -> hash_digest;
  satoshi_raw_size : block -> Z;
  (** [big_number::set_compact], [big_number::compact] and
      [big_number::set_hash], as the integer the big number holds *)
  set_compact : Z -> Z;
  compact : Z -> Z;
  set_hash : hash_digest -> Z;
  max_target : Z;
  max_bits : Z;
  bip16_switchover_timestamp : Z
}.

(** The chain as [validate_block] sees it: the pure virtual members that the
    owner of the validator implements. *)
Record chain_view := {
  previous_block_bits : Z;
  actual_timespan : Z -> Z;
  median_time_past : Z;
  transaction_exists : hash_digest -> bool;
  (** [is_output_spent(outpoint)] *)
  is_output_spent : output_point -> bool;
  (** [is_output_spent(outpoint, index_in_parent, input_index)] *)
  is_output_spent_within : output_point -> Z -> Z -> bool;
  (** [fetch_transaction(tx, previous_depth, hash)]: [None] when it returns
      false, otherwise the transaction and its depth *)
  fetch_transaction : hash_digest -> option (transaction * Z)
}.

(** The [blockchain] service as [validate_transaction] sees it.  Every query
    is answered later by a callback; the [n]-th answer this validator
    receives may depend on [n] and on the query in any way. *)
Record blockchain := {
  reply_fetch_transaction : nat -> hash_digest -> error_code * transaction;
  reply_fetch_last_depth : nat -> error_code * Z;
  reply_fetch_transaction_index : nat -> hash_digest -> error_code * Z;
  reply_fetch_spend : nat -> output_point -> error_code
}.

Section Validation.

Context {X : externals}.

Definition size_t (x : Z) : Z := wrap size_t_bits x.

(** ** Rule surface *)

(** The loop over the outputs in [check_transaction] (lines 303-311):
    [false] when it returns [output_value_overflow]. *)
Fixpoint output_values_in_range (outs : list transaction_output)
    (total_output_value : Z) : bool :=
  match outs with
  | [] => true
  | output :: rest =>
      if value output >? max_money then false
      else
        let total_output_value := uint64 (total_output_value + value output) in
        if total_output_value >? max_money then false
        else output_values_in_range rest total_output_value
  end.

(** [validate_transaction::check_transaction] (lines 292-328). *)
Definition check_transaction (tx : transaction) : error_code :=
  match inputs tx, outputs tx with
  | [], _ => error.empty_transaction
  | _, [] => error.empty_transaction
  | input0 :: _, _ :: _ =>
      if negb (output_values_in_range (outputs tx) 0) then
        error.output_value_overflow
      else if is_coinbase tx then
        let coinbase_script_size := save_script_size (input_script input0) in
        if (coinbase_script_size <? 2) || (coinbase_script_size >? 100) then
          error.invalid_coinbase_script_size
        else error.success
      else if existsb (fun input => previous_output_is_null (previous_output input))
                (inputs tx) then
        error.previous_output_null
      else error.success
  end.

(** [validate_block::check_proof_of_work] (lines 410-424). *)
Definition check_proof_of_work (block_hash : hash_digest) (bits : Z) : bool :=
  let target := set_compact bits in
  if (target <=? 0) || (target >? max_target) then false
  else
    let our_value := set_hash block_hash in
    if our_value >? target then false
    else true.

(** One iteration of the loop of [count_script_sigops] (lines 430-451) on the
    pair ([total_sigs], [last_number]). *)
Definition count_script_sigops_step (accurate : bool) (st : Z * Z)
    (op : operation) : Z * Z :=
  let '(total_sigs, last_number) := st in
  let total_sigs :=
    if (code op =? checksig) || (code op =? checksigverify) then
      size_t (total_sigs + 1)
    else if (code op =? checkmultisig) || (code op =? checkmultisigverify) then
      if accurate && negb (last_number =? 0) then size_t (total_sigs + last_number)
      else size_t (total_sigs + 20)
    else total_sigs in
  let raw_code := to_byte (code op) in
  let last_number :=
    if (to_byte op_1 <=? raw_code) && (to_byte op_16 >=? raw_code) then raw_code
    else last_number in
  (total_sigs, last_number).

(** [count_script_sigops] (lines 426-453). *)
Definition count_script_sigops (operations : operation_stack) (accurate : bool) : Z :=
  fst (fold_left (count_script_sigops_step accurate) operations (0, 0)).

(** [tx_legacy_sigops_count] (lines 454-468). *)
Definition tx_legacy_sigops_count (tx : transaction) : Z :=
  let total_sigs :=
    fold_left (fun total_sigs input =>
                 size_t (total_sigs
                         + count_script_sigops (operations (input_script input)) false))
              (inputs tx) 0 in
  fold_left (fun total_sigs output =>
               size_t (total_sigs
                       + count_script_sigops (operations (output_script output)) false))
            (outputs tx) total_sigs.

(** [validate_block::legacy_sigops_count] (lines 469-475). *)
Definition legacy_sigops_count (current_block : block) : Z :=
  fold_left (fun total_sigs tx => size_t (total_sigs + tx_legacy_sigops_count tx))
            (transactions current_block) 0.

(** [validate_block::script_hash_signature_operations_count] (lines 681-690).
    [back()] is only reached on a non-empty stack. *)
Definition script_hash_signature_operations_count
    (output_script input_script : script) : Z :=
  match script_type output_script with
  | script_hash =>
      match rev (operations input_script) with
      | [] => 0
      | back :: _ => count_script_sigops (operations (parse_script (data back))) true
      end
  | _ => count_script_sigops (operations output_script) true
  end.

(** [range_constraint] (lines 492-500). *)
Definition range_constraint (value minimum maximum : Z) : Z :=
  if value <? minimum then minimum
  else if value >? maximum then maximum
  else value.

(** [validate_block::work_required] (lines 502-521).  The operators of
    [big_number] are exact; its division truncates, as [BN_div] and the
    division of C++ integers do. *)
Definition work_required (view : chain_view) (depth_ : Z) : Z :=
  if depth_ =? 0 then max_bits
  else if negb (depth_ mod readjustment_interval =? 0) then previous_block_bits view
  else
    let actual := actual_timespan view readjustment_interval in
    let actual :=
      range_constraint actual (target_timespan / 4) (uint64 (target_timespan * 4)) in
    let retarget := set_compact (previous_block_bits view) in
    let retarget := retarget * actual in
    let retarget := Z.quot retarget target_timespan in
    let retarget := if retarget >? max_target then max_target else retarget in
    compact retarget.

(** [validate_transaction::tally_fees] (lines 269-280): the result and the
    new value of [total_fees]. *)
Definition tally_fees (tx : transaction) (value_in total_fees : Z) : bool * Z :=
  let value_out := total_output_value tx in
  if value_in <? value_out then (false, total_fees)
  else
    let fee := uint64 (value_in - value_out) in
    let total_fees := uint64 (total_fees + fee) in
    if total_fees >? max_money then (false, total_fees)
    else (true, total_fees).

(** ** The memory-pool validator, [validate_transaction] *)

(** The query whose callback the validator is waiting for, with the
    arguments bound into the callback.  [Idle]: no query is outstanding.
    [Faulted]: a vector was indexed out of its range. *)
Inductive pending : Type :=
| Idle
| Await_duplicate_check (tx_hash : hash_digest)
| Await_last_depth
| Await_transaction_index (tx_hash : hash_digest)
| Await_previous_tx (tx_hash : hash_digest) (parent_depth : Z)
| Await_spend (outpoint : output_point)
| Faulted.

(** The mutable members of [validate_transaction], the outstanding query and
    the calls of [handle_validate_] made so far (oldest first). *)
Record validator := {
  last_block_depth_ : Z;
  value_in_ : Z;
  current_input_ : Z;
  unconfirmed_ : index_list;
  awaiting : pending;
  handled : list (error_code * index_list)
}.

(** The members after the constructor (lines 28-34); the three cursors are
    not initialised there and not read before [set_last_depth] sets them. *)
Definition constructed : validator :=
  {| last_block_depth_ := 0; value_in_ := 0; current_input_ := 0;
     unconfirmed_ := []; awaiting := Idle; handled := [] |}.

Definition handle_validate_ (v : validator) (ec : error_code)
    (indices : index_list) : validator :=
  {| last_block_depth_ := last_block_depth_ v; value_in_ := value_in_ v;
     current_input_ := current_input_ v; unconfirmed_ := unconfirmed_ v;
     awaiting := awaiting v; handled := handled v ++ [(ec, indices)] |}.

(** A query is handed to the chain, or a callback is taken from it. *)
Definition set_awaiting (v : validator) (q : pending) : validator :=
  {| last_block_depth_ := last_block_depth_ v; value_in_ := value_in_ v;
     current_input_ := current_input_ v; unconfirmed_ := unconfirmed_ v;
     awaiting := q; handled := handled v |}.

Definition set_value_in (v : validator) (value_in : Z) : validator :=
  {| last_block_depth_ := last_block_depth_ v; value_in_ := value_in;
     current_input_ := current_input_ v; unconfirmed_ := unconfirmed_ v;
     awaiting := awaiting v; handled := handled v |}.

Definition set_current_input (v : validator) (current_input : Z) : validator :=
  {| last_block_depth_ := last_block_depth_ v; value_in_ := value_in_ v;
     current_input_ := current_input; unconfirmed_ := unconfirmed_ v;
     awaiting := awaiting v; handled := handled v |}.

Definition push_unconfirmed (v : validator) (input_index : Z) : validator :=
  {| last_block_depth_ := last_block_depth_ v; value_in_ := value_in_ v;
     current_input_ := current_input_ v;
     unconfirmed_ := unconfirmed_ v ++ [input_index];
     awaiting := awaiting v; handled := handled v |}.

(** [validate_transaction::is_standard] (lines 78-81). *)
Definition is_standard : bool := true.

(** [validate_transaction::fetch] (lines 83-90). *)
Definition fetch (pool_ : pool_buffer) (tx_hash : hash_digest) : option transaction :=
  match find (fun entry => hash_eqb (entry_hash entry) tx_hash) pool_ with
  | Some entry => Some (entry_tx entry)
  | None => None
  end.

(** [validate_transaction::is_spent] (lines 119-126). *)
Definition is_spent (pool_ : pool_buffer) (outpoint : output_point) : bool :=
  existsb (fun entry =>
             existsb (fun current_input =>
                        output_point_eqb (previous_output current_input) outpoint)
                     (inputs (entry_tx entry)))
          pool_.

(** [validate_transaction::basic_checks] (lines 53-76). *)
Definition basic_checks (tx_ : transaction) (pool_ : pool_buffer) : error_code :=
  let ec := check_transaction tx_ in
  if is_error ec then ec
  else if is_coinbase tx_ then error.coinbase_transaction
  else if negb is_standard then error.is_not_standard
  else match fetch pool_ (hash_transaction tx_) with
       | Some _ => error.duplicate
       | None => error.success
       end.

(** [validate_transaction::start] (lines 36-51). *)
Definition start (tx_ : transaction) (pool_ : pool_buffer) : validator :=
  let ec := basic_checks tx_ pool_ in
  if is_error ec then handle_validate_ constructed ec []
  else set_awaiting constructed (Await_duplicate_check (hash_transaction tx_)).

(** [last_block_depth - parent_depth] in [size_t] (line 234). *)
Definition depth_difference (last_block_depth parent_depth : Z) : Z :=
  size_t (last_block_depth - parent_depth).

(** [validate_transaction::connect_input] (lines 217-245): the result and the
    new value of [value_in].  No BIP 16 flag is passed to [run]. *)
Definition validate_transaction_connect_input (tx : transaction) (current_input : Z)
    (previous_tx : transaction) (parent_depth last_block_depth value_in : Z)
    : outcome (bool * Z) :=
  input <- at_index (inputs tx) current_input ;;
  let previous_outpoint := previous_output input in
  if index previous_outpoint >=? Z.of_nat (length (outputs previous_tx)) then
    Returns (false, value_in)
  else
    previous_output <- at_index (outputs previous_tx) (index previous_outpoint) ;;
    let output_value := value previous_output in
    if output_value >? max_money then Returns (false, value_in)
    else if is_coinbase previous_tx
            && (depth_difference last_block_depth parent_depth <? coinbase_maturity)
    then Returns (false, value_in)
    else if negb (script_run (output_script previous_output) (input_script input)
                    tx current_input false)
    then Returns (false, value_in)
    else
      let value_in := uint64 (value_in + output_value) in
      if value_in >? max_money then Returns (false, value_in)
      else Returns (true, value_in).

(** [validate_transaction::next_previous_transaction] (lines 145-155). *)
Definition next_previous_transaction (tx_ : transaction) (v : validator) : validator :=
  match at_index (inputs tx_) (current_input_ v) with
  | Out_of_range => set_awaiting v Faulted
  | Returns input =>
      set_awaiting v (Await_transaction_index (hash (previous_output input)))
  end.

(** [validate_transaction::handle_duplicate_check] (lines 92-117). *)
Definition handle_duplicate_check (tx_ : transaction) (pool_ : pool_buffer)
    (v : validator) (ec : error_code) : validator :=
  if negb (error.eqb ec error.not_found) then handle_validate_ v error.duplicate []
  else if existsb (fun input => is_spent pool_ (previous_output input)) (inputs tx_)
  then handle_validate_ v error.double_spend []
  else set_awaiting v Await_last_depth.

(** [validate_transaction::set_last_depth] (lines 128-143). *)
Definition set_last_depth (tx_ : transaction) (v : validator) (ec : error_code)
    (last_depth : Z) : validator :=
  if is_error ec then handle_validate_ v ec []
  else
    next_previous_transaction tx_
      {| last_block_depth_ := last_depth; value_in_ := 0; current_input_ := 0;
         unconfirmed_ := unconfirmed_ v; awaiting := awaiting v;
         handled := handled v |}.

(** [validate_transaction::handle_previous_tx] (lines 194-215). *)
Definition handle_previous_tx (tx_ : transaction) (v : validator) (ec : error_code)
    (previous_tx : transaction) (parent_depth : Z) : validator :=
  if is_error ec then handle_validate_ v error.input_not_found [current_input_ v]
  else
    match validate_transaction_connect_input tx_ (current_input_ v) previous_tx
            parent_depth (last_block_depth_ v) (value_in_ v) with
    | Out_of_range => set_awaiting v Faulted
    | Returns (connected, value_in) =>
        let v := set_value_in v value_in in
        if negb connected then handle_validate_ v error.validate_inputs_failed []
        else
          match at_index (inputs tx_) (current_input_ v) with
          | Out_of_range => set_awaiting v Faulted
          | Returns input => set_awaiting v (Await_spend (previous_output input))
          end
    end.

(** [validate_transaction::search_pool_previous_tx] (lines 176-192). *)
Definition search_pool_previous_tx (tx_ : transaction) (pool_ : pool_buffer)
    (v : validator) : validator :=
  match at_index (inputs tx_) (current_input_ v) with
  | Out_of_range => set_awaiting v Faulted
  | Returns input =>
      match fetch pool_ (hash (previous_output input)) with
      | None => handle_validate_ v error.input_not_found [current_input_ v]
      | Some previous_tx =>
          let v := handle_previous_tx tx_ v error.success previous_tx 0 in
          push_unconfirmed v (current_input_ v)
      end
  end.

(** [validate_transaction::previous_tx_index] (lines 157-174). *)
Definition previous_tx_index (tx_ : transaction) (pool_ : pool_buffer)
    (v : validator) (ec : error_code) (parent_depth : Z) : validator :=
  if is_error ec then search_pool_previous_tx tx_ pool_ v
  else
    match at_index (inputs tx_) (current_input_ v) with
    | Out_of_range => set_awaiting v Faulted
    | Returns input =>
        set_awaiting v (Await_previous_tx (hash (previous_output input)) parent_depth)
    end.

(** [validate_transaction::check_fees] (lines 282-290). *)
Definition check_fees (tx_ : transaction) (v : validator) : validator :=
  let '(_, fee) := tally_fees tx_ (value_in_ v) 0 in
  handle_validate_ v error.success (unconfirmed_ v).

(** [validate_transaction::check_double_spend] (lines 247-267). *)
Definition check_double_spend (tx_ : transaction) (v : validator)
    (ec : error_code) : validator :=
  if error.eqb ec error.unspent_output then
    let v := set_current_input v (current_input_ v + 1) in
    if current_input_ v =? Z.of_nat (length (inputs tx_)) then check_fees tx_ v
    else next_previous_transaction tx_ v
  else handle_validate_ v error.double_spend [].

(** The chain answers the outstanding query: the callback bound to it runs
    with the [n]-th reply.  Without an outstanding query nothing runs. *)
Definition deliver (tx_ : transaction) (pool_ : pool_buffer) (chain_ : blockchain)
    (n : nat) (v : validator) : validator :=
  let v' := set_awaiting v Idle in
  match awaiting v with
  | Idle => v
  | Faulted => v
  | Await_duplicate_check tx_hash =>
      handle_duplicate_check tx_ pool_ v' (fst (reply_fetch_transaction chain_ n tx_hash))
  | Await_last_depth =>
      let '(ec, last_depth) := reply_fetch_last_depth chain_ n in
      set_last_depth tx_ v' ec last_depth
  | Await_transaction_index tx_hash =>
      let '(ec, parent_depth) := reply_fetch_transaction_index chain_ n tx_hash in
      previous_tx_index tx_ pool_ v' ec parent_depth
  | Await_previous_tx tx_hash parent_depth =>
      let '(ec, previous_tx) := reply_fetch_transaction chain_ n tx_hash in
      handle_previous_tx tx_ v' ec previous_tx parent_depth
  | Await_spend outpoint =>
      check_double_spend tx_ v' (reply_fetch_spend chain_ n outpoint)
  end.

(** The validator after [start] and the first [k] replies of the chain. *)
Fixpoint run (tx_ : transaction) (pool_ : pool_buffer) (chain_ : blockchain)
    (k : nat) : validator :=
  match k with
  | O => start tx_ pool_
  | S k' => deliver tx_ pool_ chain_ k' (run tx_ pool_ chain_ k')
  end.

(** ** The block validator, [validate_block] *)

(** The positions [first], [first + 1], ... of a vector with the elements
    that stand there. *)
Definition indexed_from {A : Type} (first : nat) (v : list A) : list (Z * A) :=
  combine (map Z.of_nat (seq first (length v))) v.

(** [validate_block::check_block] (lines 351-408).  [universal_time] is the
    reading of the wall clock, in seconds. *)
Definition check_block (universal_time : Z) (current_block_ : block) : error_code :=
  match transactions current_block_ with
  | [] => error.size_limits
  | coinbase :: others =>
      if (Z.of_nat (length (transactions current_block_)) >? max_block_size)
         || (satoshi_raw_size current_block_ >? max_block_size)
      then error.size_limits
      else if negb (check_proof_of_work (hash_block_header current_block_)
                      (bits current_block_))
      then error.proof_of_work
      else if timestamp current_block_ >? universal_time + 2 * 3600
      then error.futuristic_timestamp
      else if negb (is_coinbase coinbase) then error.first_not_coinbase
      else if existsb is_coinbase others then error.extra_coinbases
      else
        match find (fun tx => is_error (check_transaction tx))
                (transactions current_block_) with
        | Some tx => check_transaction tx
        | None =>
            let unique_txs :=
              nodup (list_eq_dec Byte.byte_eq_dec)
                    (map hash_transaction (transactions current_block_)) in
            if negb (length unique_txs =? length (transactions current_block_))%nat
            then error.duplicate
            else if legacy_sigops_count current_block_ >? max_block_script_sig_operations
            then error.too_many_sigs
            else if negb (hash_eqb (merkle current_block_)
                            (generate_merkle_root (transactions current_block_)))
            then error.merkle_mismatch
            else error.success
        end
  end.

(** [validate_block::not_duplicate_or_spent] (lines 651-666). *)
Definition not_duplicate_or_spent (view : chain_view) (tx : transaction) : bool :=
  let tx_hash := hash_transaction tx in
  if negb (transaction_exists view tx_hash) then true
  else
    forallb (fun output_index =>
               is_output_spent view {| hash := tx_hash; index := output_index |})
            (map Z.of_nat (seq 0 (length (outputs tx)))).

(** [validate_block::connect_input] (lines 692-743): the result and the new
    values of [value_in] and [total_sigops]. *)
Definition validate_block_connect_input (view : chain_view) (depth_ : Z)
    (current_block_ : block) (index_in_parent : Z) (current_tx : transaction)
    (input_index value_in total_sigops : Z) : outcome (bool * Z * Z) :=
  input <- at_index (inputs current_tx) input_index ;;
  let previous_output := previous_output input in
  match fetch_transaction view (hash previous_output) with
  | None => Returns (false, value_in, total_sigops)
  | Some (previous_tx, previous_depth) =>
      previous_tx_out <- at_index (outputs previous_tx) (index previous_output) ;;
      let total_sigops :=
        size_t (total_sigops
                + script_hash_signature_operations_count
                    (output_script previous_tx_out) (input_script input)) in
      if total_sigops >? max_block_script_sig_operations then
        Returns (false, value_in, total_sigops)
      else
        let output_value := value previous_tx_out in
        if output_value >? max_money then Returns (false, value_in, total_sigops)
        else if is_coinbase previous_tx
                && (uint32 (size_t (depth_ - previous_depth)) <? coinbase_maturity)
        then Returns (false, value_in, total_sigops)
        else
          let bip16_enabled := timestamp current_block_ >=? bip16_switchover_timestamp in
          if negb (script_run (output_script previous_tx_out) (input_script input)
                     current_tx input_index bip16_enabled)
          then Returns (false, value_in, total_sigops)
          else if is_output_spent_within view previous_output index_in_parent input_index
          then Returns (false, value_in, total_sigops)
          else
            let value_in := uint64 (value_in + output_value) in
            if value_in >? max_money then Returns (false, value_in, total_sigops)
            else Returns (true, value_in, total_sigops)
  end.

(** The loop of [validate_block::validate_inputs] (lines 672-677) over the
    remaining input positions. *)
Fixpoint validate_inputs_loop (view : chain_view) (depth_ : Z) (current_block_ : block)
    (tx : transaction) (index_in_parent : Z) (input_indices : list Z)
    (value_in total_sigops : Z) : outcome (bool * Z * Z) :=
  match input_indices with
  | [] => Returns (true, value_in, total_sigops)
  | input_index :: rest =>
      r <- validate_block_connect_input view depth_ current_block_ index_in_parent
             tx input_index value_in total_sigops ;;
      let '(connected, value_in, total_sigops) := r in
      if negb connected then Returns (false, value_in, total_sigops)
      else validate_inputs_loop view depth_ current_block_ tx index_in_parent rest
             value_in total_sigops
  end.

(** [validate_block::validate_inputs] (lines 668-679). *)
Definition validate_inputs (view : chain_view) (depth_ : Z) (current_block_ : block)
    (tx : transaction) (index_in_parent value_in total_sigops : Z)
    : outcome (bool * Z * Z) :=
  validate_inputs_loop view depth_ current_block_ tx index_in_parent
    (map Z.of_nat (seq 0 (length (inputs tx)))) value_in total_sigops.

(** The loop of [connect_block] over the transactions after the coinbase
    (lines 631-643), from the values of [fees] and [total_sigops] reached so
    far: the error it returns with, or the accumulated fees. *)
Fixpoint connect_transactions (view : chain_view) (depth_ : Z) (current_block_ : block)
    (txs : list (Z * transaction)) (fees total_sigops : Z)
    : outcome (error_code + Z) :=
  match txs with
  | [] => Returns (inr fees)
  | (tx_index, tx) :: rest =>
      let value_in := 0 in
      let total_sigops := size_t (total_sigops + tx_legacy_sigops_count tx) in
      if total_sigops >? max_block_script_sig_operations then
        Returns (inl error.too_many_sigs)
      else
        r <- validate_inputs view depth_ current_block_ tx tx_index value_in
               total_sigops ;;
        let '(connected, value_in, total_sigops) := r in
        if negb connected then Returns (inl error.validate_inputs_failed)
        else
          let '(in_range, fees) := tally_fees tx value_in fees in
          if negb in_range then Returns (inl error.fees_out_of_range)
          else connect_transactions view depth_ current_block_ rest fees total_sigops
  end.

(** The BIP 30 test at the head of [connect_block] (lines 624-627): [true]
    when it returns [duplicate_or_spent]. *)
Definition bip30_rejects (view : chain_view) (depth_ : Z) (current_block_ : block) : bool :=
  negb (depth_ =? 91842) && negb (depth_ =? 91880)
  && negb (forallb (not_duplicate_or_spent view) (transactions current_block_)).

(** [connect_block] from line 629 on. *)
Definition connect_block_after_bip30 (view : chain_view) (depth_ : Z)
    (current_block_ : block) : outcome error_code :=
  r <- connect_transactions view depth_ current_block_
         (indexed_from 1 (tl (transactions current_block_))) 0 0 ;;
  match r with
  | inl ec => Returns ec
  | inr fees =>
      coinbase <- at_index (transactions current_block_) 0 ;;
      let coinbase_value := total_output_value coinbase in
      if coinbase_value >? uint64 (block_value depth_ + fees) then
        Returns error.coinbase_too_large
      else Returns error.success
  end.

(** [validate_block::connect_block] (lines 621-649). *)
Definition connect_block (view : chain_view) (depth_ : Z) (current_block_ : block)
    : outcome error_code :=
  if bip30_rejects view depth_ current_block_ then Returns error.duplicate_or_spent
  else connect_block_after_bip30 view depth_ current_block_.

(** [validate_block::passes_checkpoints] (lines 523-619). *)
Definition passes_checkpoints (depth_ : Z) (current_block_ : block) : bool :=
  let block_hash := hash_block_header current_block_ in
  forallb (fun checkpoint =>
             negb ((depth_ =? fst checkpoint)
                   && negb (hash_eqb block_hash (snd checkpoint))))
          checkpoints.

(** [validate_block::accept_block] (lines 477-490). *)
Definition accept_block (view : chain_view) (depth_ : Z) (current_block_ : block)
    : error_code :=
  if negb (bits current_block_ =? work_required view depth_) then
    error.incorrect_proof_of_work
  else if timestamp current_block_ <=? median_time_past view then
    error.timestamp_too_early
  else if negb (forallb (fun tx => is_final tx depth_ (timestamp current_block_))
                  (transactions current_block_))
  then error.non_final_transaction
  else if negb (passes_checkpoints depth_ current_block_) then
    error.checkpoints_failed
  else error.success.

(** [validate_block::start] (lines 336-349). *)
Definition validate_block_start (universal_time : Z) (view : chain_view) (depth_ : Z)
    (current_block_ : block) : outcome error_code :=
  let ec := check_block universal_time current_block_ in
  if is_error ec then Returns ec
  else
    let ec := accept_block view depth_ current_block_ in
    if is_error ec then Returns ec
    else
      ec <- connect_block view depth_ current_block_ ;;
      if is_error ec then Returns ec
      else Returns error.success.

(** ** The vocabulary of the specification *)

(** An operation whose opcode lies in [op_1 .. op_16]. *)
Definition is_number_opcode (op : operation) : bool :=
  (to_byte op_1 <=? to_byte (code op)) && (to_byte (code op) <=? to_byte op_16).





(** [clamp(x, lo, hi)] and the retargeted difficulty of the specification. *)
Definition clamp (x lo hi : Z) : Z := Z.max lo (Z.min hi x).

Definition retarget_of_spec (view : chain_view) : Z :=
  Z.min max_target
    (Z.quot (set_compact (previous_block_bits view)
             * clamp (actual_timespan view readjustment_interval)
                 (target_timespan / 4) (target_timespan * 4))
       target_timespan).

(** The output that an input spends, where the chain knows it, with its
    value; the fee of a transaction and the fees of the transactions of a
    block after its coinbase, as integers. *)
Definition spent_output (view : chain_view) (input : transaction_input)
    : option transaction_output :=
  match fetch_transaction view (hash (previous_output input)) with
  | Some (previous_tx, _) =>
      nth_error (outputs previous_tx) (Z.to_nat (index (previous_output input)))
  | None => None
  end.

Definition input_value (view : chain_view) (input : transaction_input) : Z :=
  match spent_output view input with
  | Some output => value output
  | None => 0
  end.

Definition sum_input_values (view : chain_view) (tx : transaction) : Z :=
  fold_right (fun input total => input_value view input + total) 0 (inputs tx).

Definition transaction_fee (view : chain_view) (tx : transaction) : Z :=
  sum_input_values view tx - sum_output_values tx.

Definition accumulated_fees (view : chain_view) (txs : list transaction) : Z :=
  fold_right (fun tx total => transaction_fee view tx + total) 0 txs.

(** BIP 30 for one transaction: no earlier transaction has its hash, or all
    the outputs of that transaction are spent. *)
Definition absent_or_spent (view : chain_view) (tx : transaction) : Prop :=
  transaction_exists view (hash_transaction tx) = false
  \/ forall output_index,
       0 <= output_index < Z.of_nat (length (outputs tx)) ->
       is_output_spent view
         {| hash := hash_transaction tx; index := output_index |} = true.

(** ** Invariants of the memory-pool validator *)

(** The states of the memory-pool validator that its callbacks keep to:
    while a query is outstanding the handler has not been called and the
    cursor is a position of the inputs; without one, the handler has been
    called once. *)
Definition consistent (tx_ : transaction) (v : validator) : Prop :=
  match awaiting v with
  | Idle => length (handled v) = 1%nat
  | Faulted => False
  | Await_duplicate_check _ | Await_last_depth =>
      handled v = [] /\ (0 < length (inputs tx_))%nat
  | Await_transaction_index _ | Await_previous_tx _ _ | Await_spend _ =>
      handled v = [] /\ 0 <= current_input_ v < Z.of_nat (length (inputs tx_))
  end.

(** A bound on the number of replies the validator still takes. *)
Definition replies_left (tx_ : transaction) (v : validator) : Z :=
  let n := Z.of_nat (length (inputs tx_)) in
  match awaiting v with
  | Idle | Faulted => 0
  | Await_duplicate_check _ => 2 + 3 * n
  | Await_last_depth => 1 + 3 * n
  | Await_transaction_index _ => 3 * (n - current_input_ v)
  | Await_previous_tx _ _ => 3 * (n - current_input_ v) - 1
  | Await_spend _ => 3 * (n - current_input_ v) - 2
  end.

(** The step relation of the memory-pool validator: the states it passes
    through, with the number of replies taken.  It begins with [start]; while
    a query is outstanding, the callback bound to it runs with a reply that
    the chain chooses freely. *)
Inductive reachable (tx_ : transaction) (pool_ : pool_buffer)
    : nat -> validator -> Prop :=
| reachable_start : reachable tx_ pool_ 0 (start tx_ pool_)
| reachable_reply (k : nat) (v : validator) (chain_ : blockchain) (n : nat) :
    reachable tx_ pool_ k v ->
    awaiting v <> Idle ->
    reachable tx_ pool_ (S k) (deliver tx_ pool_ chain_ n v).

(** ** Values that the types of the source can hold *)
Definition is_size_t (x : Z) : Prop := 0 <= x < 2 ^ size_t_bits.

Definition uint64_values (tx : transaction) : Prop :=
  Forall (fun output => 0 <= value output < 2 ^ 64) (outputs tx).

Definition uint32_indices (tx : transaction) : Prop :=
  Forall (fun input => 0 <= index (previous_output input) < 2 ^ 32) (inputs tx).

Definition well_typed_view (view : chain_view) : Prop :=
  forall tx_hash tx depth,
    fetch_transaction view tx_hash = Some (tx, depth) -> uint64_values tx.

End Validation.

(** ** A concrete platform

    One implementation of the interface, to evaluate the validators on
    concrete transactions and blocks. *)

(** Modelled from the spec: [big_number::set_hash] is not among the sources;
    the hash is read as a little-endian unsigned integer. *)
Definition little_endian (bytes : list byte) : Z :=
  fold_right (fun b rest => Z.of_N (Byte.to_N b) + 256 * rest) 0 bytes.

(** Modelled from the spec: [big_number::set_compact] is not among the
    sources.  The compact form packs a target in 32 bits: the high byte is
    the length in bytes, bit 23 the sign, the low 23 bits the leading digits
    in base 256. *)
Definition compact_to_target (bits : Z) : Z :=
  let size := Z.shiftr bits 24 in
  let mantissa := Z.land bits 8388607 in
  let magnitude :=
    if size <=? 3 then Z.shiftr mantissa (8 * (3 - size))
    else Z.shiftl mantissa (8 * (size - 3)) in
  if Z.testbit bits 23 then - magnitude else magnitude.

(** The number of base-256 digits of a natural number. *)
Definition byte_length (x : Z) : Z := (Z.log2 x + 8) / 8.

(** Modelled from the spec: [big_number::compact], the packing that
    [compact_to_target] reads; a leading digit above 127 takes one more
    byte of length, so that bit 23 stays the sign. *)
Definition target_to_compact (target : Z) : Z :=
  let magnitude := Z.abs target in
  if magnitude =? 0 then 0
  else
    let size := byte_length magnitude in
    let size := if Z.testbit magnitude (8 * size - 1) then size + 1 else size in
    let mantissa :=
      if size <=? 3 then Z.shiftl magnitude (8 * (3 - size))
      else Z.shiftr magnitude (8 * (size - 3)) in
    Z.lor (Z.shiftl size 24) (Z.lor mantissa (if target <? 0 then 8388608 else 0)).

(** A stand-in for the hash of a transaction: its version in the first
    byte, zeroes after it. *)
Definition toy_hash (n : Z) : hash_digest :=
  match Byte.of_N (Z.to_N (n mod 256)) with
  | Some b => b :: repeat x00 31
  | None => null_hash
  end.

Definition reference_platform : externals := {|
  size_t_bits := 64;
  checksig := 172;
  checksigverify := 173;
  checkmultisig := 174;
  checkmultisigverify := 175;
  op_1 := 1;
  op_16 := 16;
  script_type := fun _ => non_standard;
  script_run := fun _ _ _ _ _ => true;
  parse_script := fun _ => {| operations := [] |};
  save_script_size := fun s => Z.of_nat (length (operations s));
  hash_transaction := fun tx => toy_hash (version tx);
  hash_block_header := fun current_block => toy_hash (nonce current_block);
  generate_merkle_root := fun txs =>
    match txs with
    | [] => null_hash
    | tx :: _ => toy_hash (version tx)
    end;
  satoshi_raw_size := fun current_block =>
    80 + Z.of_nat (length (transactions current_block));
  set_compact := compact_to_target;
  compact := target_to_compact;
  set_hash := little_endian;
  max_target := 65535 * 2 ^ 208;
  max_bits := 486604799;
  bip16_switchover_timestamp := 1333238400
|}.

(** The same platform with the opcodes of [op_1 .. op_16] at the bytes
    81 .. 96. *)
Definition offset_platform : externals := {|
  size_t_bits := 64;
  checksig := 172;
  checksigverify := 173;
  checkmultisig := 174;
  checkmultisigverify := 175;
  op_1 := 81;
  op_16 := 96;
  script_type := @script_type reference_platform;
  script_run := @script_run reference_platform;
  parse_script := @parse_script reference_platform;
  save_script_size := @save_script_size reference_platform;
  hash_transaction := @hash_transaction reference_platform;
  hash_block_header := @hash_block_header reference_platform;
  generate_merkle_root := @generate_merkle_root reference_platform;
  satoshi_raw_size := @satoshi_raw_size reference_platform;
  set_compact := compact_to_target;
  compact := target_to_compact;
  set_hash := little_endian;
  max_target := 65535 * 2 ^ 208;
  max_bits := 486604799;
  bip16_switchover_timestamp := 1333238400
|}.

(** ** Sample transactions *)

Definition empty_script : script := {| operations := [] |}.

(** A coinbase that pays fifty coins in one output; its hash on the concrete
    platform is [toy_hash 1]. *)
Definition sample_coinbase : transaction := {|
  version := 1;
  locktime := 0;
  inputs := [ {| previous_output := {| hash := null_hash; index := 2 ^ 32 - 1 |};
                 input_script := {| operations := [ {| code := 4; data := [] |};
                                                    {| code := 4; data := [] |} ] |};
                 sequence := 4294967295 |} ];
  outputs := [ {| value := 5000000000; output_script := empty_script |} ]
|}.

(** A transaction whose only input spends output [n] of [sample_coinbase]. *)
Definition sample_spender (n : Z) : transaction := {|
  version := 2;
  locktime := 0;
  inputs := [ {| previous_output := {| hash := toy_hash 1; index := n |};
                 input_script := empty_script;
                 sequence := 4294967295 |} ];
  outputs := [ {| value := 4900000000; output_script := empty_script |} ]
|}.

(** The coinbase of a block, paying [pay]; its hash on the concrete
    platform is [toy_hash 3]. *)
Definition sample_block_coinbase (pay : Z) : transaction := {|
  version := 3;
  locktime := 0;
  inputs := inputs sample_coinbase;
  outputs := [ {| value := pay; output_script := empty_script |} ]
|}.

(** A block of two transactions: a coinbase paying [pay] and the spender of
    output [n] of [sample_coinbase]. *)
Definition sample_block (pay n : Z) : block := {|
  block_version := 1;
  previous_block_hash := null_hash;
  merkle := toy_hash 3;
  timestamp := 1400000000;
  bits := 486604799;
  nonce := 0;
  transactions := [sample_block_coinbase pay; sample_spender n]
|}.

(** A block with a coinbase only. *)
Definition sample_block_alone (pay : Z) : block := {|
  block_version := 1;
  previous_block_hash := null_hash;
  merkle := toy_hash 3;
  timestamp := 1400000000;
  bits := 486604799;
  nonce := 0;
  transactions := [sample_block_coinbase pay]
|}.

(** A chain that holds [sample_coinbase] at depth 1, unspent, and no
    transaction with the hash of a transaction of the sample blocks. *)
Definition sample_view : chain_view := {|
  previous_block_bits := 486604799;
  actual_timespan := fun _ => 151200;
  median_time_past := 1399999000;
  transaction_exists := fun _ => false;
  is_output_spent := fun _ => false;
  is_output_spent_within := fun _ _ _ => false;
  fetch_transaction := fun tx_hash =>
    if hash_eqb tx_hash (toy_hash 1) then Some (sample_coinbase, 1) else None
|}.

(** A chain that holds an earlier transaction for every hash, with unspent
    outputs. *)
Definition duplicating_view : chain_view := {|
  previous_block_bits := 486604799;
  actual_timespan := fun _ => 151200;
  median_time_past := 1399999000;
  transaction_exists := fun _ => true;
  is_output_spent := fun _ => false;
  is_output_spent_within := fun _ _ _ => false;
  fetch_transaction := fun tx_hash =>
    if hash_eqb tx_hash (toy_hash 1) then Some (sample_coinbase, 1) else None
|}.

(** A push of the number 2 followed by a checkmultisig, on the concrete
    platform. *)
Definition sample_operations : operation_stack :=
  [ {| code := 2; data := [] |}; {| code := 174; data := [] |} ].

(** ** Sample chains *)

(** A chain that is shutting down: every query fails with
    [service_stopped]. *)
Definition stopped_chain : blockchain := {|
  reply_fetch_transaction := fun _ _ => (error.service_stopped, sample_coinbase);
  reply_fetch_last_depth := fun _ => (error.service_stopped, 0);
  reply_fetch_transaction_index := fun _ _ => (error.service_stopped, 0);
  reply_fetch_spend := fun _ _ => error.service_stopped
|}.

(** A chain of 200 blocks that does not know the validated transaction (the
    first reply), has [sample_coinbase] in block 1 and no spend of it. *)
Definition confirming_chain : blockchain := {|
  reply_fetch_transaction := fun n _ =>
    match n with
    | O => (error.not_found, sample_coinbase)
    | _ => (error.success, sample_coinbase)
    end;
  reply_fetch_last_depth := fun _ => (error.success, 200);
  reply_fetch_transaction_index := fun _ _ => (error.success, 1);
  reply_fetch_spend := fun _ _ => error.unspent_output
|}.

(** ** A parent in the memory pool *)

(** A transaction of the pool; its hash on the concrete platform is
    [toy_hash 7]. *)
Definition pool_parent : transaction := {|
  version := 7;
  locktime := 0;
  inputs := [ {| previous_output := {| hash := toy_hash 9; index := 0 |};
                 input_script := empty_script;
                 sequence := 4294967295 |} ];
  outputs := [ {| value := 1000000000; output_script := empty_script |} ]
|}.

Definition sample_pool : pool_buffer :=
  [ {| entry_hash := toy_hash 7; entry_tx := pool_parent |} ].

(** A transaction whose input 0 spends [sample_coinbase] and whose input 1
    spends [pool_parent]. *)
Definition sample_pool_spender : transaction := {|
  version := 8;
  locktime := 0;
  inputs := [ {| previous_output := {| hash := toy_hash 1; index := 0 |};
                 input_script := empty_script;
                 sequence := 4294967295 |};
              {| previous_output := {| hash := toy_hash 7; index := 0 |};
                 input_script := empty_script;
                 sequence := 4294967295 |} ];
  outputs := [ {| value := 5900000000; output_script := empty_script |} ]
|}.

(** A chain of 200 blocks that has [sample_coinbase] in block 1, knows no
    other transaction, and has no spend of the outpoints it is asked
    about. *)
Definition pool_parent_chain : blockchain := {|
  reply_fetch_transaction := fun _ tx_hash =>
    if hash_eqb tx_hash (toy_hash 1) then (error.success, sample_coinbase)
    else (error.not_found, sample_coinbase);
  reply_fetch_last_depth := fun _ => (error.success, 200);
  reply_fetch_transaction_index := fun _ tx_hash =>
    if hash_eqb tx_hash (toy_hash 1) then (error.success, 1) else (error.not_found, 0);
  reply_fetch_spend := fun _ _ => error.unspent_output
|}.

(** * The inventory buffer of the session (include/bitcoin/session.hpp) *)

Section Pumpkin_buffer.

Variable Item : Type.
Variable Item_eq_dec : forall a b : Item, {a = b} + {a <> b}.

(** The members of [pumpkin_buffer<Item>] (lines 82-85).  [lookup_] is a
    [std::set]: a list without repetition, read through membership only. *)
Record pumpkin_buffer := {
  lookup_ : set Item;
  expiry_ : list Item;
  max_size_ : Z;                 (* size_t *)
  pointer_ : Z                   (* size_t *)
}.

(** The constructor (lines 43-44). *)
Definition new_pumpkin_buffer (max_size : Z) : pumpkin_buffer :=
  {| lookup_ := empty_set Item; expiry_ := []; max_size_ := max_size; pointer_ := 0 |}.

(** [expiry_[pointer_] = item] on a position of the vector. *)
Definition assign_at (position : nat) (item : Item) (v : list Item) : list Item :=
  firstn position v ++ item :: skipn (S position) v.

(** [pumpkin_buffer::store] (lines 46-70). *)
Definition store (b : pumpkin_buffer) (item : Item) : outcome pumpkin_buffer :=
  if Z.of_nat (length (expiry_ b)) <? max_size_ b then
    Returns {| lookup_ := set_add Item_eq_dec item (lookup_ b);
               expiry_ := expiry_ b ++ [item];
               max_size_ := max_size_ b;
               pointer_ := pointer_ b |}
  else
    erase_item <- at_index (expiry_ b) (pointer_ b) ;;
    let lookup := set_remove Item_eq_dec erase_item (lookup_ b) in
    let lookup := set_add Item_eq_dec item lookup in
    let expiry := assign_at (Z.to_nat (pointer_ b)) item (expiry_ b) in
    let pointer := pointer_ b + 1 in
    let pointer := if pointer =? Z.of_nat (length expiry) then 0 else pointer in
    Returns {| lookup_ := lookup; expiry_ := expiry; max_size_ := max_size_ b;
               pointer_ := pointer |}.

(** The three assertions of [store] (lines 56, 57 and 61), which a debug
    build evaluates when it overwrites an entry: the vector is full, the
    pointer is a position of it, and [lookup_.erase] removed one element,
    that is, the entry under the pointer was in the set. *)
Definition store_asserts (b : pumpkin_buffer) : bool :=
  if Z.of_nat (length (expiry_ b)) <? max_size_ b then true
  else
    (Z.of_nat (length (expiry_ b)) =? max_size_ b)
    && (pointer_ b <? Z.of_nat (length (expiry_ b)))
    && match at_index (expiry_ b) (pointer_ b) with
       | Returns erase_item => set_mem Item_eq_dec erase_item (lookup_ b)
       | Out_of_range => false
       end.

(** [pumpkin_buffer::exists] (lines 72-75). *)
Definition exists_ (b : pumpkin_buffer) (item : Item) : bool :=
  set_mem Item_eq_dec item (lookup_ b).

(** The items are stored one after the other. *)
Definition store_all (b : pumpkin_buffer) (items : list Item) : outcome pumpkin_buffer :=
  fold_left (fun stored item => b <- stored ;; store b item) items (Returns b).

(** The last [n] of the items, oldest first. *)
Definition last_items (n : nat) (items : list Item) : list Item :=
  skipn (length items - n) items.

(** The circular buffer read from the position of the pointer. *)
Definition from_pointer (b : pumpkin_buffer) : list Item :=
  skipn (Z.to_nat (pointer_ b)) (expiry_ b) ++ firstn (Z.to_nat (pointer_ b)) (expiry_ b).

(** What [store] keeps of a buffer of capacity [n] after the items [items]. *)
Definition holds_last (n : nat) (items : list Item) (b : pumpkin_buffer) : Prop :=
  max_size_ b = Z.of_nat n
  /\ length (expiry_ b) = Nat.min (length items) n
  /\ 0 <= pointer_ b
  /\ (Z.to_nat (pointer_ b) < Nat.max 1 (length (expiry_ b)))%nat
  /\ ((length (expiry_ b) < n)%nat -> pointer_ b = 0)
  /\ from_pointer b = last_items n items
  /\ NoDup (lookup_ b)
  /\ (forall item, set_In item (lookup_ b) -> In item (expiry_ b))
  /\ (NoDup items -> forall item, In item (expiry_ b) -> set_In item (lookup_ b)).

End Pumpkin_buffer.

Arguments lookup_ {Item} _.
Arguments expiry_ {Item} _.
Arguments max_size_ {Item} _.
Arguments pointer_ {Item} _.
Arguments new_pumpkin_buffer {Item} max_size.
Arguments assign_at {Item} position item v.
Arguments store {Item} Item_eq_dec b item.
Arguments exists_ {Item} Item_eq_dec b item.
Arguments store_asserts {Item} Item_eq_dec b.
Arguments store_all {Item} Item_eq_dec b items.
Arguments last_items {Item} n items.
Arguments from_pointer {Item} b.
Arguments holds_last {Item} n items b.

(** * More vocabulary *)

Section Further_vocabulary.

Context {X : externals}.

(** The byte that [last_number] holds after the operations [seen] (the
    newest first): that of the most recent opcode between [op_1] and
    [op_16], or 0. *)
Fixpoint last_opcode_byte (seen : list operation) : Z :=
  match seen with
  | [] => 0
  | op :: older =>
      if is_number_opcode op then to_byte (code op) else last_opcode_byte older
  end.

(** What one operation adds to the count, after the operations [seen]. *)
Definition sigops_added_by_byte (accurate : bool) (seen : list operation)
    (op : operation) : Z :=
  if (code op =? checksig) || (code op =? checksigverify) then 1
  else if (code op =? checkmultisig) || (code op =? checkmultisigverify) then
    if accurate && negb (last_opcode_byte seen =? 0) then last_opcode_byte seen
    else 20
  else 0.

Fixpoint sigops_sum_by_byte (accurate : bool) (seen ops : list operation) : Z :=
  match ops with
  | [] => 0
  | op :: rest =>
      sigops_added_by_byte accurate seen op + sigops_sum_by_byte accurate (op :: seen) rest
  end.

(** The legacy weight of a script: 1 for each checksig or checksigverify,
    20 for each checkmultisig or checkmultisigverify. *)
Definition legacy_weight (ops : operation_stack) : Z :=
  fold_right (fun op total =>
                (if (code op =? checksig) || (code op =? checksigverify) then 1
                 else if (code op =? checkmultisig) || (code op =? checkmultisigverify)
                      then 20
                      else 0) + total)
             0 ops.

Definition tx_legacy_weight (tx : transaction) : Z :=
  fold_right (fun input total => legacy_weight (operations (input_script input)) + total)
             0 (inputs tx)
  + fold_right (fun output total =>
                  legacy_weight (operations (output_script output)) + total)
               0 (outputs tx).

Definition block_legacy_weight (current_block_ : block) : Z :=
  fold_right (fun tx total => tx_legacy_weight tx + total) 0 (transactions current_block_).

(** What [validate_block::connect_input] asks of an input, apart from the
    running totals: the chain knows the parent, the index is a position of
    its outputs, the value is in range, a coinbase parent is mature, the
    script runs with the BIP 16 flag of the block, and the output is not
    spent. *)
Definition input_connects (view : chain_view) (depth_ : Z) (current_block_ : block)
    (index_in_parent : Z) (current_tx : transaction) (input_index : Z)
    (input : transaction_input) : Prop :=
  exists previous_tx previous_depth spent,
    fetch_transaction view (hash (previous_output input))
    = Some (previous_tx, previous_depth)
    /\ at_index (outputs previous_tx) (index (previous_output input)) = Returns spent
    /\ value spent <= max_money
    /\ (is_coinbase previous_tx = true ->
        coinbase_maturity <= uint32 (size_t (depth_ - previous_depth)))
    /\ script_run (output_script spent) (input_script input) current_tx input_index
         (timestamp current_block_ >=? bip16_switchover_timestamp) = true
    /\ is_output_spent_within view (previous_output input) index_in_parent input_index
       = false.

(** The operations whose signature operations are counted for an input:
    those of the output script it spends or, where that script is of the
    pay-to-script-hash type, those of the script serialised in the last
    operation of the input script (none for an empty input script). *)
Definition counted_operations (output_script input_script : script) : operation_stack :=
  match script_type output_script with
  | script_hash =>
      match operations input_script with
      | [] => []
      | first :: rest => operations (parse_script (data (last rest first)))
      end
  | non_standard => operations output_script
  end.

(** No entry of the pool spends the outpoint. *)
Definition unspent_in_pool (pool_ : pool_buffer) (outpoint : output_point) : Prop :=
  forall entry input,
    In entry pool_ -> In input (inputs (entry_tx entry)) ->
    previous_output input <> outpoint.

(** The signature operations that [connect_input] counts for an input: those
    of the output it spends, where the chain knows it. *)
Definition input_sigops (view : chain_view) (input : transaction_input) : Z :=
  match spent_output view input with
  | Some spent =>
      script_hash_signature_operations_count (output_script spent) (input_script input)
  | None => 0
  end.


(** An index list of the memory-pool validator: increasing positions below
    [bound]. *)
Definition unconfirmed_below (bound : Z) (indices : index_list) : Prop :=
  StronglySorted Z.lt indices /\ Forall (fun i => 0 <= i < bound) indices.

(** The transaction passed the checks that come before the inputs are
    connected. *)
Definition passed_first_checks (tx_ : transaction) (pool_ : pool_buffer) : Prop :=
  basic_checks tx_ pool_ = error.success
  /\ existsb (fun input => is_spent pool_ (previous_output input)) (inputs tx_) = false.

(** What holds of a call of the handler. *)
Definition call_sound (tx_ : transaction) (pool_ : pool_buffer)
    (call : error_code * index_list) : Prop :=
  unconfirmed_below (Z.of_nat (length (inputs tx_))) (snd call)
  /\ (fst call <> error.success -> fst call <> error.input_not_found ->
      snd call = [])
  /\ (fst call = error.success -> passed_first_checks tx_ pool_).

(** What the callbacks of the memory-pool validator keep of the list of
    unconfirmed inputs and of the checks passed. *)
Definition sound (tx_ : transaction) (pool_ : pool_buffer) (v : validator) : Prop :=
  match awaiting v with
  | Idle => Forall (call_sound tx_ pool_) (handled v)
  | Faulted => True
  | Await_duplicate_check _ =>
      unconfirmed_ v = [] /\ basic_checks tx_ pool_ = error.success
  | Await_last_depth => unconfirmed_ v = [] /\ passed_first_checks tx_ pool_
  | Await_transaction_index _ | Await_previous_tx _ _ =>
      unconfirmed_below (current_input_ v) (unconfirmed_ v)
      /\ passed_first_checks tx_ pool_
  | Await_spend _ =>
      unconfirmed_below (current_input_ v + 1) (unconfirmed_ v)
      /\ passed_first_checks tx_ pool_
  end.

End Further_vocabulary.

(** * Properties *)

Section Properties.

Context {X : externals}.

(** ** Arithmetic of the fixed widths *)

Lemma two_pow_64 : 2 ^ 64 = 18446744073709551616.
Proof. reflexivity. Qed.

Lemma uint64_small (x : Z) : 0 <= x < 2 ^ 64 -> uint64 x = x.
Proof. intros H. unfold uint64, wrap. apply Z.mod_small. exact H. Qed.

Lemma uint64_range (x : Z) : 0 <= uint64 x < 2 ^ 64.
Proof. unfold uint64, wrap. apply Z.mod_pos_bound. rewrite two_pow_64. lia. Qed.

(** Below the modulus, the reduction never makes a value smaller. *)
Lemma uint64_above (x : Z) : x < 2 ^ 64 -> x <= uint64 x.
Proof.
  intros H. destruct (Z_lt_le_dec x 0) as [Hneg | Hpos].
  - pose proof (uint64_range x). lia.
  - rewrite uint64_small; lia.
Qed.

Lemma max_money_value : max_money = 2100000000000000.
Proof. reflexivity. Qed.

Lemma size_t_idempotent (x : Z) : size_t (size_t x) = size_t x.
Proof. unfold size_t, wrap. apply Zmod_mod. Qed.

Lemma size_t_add_l (a b : Z) : size_t (size_t a + b) = size_t (a + b).
Proof. unfold size_t, wrap. apply Zplus_mod_idemp_l. Qed.

(** ** [check_transaction] *)

Lemma output_values_in_range_sound (outs : list transaction_output) :
  forall total,
    0 <= total <= max_money ->
    output_values_in_range outs total = true ->
    Forall (fun output => value output <= max_money) outs
    /\ total + fold_right (fun output sum => value output + sum) 0 outs <= max_money.
Proof.
  induction outs as [| output rest IH]; intros total Htotal Hrun; simpl in *.
  - split; [constructor | lia].
  - destruct (value output >? max_money) eqn:Hvalue; [discriminate |].
    destruct (uint64 (total + value output) >? max_money) eqn:Hsum; [discriminate |].
    rewrite Z.gtb_ltb in Hvalue. apply Z.ltb_ge in Hvalue.
    rewrite Z.gtb_ltb in Hsum. apply Z.ltb_ge in Hsum.
    pose proof (uint64_range (total + value output)) as Hrange.
    assert (Habove : total + value output <= uint64 (total + value output)).
    { apply uint64_above. rewrite two_pow_64. rewrite max_money_value in *. lia. }
    destruct (IH (uint64 (total + value output))) as [Hall Hbound]; [lia | exact Hrun |].
    split; [constructor; assumption | lia].
Qed.

Lemma check_transaction_success (tx : transaction) :
  check_transaction tx = error.success ->
  (1 <= length (inputs tx))%nat
  /\ (1 <= length (outputs tx))%nat
  /\ Forall (fun output => value output <= max_money) (outputs tx)
  /\ sum_output_values tx <= max_money.
Proof.
  unfold check_transaction, sum_output_values. intros Hok.
  destruct (inputs tx) as [| input0 ins] eqn:Hins; [discriminate |].
  destruct (outputs tx) as [| output0 outs] eqn:Houts; [discriminate |].
  destruct (output_values_in_range (output0 :: outs) 0) eqn:Hrange;
    [| discriminate].
  destruct (output_values_in_range_sound (output0 :: outs) 0) as [Hall Hsum];
    [rewrite max_money_value; lia | exact Hrange |].
  simpl in Hsum. repeat split; simpl; try lia; assumption.
Qed.

(** C5.  Whenever [check_transaction] returns no error, the transaction has
    at least one input and at least one output, every output value is at
    most [max_money], and so is the sum of the output values. *)
Theorem check_transaction_ok_bounds (tx : transaction) :
  check_transaction tx = error.success ->
  (1 <= length (inputs tx))%nat
  /\ (1 <= length (outputs tx))%nat
  /\ Forall (fun output => value output <= max_money) (outputs tx)
  /\ sum_output_values tx <= max_money.
Proof. exact (check_transaction_success tx). Qed.

(** ** [check_proof_of_work] *)

(** C3, as the code has it.  [check_proof_of_work] returns true exactly when
    the decoded target is positive and at most [max_target] and the value of
    the hash is at most the target. *)
Theorem check_proof_of_work_iff (block_hash : hash_digest) (bits : Z) :
  check_proof_of_work block_hash bits = true <->
  (0 < set_compact bits
   /\ set_compact bits <= max_target
   /\ set_hash block_hash <= set_compact bits).
Proof.
  unfold check_proof_of_work.
  destruct (set_compact bits <=? 0) eqn:Hzero; simpl.
  - apply Z.leb_le in Hzero. split; [discriminate | lia].
  - apply Z.leb_gt in Hzero.
    destruct (set_compact bits >? max_target) eqn:Hmax.
    + rewrite Z.gtb_ltb in Hmax. apply Z.ltb_lt in Hmax. split; [discriminate | lia].
    + rewrite Z.gtb_ltb in Hmax. apply Z.ltb_ge in Hmax.
      destruct (set_hash block_hash >? set_compact bits) eqn:Hhash.
      * rewrite Z.gtb_ltb in Hhash. apply Z.ltb_lt in Hhash.
        split; [discriminate | lia].
      * rewrite Z.gtb_ltb in Hhash. apply Z.ltb_ge in Hhash.
        split; [intros _; lia | reflexivity].
Qed.

(** ** [work_required] *)

Lemma range_constraint_clamp (x lo hi : Z) :
  lo <= hi -> range_constraint x lo hi = clamp x lo hi.
Proof.
  intros Hle. unfold range_constraint, clamp.
  destruct (x <? lo) eqn:Hlo.
  - apply Z.ltb_lt in Hlo. lia.
  - apply Z.ltb_ge in Hlo. destruct (x >? hi) eqn:Hhi.
    + rewrite Z.gtb_ltb in Hhi. apply Z.ltb_lt in Hhi. lia.
    + rewrite Z.gtb_ltb in Hhi. apply Z.ltb_ge in Hhi. lia.
Qed.

Lemma cap_is_min (x cap : Z) : (if x >? cap then cap else x) = Z.min cap x.
Proof.
  destruct (x >? cap) eqn:H; rewrite Z.gtb_ltb in H.
  - apply Z.ltb_lt in H. lia.
  - apply Z.ltb_ge in H. lia.
Qed.

(** C4.  [work_required] returns [max_bits] at depth 0, the bits of the
    previous block when the depth is not a multiple of the readjustment
    interval, and otherwise the compact form of the smaller of [max_target]
    and the previous target times the clamped timespan over
    [target_timespan], in exact integer arithmetic. *)
Theorem work_required_cases (view : chain_view) (depth_ : Z) :
  (depth_ = 0 -> work_required view depth_ = max_bits)
  /\ (depth_ mod readjustment_interval <> 0 ->
      work_required view depth_ = previous_block_bits view)
  /\ (depth_ <> 0 -> depth_ mod readjustment_interval = 0 ->
      work_required view depth_ = compact (retarget_of_spec view)).
Proof.
  unfold work_required. repeat split.
  - intros ->. reflexivity.
  - intros Hmod. destruct (depth_ =? 0) eqn:Hzero.
    + apply Z.eqb_eq in Hzero. subst. exfalso. apply Hmod. reflexivity.
    + apply Z.eqb_neq in Hmod. rewrite Hmod. reflexivity.
  - intros Hnz Hmod. apply Z.eqb_neq in Hnz. rewrite Hnz.
    apply Z.eqb_eq in Hmod. rewrite Hmod. simpl negb. cbv iota.
    unfold retarget_of_spec. rewrite cap_is_min.
    change (uint64 (target_timespan * 4)) with (target_timespan * 4).
    rewrite range_constraint_clamp.
    + reflexivity.
    + vm_compute. discriminate.
Qed.

(** ** [connect_input], in both validators *)

Lemma at_index_beyond {A : Type} (v : list A) (i : Z) :
  Z.of_nat (length v) <= i -> at_index v i = Out_of_range.
Proof.
  intros Hle. unfold at_index.
  destruct (i <? 0) eqn:Hneg; [reflexivity |].
  apply Z.ltb_ge in Hneg.
  assert (Hnone : nth_error v (Z.to_nat i) = None).
  { apply nth_error_None. lia. }
  rewrite Hnone. reflexivity.
Qed.

Lemma at_index_within {A : Type} (v : list A) (i : Z) (a : A) :
  at_index v i = Returns a -> 0 <= i < Z.of_nat (length v).
Proof.
  unfold at_index. destruct (i <? 0) eqn:Hneg; [discriminate |].
  apply Z.ltb_ge in Hneg.
  destruct (nth_error v (Z.to_nat i)) eqn:Hnth; [| discriminate].
  intros _. assert (Hlt : (Z.to_nat i < length v)%nat).
  { apply nth_error_Some. rewrite Hnth. discriminate. }
  lia.
Qed.

(** C9.  For an input whose parent the chain knows and whose
    [previous_output.index] is not below the number of outputs of the
    parent, the block validator's [connect_input] indexes the outputs out of
    their range, whereas the memory-pool validator's [connect_input] returns
    false, with [value_in] unchanged. *)
Theorem connect_input_bounds_asymmetry (view : chain_view) (depth_ : Z)
    (current_block_ : block) (index_in_parent : Z) (tx : transaction)
    (input_index value_in total_sigops : Z) (input : transaction_input)
    (previous_tx : transaction) (previous_depth parent_depth last_block_depth : Z) :
  at_index (inputs tx) input_index = Returns input ->
  fetch_transaction view (hash (previous_output input))
  = Some (previous_tx, previous_depth) ->
  Z.of_nat (length (outputs previous_tx)) <= index (previous_output input) ->
  validate_block_connect_input view depth_ current_block_ index_in_parent tx
    input_index value_in total_sigops = Out_of_range
  /\ validate_transaction_connect_input tx input_index previous_tx parent_depth
       last_block_depth value_in = Returns (false, value_in).
Proof.
  intros Hinput Hfetch Hbeyond. split.
  - unfold validate_block_connect_input. rewrite Hinput. simpl bind.
    rewrite Hfetch. rewrite (at_index_beyond _ _ Hbeyond). reflexivity.
  - unfold validate_transaction_connect_input. rewrite Hinput. simpl bind.
    apply Z.geb_le in Hbeyond. rewrite Hbeyond. reflexivity.
Qed.

(** ** The coinbase maturity test of the memory-pool validator *)

Lemma size_t_modulus_large : 32 <= size_t_bits -> 2 ^ 32 <= 2 ^ size_t_bits.
Proof. intros H. apply Z.pow_le_mono_r; lia. Qed.

Lemma depth_difference_unwrapped (last_block_depth parent_depth : Z) :
  is_size_t last_block_depth -> is_size_t parent_depth ->
  parent_depth <= last_block_depth ->
  depth_difference last_block_depth parent_depth = last_block_depth - parent_depth.
Proof.
  unfold is_size_t, depth_difference, size_t, wrap. intros Hlast Hparent Hle.
  apply Z.mod_small. lia.
Qed.

Lemma depth_difference_wrapped (last_block_depth parent_depth : Z) :
  is_size_t last_block_depth -> is_size_t parent_depth ->
  last_block_depth < parent_depth ->
  depth_difference last_block_depth parent_depth
  = 2 ^ size_t_bits - (parent_depth - last_block_depth).
Proof.
  unfold is_size_t, depth_difference, size_t, wrap. intros Hlast Hparent Hlt.
  symmetry. apply Z.mod_unique with (q := -1); lia.
Qed.

(** C10, as the code has it.  For depths that [size_t] holds: when
    [parent_depth] exceeds [last_block_depth] by at most
    [2^w - coinbase_maturity], the difference wraps to
    [2^w - (parent_depth - last_block_depth)], which is at least
    [coinbase_maturity], so the test passes; the test fails exactly when
    [parent_depth <= last_block_depth] and the difference is below
    [coinbase_maturity], or [parent_depth] exceeds [last_block_depth] by more
    than [2^w - coinbase_maturity]; and when it fails for a coinbase parent,
    [connect_input] returns false. *)
Theorem coinbase_maturity_wraps (last_block_depth parent_depth : Z) :
  32 <= size_t_bits ->
  is_size_t last_block_depth ->
  is_size_t parent_depth ->
  (last_block_depth < parent_depth ->
   parent_depth - last_block_depth <= 2 ^ size_t_bits - coinbase_maturity ->
   depth_difference last_block_depth parent_depth
   = 2 ^ size_t_bits - (parent_depth - last_block_depth)
   /\ coinbase_maturity <= depth_difference last_block_depth parent_depth)
  /\ ((depth_difference last_block_depth parent_depth <? coinbase_maturity) = true <->
      (parent_depth <= last_block_depth
       /\ last_block_depth - parent_depth < coinbase_maturity)
      \/ (last_block_depth < parent_depth
          /\ 2 ^ size_t_bits - coinbase_maturity < parent_depth - last_block_depth))
  /\ (forall tx current_input input previous_tx spent value_in,
        at_index (inputs tx) current_input = Returns input ->
        at_index (outputs previous_tx) (index (previous_output input))
        = Returns spent ->
        is_coinbase previous_tx = true ->
        (depth_difference last_block_depth parent_depth <? coinbase_maturity) = true ->
        validate_transaction_connect_input tx current_input previous_tx parent_depth
          last_block_depth value_in = Returns (false, value_in)).
Proof.
  intros Hwidth Hlast Hparent.
  pose proof (size_t_modulus_large Hwidth) as Hmodulus.
  change (2 ^ 32) with 4294967296 in Hmodulus.
  unfold coinbase_maturity.
  repeat split.
  - apply depth_difference_wrapped; assumption.
  - rewrite depth_difference_wrapped by assumption. lia.
  - intros Hfails. apply Z.ltb_lt in Hfails.
    destruct (Z_le_gt_dec parent_depth last_block_depth) as [Hle | Hgt].
    + rewrite depth_difference_unwrapped in Hfails by assumption. lia.
    + rewrite depth_difference_wrapped in Hfails by (assumption || lia). lia.
  - intros [[Hle Hsmall] | [Hlt Hfar]]; apply Z.ltb_lt.
    + rewrite depth_difference_unwrapped by assumption. lia.
    + rewrite depth_difference_wrapped by assumption. lia.
  - intros tx current_input input previous_tx spent value_in
      Hinput Houtput Hcoinbase Hfails.
    unfold validate_transaction_connect_input. rewrite Hinput. simpl bind.
    pose proof (at_index_within _ _ _ Houtput) as Hwithin.
    destruct (index (previous_output input)
              >=? Z.of_nat (length (outputs previous_tx))) eqn:Hcheck;
      [reflexivity |].
    rewrite Houtput. simpl bind.
    destruct (value spent >? max_money); [reflexivity |].
    rewrite Hcoinbase. unfold coinbase_maturity. rewrite Hfails.
    reflexivity.
Qed.

(** ** The callbacks of the memory-pool validator *)

(** Reads the members of a validator built by the setters. *)
Ltac members :=
  cbn [awaiting handled current_input_ value_in_ unconfirmed_ last_block_depth_
       set_awaiting set_value_in set_current_input push_unconfirmed
       handle_validate_] in *.

Lemma at_index_defined {A : Type} (v : list A) (i : Z) :
  0 <= i < Z.of_nat (length v) -> exists a, at_index v i = Returns a.
Proof.
  intros [Hpos Hlt]. unfold at_index.
  assert (Hneg : (i <? 0) = false) by (apply Z.ltb_ge; lia).
  rewrite Hneg. destruct (nth_error v (Z.to_nat i)) eqn:Hnth.
  - eexists. reflexivity.
  - apply nth_error_None in Hnth. lia.
Qed.

Lemma at_index_In {A : Type} (v : list A) (i : Z) (a : A) :
  at_index v i = Returns a -> In a v.
Proof.
  unfold at_index. destruct (i <? 0); [discriminate |].
  destruct (nth_error v (Z.to_nat i)) eqn:Hnth; [| discriminate].
  intros [= <-]. eapply nth_error_In. exact Hnth.
Qed.

Lemma connect_input_defined (tx : transaction) (current_input : Z)
    (previous_tx : transaction) (parent_depth last_block_depth value_in : Z) :
  uint32_indices tx ->
  0 <= current_input < Z.of_nat (length (inputs tx)) ->
  exists r,
    validate_transaction_connect_input tx current_input previous_tx parent_depth
      last_block_depth value_in = Returns r.
Proof.
  intros Htyped Hrange. unfold validate_transaction_connect_input.
  destruct (at_index_defined (inputs tx) current_input Hrange) as [input Hinput].
  rewrite Hinput. simpl bind.
  destruct (index (previous_output input) >=? Z.of_nat (length (outputs previous_tx)))
    eqn:Hcheck; [eexists; reflexivity |].
  assert (Hindex : 0 <= index (previous_output input) < 2 ^ 32).
  { unfold uint32_indices in Htyped. rewrite Forall_forall in Htyped.
    apply Htyped. eapply at_index_In. exact Hinput. }
  rewrite Z.geb_leb in Hcheck. apply Z.leb_gt in Hcheck.
  destruct (at_index_defined (outputs previous_tx) (index (previous_output input)))
    as [spent Hspent]; [lia |].
  rewrite Hspent. simpl bind.
  destruct (value spent >? max_money); [eexists; reflexivity |].
  destruct (is_coinbase previous_tx
            && (depth_difference last_block_depth parent_depth <? coinbase_maturity));
    [eexists; reflexivity |].
  destruct (negb (script_run (output_script spent) (input_script input) tx
                    current_input false)); [eexists; reflexivity |].
  cbv zeta. destruct (uint64 (value_in + value spent) >? max_money);
    eexists; reflexivity.
Qed.

Lemma handle_validate_consistent (tx_ : transaction) (v : validator)
    (ec : error_code) (indices : index_list) :
  awaiting v = Idle -> handled v = [] ->
  consistent tx_ (handle_validate_ v ec indices)
  /\ replies_left tx_ (handle_validate_ v ec indices) = 0.
Proof.
  intros Hidle Hnone. unfold consistent, replies_left. members.
  rewrite Hidle, Hnone. split; reflexivity.
Qed.

Lemma next_previous_transaction_consistent (tx_ : transaction) (v : validator) :
  handled v = [] ->
  0 <= current_input_ v < Z.of_nat (length (inputs tx_)) ->
  consistent tx_ (next_previous_transaction tx_ v)
  /\ replies_left tx_ (next_previous_transaction tx_ v)
     = 3 * (Z.of_nat (length (inputs tx_)) - current_input_ v).
Proof.
  intros Hnone Hrange. unfold next_previous_transaction.
  destruct (at_index_defined (inputs tx_) (current_input_ v) Hrange) as [input Hinput].
  rewrite Hinput. unfold consistent, replies_left. members.
  repeat split; try assumption; lia.
Qed.

Lemma handle_previous_tx_consistent (tx_ : transaction) (v : validator)
    (ec : error_code) (previous_tx : transaction) (parent_depth : Z) :
  uint32_indices tx_ ->
  awaiting v = Idle -> handled v = [] ->
  0 <= current_input_ v < Z.of_nat (length (inputs tx_)) ->
  let v' := handle_previous_tx tx_ v ec previous_tx parent_depth in
  consistent tx_ v'
  /\ replies_left tx_ v' <= 3 * (Z.of_nat (length (inputs tx_)) - current_input_ v) - 2
  /\ current_input_ v' = current_input_ v.
Proof.
  intros Htyped Hidle Hnone Hrange. cbv zeta. unfold handle_previous_tx.
  destruct (is_error ec).
  - destruct (handle_validate_consistent tx_ v error.input_not_found [current_input_ v])
      as [Hc Hleft]; try assumption.
    rewrite Hleft. repeat split; [assumption | lia].
  - destruct (connect_input_defined tx_ (current_input_ v) previous_tx parent_depth
                (last_block_depth_ v) (value_in_ v) Htyped Hrange) as [[connected value_in] Hr].
    rewrite Hr. cbv zeta. destruct connected; simpl negb; cbv iota.
    + members.
      destruct (at_index_defined (inputs tx_) (current_input_ v) Hrange) as [input Hinput].
      rewrite Hinput. unfold consistent, replies_left. members.
      repeat split; try assumption; lia.
    + destruct (handle_validate_consistent tx_ (set_value_in v value_in)
                  error.validate_inputs_failed []) as [Hc Hleft]; try assumption.
      rewrite Hleft. repeat split; [assumption | lia].
Qed.

Lemma push_unconfirmed_consistent (tx_ : transaction) (v : validator) (i : Z) :
  consistent tx_ (push_unconfirmed v i) <-> consistent tx_ v.
Proof. unfold consistent. members. reflexivity. Qed.

Lemma push_unconfirmed_replies_left (tx_ : transaction) (v : validator) (i : Z) :
  replies_left tx_ (push_unconfirmed v i) = replies_left tx_ v.
Proof. unfold replies_left. members. reflexivity. Qed.

Lemma search_pool_previous_tx_consistent (tx_ : transaction) (pool_ : pool_buffer)
    (v : validator) :
  uint32_indices tx_ ->
  awaiting v = Idle -> handled v = [] ->
  0 <= current_input_ v < Z.of_nat (length (inputs tx_)) ->
  let v' := search_pool_previous_tx tx_ pool_ v in
  consistent tx_ v'
  /\ replies_left tx_ v' <= 3 * (Z.of_nat (length (inputs tx_)) - current_input_ v) - 2.
Proof.
  intros Htyped Hidle Hnone Hrange. cbv zeta. unfold search_pool_previous_tx.
  destruct (at_index_defined (inputs tx_) (current_input_ v) Hrange) as [input Hinput].
  rewrite Hinput. destruct (fetch pool_ (hash (previous_output input))) as [previous_tx |].
  - cbv zeta. rewrite push_unconfirmed_consistent, push_unconfirmed_replies_left.
    destruct (handle_previous_tx_consistent tx_ v error.success previous_tx 0
                Htyped Hidle Hnone Hrange) as [Hc [Hleft _]].
    split; assumption.
  - destruct (handle_validate_consistent tx_ v error.input_not_found [current_input_ v])
      as [Hc Hleft]; try assumption.
    rewrite Hleft. split; [assumption | lia].
Qed.

Lemma consistent_replies_left (tx_ : transaction) (v : validator) :
  consistent tx_ v -> awaiting v <> Idle -> 1 <= replies_left tx_ v.
Proof.
  unfold consistent, replies_left. destruct (awaiting v); intros Hc Hbusy;
    try contradiction; destruct Hc as [_ Hc]; lia.
Qed.

(** One reply keeps the validator consistent and, while a query is
    outstanding, brings it nearer to its end. *)
Lemma deliver_consistent (tx_ : transaction) (pool_ : pool_buffer)
    (chain_ : blockchain) (n : nat) (v : validator) :
  uint32_indices tx_ ->
  consistent tx_ v ->
  consistent tx_ (deliver tx_ pool_ chain_ n v)
  /\ (awaiting v <> Idle ->
      replies_left tx_ (deliver tx_ pool_ chain_ n v) < replies_left tx_ v).
Proof.
  intros Htyped Hc. unfold deliver. cbv zeta.
  assert (Hidle : awaiting (set_awaiting v Idle) = Idle) by reflexivity.
  assert (Hhandled : handled (set_awaiting v Idle) = handled v) by reflexivity.
  assert (Hcursor : current_input_ (set_awaiting v Idle) = current_input_ v)
    by reflexivity.
  unfold consistent in Hc. unfold replies_left at 2.
  destruct (awaiting v) eqn:Hawaiting.
  - split; [unfold consistent; rewrite Hawaiting; exact Hc |].
    intros Hbusy. exfalso. apply Hbusy. reflexivity.
  - (* handle_duplicate_check *)
    destruct Hc as [Hnone Hinputs]. rewrite <- Hhandled in Hnone.
    unfold handle_duplicate_check.
    destruct (negb (error.eqb (fst (reply_fetch_transaction chain_ n tx_hash))
                      error.not_found)).
    + destruct (handle_validate_consistent tx_ (set_awaiting v Idle)
                  error.duplicate [] Hidle Hnone) as [Hc' Hleft].
      rewrite Hleft. split; [assumption | lia].
    + destruct (existsb (fun input => is_spent pool_ (previous_output input))
                  (inputs tx_)).
      * destruct (handle_validate_consistent tx_ (set_awaiting v Idle)
                    error.double_spend [] Hidle Hnone) as [Hc' Hleft].
        rewrite Hleft. split; [assumption | lia].
      * unfold consistent, replies_left. members.
        split; [split; assumption | lia].
  - (* set_last_depth *)
    destruct Hc as [Hnone Hinputs]. rewrite <- Hhandled in Hnone.
    destruct (reply_fetch_last_depth chain_ n) as [ec last_depth].
    unfold set_last_depth. destruct (is_error ec).
    + destruct (handle_validate_consistent tx_ (set_awaiting v Idle) ec []
                  Hidle Hnone) as [Hc' Hleft].
      rewrite Hleft. split; [assumption | lia].
    + match goal with
      | |- context [next_previous_transaction tx_ ?s] =>
          destruct (next_previous_transaction_consistent tx_ s) as [Hc' Hleft]
      end.
      * exact Hnone.
      * members. lia.
      * rewrite Hleft. members. split; [assumption | lia].
  - (* previous_tx_index *)
    destruct Hc as [Hnone Hrange]. rewrite <- Hhandled in Hnone.
    destruct (reply_fetch_transaction_index chain_ n tx_hash) as [ec parent_depth].
    unfold previous_tx_index. destruct (is_error ec).
    + destruct (search_pool_previous_tx_consistent tx_ pool_ (set_awaiting v Idle)
                  Htyped Hidle Hnone Hrange) as [Hc' Hleft].
      split; [assumption |]. rewrite Hcursor in Hleft. lia.
    + rewrite Hcursor.
      destruct (at_index_defined (inputs tx_) (current_input_ v) Hrange)
        as [input Hinput].
      rewrite Hinput. unfold consistent, replies_left. members.
      split; [split; assumption | lia].
  - (* handle_previous_tx *)
    destruct Hc as [Hnone Hrange]. rewrite <- Hhandled in Hnone.
    destruct (reply_fetch_transaction chain_ n tx_hash) as [ec previous_tx].
    destruct (handle_previous_tx_consistent tx_ (set_awaiting v Idle) ec previous_tx
                parent_depth Htyped Hidle Hnone Hrange) as [Hc' [Hleft _]].
    split; [assumption |]. rewrite Hcursor in Hleft. lia.
  - (* check_double_spend *)
    destruct Hc as [Hnone Hrange]. rewrite <- Hhandled in Hnone.
    unfold check_double_spend.
    destruct (error.eqb (reply_fetch_spend chain_ n outpoint) error.unspent_output).
    + cbv zeta.
      change (current_input_
                (set_current_input (set_awaiting v Idle)
                   (current_input_ (set_awaiting v Idle) + 1)))
        with (current_input_ v + 1).
      destruct (current_input_ v + 1 =? Z.of_nat (length (inputs tx_))) eqn:Hlast.
      * unfold check_fees.
        match goal with
        | |- context [tally_fees ?a ?b ?c] =>
            destruct (tally_fees a b c) as [in_range fee]
        end.
        match goal with
        | |- context [handle_validate_ ?s ?e ?l] =>
            destruct (handle_validate_consistent tx_ s e l) as [Hc' Hleft]
        end; [reflexivity | exact Hnone |].
        rewrite Hleft. split; [assumption | lia].
      * apply Z.eqb_neq in Hlast.
        match goal with
        | |- context [next_previous_transaction tx_ ?s] =>
            destruct (next_previous_transaction_consistent tx_ s) as [Hc' Hleft]
        end.
        -- exact Hnone.
        -- members. lia.
        -- rewrite Hleft. members. split; [assumption | lia].
    + destruct (handle_validate_consistent tx_ (set_awaiting v Idle)
                  error.double_spend [] Hidle Hnone) as [Hc' Hleft].
      rewrite Hleft. split; [assumption | lia].
  - contradiction.
Qed.

(** ** Runs of the memory-pool validator *)

Lemma error_eqb_eq (a b : error_code) : error.eqb a b = true <-> a = b.
Proof.
  unfold error.eqb. destruct (error.eq_dec a b) as [Heq | Hneq].
  - split; [intros _; exact Heq | reflexivity].
  - split; [discriminate | intros Heq; contradiction].
Qed.

Lemma is_error_false (ec : error_code) : is_error ec = false <-> ec = error.success.
Proof.
  unfold is_error. rewrite negb_false_iff. apply error_eqb_eq.
Qed.

Lemma basic_checks_passed (tx_ : transaction) (pool_ : pool_buffer) :
  is_error (basic_checks tx_ pool_) = false ->
  check_transaction tx_ = error.success.
Proof.
  unfold basic_checks. cbv zeta. intros Hpassed.
  destruct (is_error (check_transaction tx_)) eqn:Hchecked.
  - rewrite Hpassed in Hchecked. discriminate.
  - apply is_error_false. exact Hchecked.
Qed.

Lemma start_consistent (tx_ : transaction) (pool_ : pool_buffer) :
  consistent tx_ (start tx_ pool_)
  /\ replies_left tx_ (start tx_ pool_) <= 2 + 3 * Z.of_nat (length (inputs tx_)).
Proof.
  unfold start. cbv zeta.
  destruct (is_error (basic_checks tx_ pool_)) eqn:Hchecks.
  - unfold consistent, replies_left. members. cbn [constructed awaiting handled].
    split; [reflexivity | lia].
  - unfold consistent, replies_left. members. cbn [constructed awaiting handled].
    pose proof (check_transaction_success tx_ (basic_checks_passed _ _ Hchecks))
      as [Hinputs _].
    split; [split; [reflexivity | lia] | lia].
Qed.

Lemma deliver_idle (tx_ : transaction) (pool_ : pool_buffer) (chain_ : blockchain)
    (n : nat) (v : validator) :
  awaiting v = Idle -> deliver tx_ pool_ chain_ n v = v.
Proof. intros Hidle. unfold deliver. rewrite Hidle. reflexivity. Qed.

Lemma run_consistent (tx_ : transaction) (pool_ : pool_buffer) (chain_ : blockchain) :
  uint32_indices tx_ ->
  forall k,
    consistent tx_ (run tx_ pool_ chain_ k)
    /\ replies_left tx_ (run tx_ pool_ chain_ k)
       <= Z.max 0 (2 + 3 * Z.of_nat (length (inputs tx_)) - Z.of_nat k).
Proof.
  intros Htyped. induction k as [| k [Hc Hleft]].
  - cbn [run]. destruct (start_consistent tx_ pool_) as [Hc Hleft].
    split; [assumption | lia].
  - cbn [run].
    destruct (deliver_consistent tx_ pool_ chain_ k _ Htyped Hc) as [Hc' Hless].
    split; [assumption |].
    assert (Hcases : awaiting (run tx_ pool_ chain_ k) = Idle
                     \/ awaiting (run tx_ pool_ chain_ k) <> Idle).
    { destruct (awaiting (run tx_ pool_ chain_ k));
        [left; reflexivity | right; discriminate ..]. }
    destruct Hcases as [Hidle | Hbusy].
    + rewrite deliver_idle by assumption.
      unfold replies_left. rewrite Hidle. lia.
    + pose proof (consistent_replies_left tx_ _ Hc Hbusy) as Hone.
      specialize (Hless Hbusy). lia.
Qed.

Lemma run_stable (tx_ : transaction) (pool_ : pool_buffer) (chain_ : blockchain)
    (k : nat) :
  awaiting (run tx_ pool_ chain_ k) = Idle ->
  forall k', (k <= k')%nat -> run tx_ pool_ chain_ k' = run tx_ pool_ chain_ k.
Proof.
  intros Hidle k' Hle. induction Hle as [| k' Hle IH].
  - reflexivity.
  - cbn [run]. rewrite IH. apply deliver_idle. exact Hidle.
Qed.

Lemma consistent_at_most_once (tx_ : transaction) (v : validator) :
  consistent tx_ v -> (length (handled v) <= 1)%nat /\ awaiting v <> Faulted.
Proof.
  unfold consistent. destruct (awaiting v); intros Hc; try contradiction;
    (split; [| discriminate]);
    first [rewrite Hc; apply Nat.le_refl
          | destruct Hc as [Hnone _]; rewrite Hnone; apply Nat.le_0_l].
Qed.

(** Along the run against any one chain: at every moment the handler has
    been called at most once, and after at most [2 + 3 * |inputs|] replies no
    query is outstanding and it has been called exactly once, which no later
    reply changes. *)
Lemma run_calls_handler_once (tx_ : transaction) (pool_ : pool_buffer)
    (chain_ : blockchain) :
  uint32_indices tx_ ->
  (forall k,
     (length (handled (run tx_ pool_ chain_ k)) <= 1)%nat
     /\ awaiting (run tx_ pool_ chain_ k) <> Faulted)
  /\ exists k,
       (k <= 2 + 3 * length (inputs tx_))%nat
       /\ forall k', (k <= k')%nat ->
            run tx_ pool_ chain_ k' = run tx_ pool_ chain_ k
            /\ awaiting (run tx_ pool_ chain_ k') = Idle
            /\ length (handled (run tx_ pool_ chain_ k')) = 1%nat.
Proof.
  intros Htyped. split.
  - intros k. apply (consistent_at_most_once tx_).
    apply run_consistent. exact Htyped.
  - exists (2 + 3 * length (inputs tx_))%nat. split; [lia |].
    destruct (run_consistent tx_ pool_ chain_ Htyped (2 + 3 * length (inputs tx_))%nat)
      as [Hc Hleft].
    assert (Hidle : awaiting (run tx_ pool_ chain_ (2 + 3 * length (inputs tx_))%nat)
                    = Idle).
    { destruct (awaiting (run tx_ pool_ chain_ (2 + 3 * length (inputs tx_))%nat))
        eqn:Hawaiting; try reflexivity;
        pose proof (consistent_replies_left tx_ _ Hc) as Hone;
        rewrite Hawaiting in Hone; specialize (Hone ltac:(discriminate)); lia. }
    intros k' Hle. rewrite (run_stable tx_ pool_ chain_ _ Hidle k' Hle).
    split; [reflexivity |]. split; [exact Hidle |].
    unfold consistent in Hc. rewrite Hidle in Hc. exact Hc.
Qed.

Lemma consistent_replies_nonneg (tx_ : transaction) (v : validator) :
  consistent tx_ v -> 0 <= replies_left tx_ v.
Proof.
  intros Hc.
  assert (Hcases : awaiting v = Idle \/ awaiting v <> Idle).
  { destruct (awaiting v); [left; reflexivity | right; discriminate ..]. }
  destruct Hcases as [Hidle | Hbusy].
  - unfold replies_left. rewrite Hidle. lia.
  - pose proof (consistent_replies_left tx_ v Hc Hbusy). lia.
Qed.

Lemma reachable_consistent (tx_ : transaction) (pool_ : pool_buffer) (k : nat)
    (v : validator) :
  uint32_indices tx_ ->
  reachable tx_ pool_ k v ->
  consistent tx_ v
  /\ replies_left tx_ v + Z.of_nat k <= 2 + 3 * Z.of_nat (length (inputs tx_)).
Proof.
  intros Htyped Hreach.
  induction Hreach as [| k v chain_ n Hreach [Hc Hleft] Hbusy].
  - destruct (start_consistent tx_ pool_) as [Hc Hleft]. split; [assumption | lia].
  - destruct (deliver_consistent tx_ pool_ chain_ n v Htyped Hc) as [Hc' Hless].
    specialize (Hless Hbusy). split; [assumption | lia].
Qed.

(** C8.  For a transaction whose outpoint indices are [uint32_t] values, in
    every state that the validator reaches from [start] under any replies of
    the chain: the handler has been called at most once and no vector has
    been indexed out of range; no query is outstanding exactly when the
    handler has been called once, and then nothing runs any more; a state
    with an outstanding query takes a step on every reply; and no path is
    longer than [2 + 3 * |inputs|] replies.  So every path ends, and ends
    with exactly one call of the handler. *)
Theorem handler_called_exactly_once (tx_ : transaction) (pool_ : pool_buffer)
    (k : nat) (v : validator) :
  uint32_indices tx_ ->
  reachable tx_ pool_ k v ->
  (length (handled v) <= 1)%nat
  /\ awaiting v <> Faulted
  /\ (awaiting v = Idle <-> length (handled v) = 1%nat)
  /\ (awaiting v = Idle -> forall chain_ n, deliver tx_ pool_ chain_ n v = v)
  /\ (awaiting v <> Idle ->
      forall chain_ n, reachable tx_ pool_ (S k) (deliver tx_ pool_ chain_ n v))
  /\ (k <= 2 + 3 * length (inputs tx_))%nat.
Proof.
  intros Htyped Hreach.
  destruct (reachable_consistent tx_ pool_ k v Htyped Hreach) as [Hc Hleft].
  destruct (consistent_at_most_once tx_ v Hc) as [Hmost Hsound].
  pose proof (consistent_replies_nonneg tx_ v Hc) as Hnonneg.
  repeat split.
  - exact Hmost.
  - exact Hsound.
  - intros Hidle. unfold consistent in Hc. rewrite Hidle in Hc. exact Hc.
  - intros Hone. unfold consistent in Hc.
    destruct (awaiting v); try reflexivity; try contradiction;
      destruct Hc as [Hnone _]; rewrite Hnone in Hone; discriminate.
  - intros Hidle chain_ n. apply deliver_idle. exact Hidle.
  - intros Hbusy chain_ n. apply reachable_reply; assumption.
  - lia.
Qed.

(** C2, as the code has it.  When the basic checks pass and the chain
    answers the duplicate check with any code other than [not_found]
    ([service_stopped], another error, or success), the only call of the
    handler carries [duplicate] and an empty index list, whatever the code
    received was. *)
Theorem duplicate_check_reports_duplicate (tx_ : transaction) (pool_ : pool_buffer)
    (chain_ : blockchain) :
  basic_checks tx_ pool_ = error.success ->
  fst (reply_fetch_transaction chain_ 0 (hash_transaction tx_)) <> error.not_found ->
  forall k, (1 <= k)%nat ->
    handled (run tx_ pool_ chain_ k) = [(error.duplicate, [])]
    /\ awaiting (run tx_ pool_ chain_ k) = Idle.
Proof.
  intros Hchecks Hreply.
  assert (Hfirst : run tx_ pool_ chain_ 1
                   = handle_validate_ (set_awaiting constructed Idle) error.duplicate []).
  { cbn [run]. unfold start. cbv zeta. rewrite Hchecks. cbn [is_error].
    change (is_error error.success) with false. cbv iota.
    unfold deliver. cbv zeta. members. unfold handle_duplicate_check.
    destruct (error.eqb (fst (reply_fetch_transaction chain_ 0 (hash_transaction tx_)))
                error.not_found) eqn:Heq.
    - apply error_eqb_eq in Heq. contradiction.
    - reflexivity. }
  assert (Hidle : awaiting (run tx_ pool_ chain_ 1) = Idle)
    by (rewrite Hfirst; reflexivity).
  intros k Hk. rewrite (run_stable tx_ pool_ chain_ 1%nat Hidle k Hk).
  rewrite Hfirst. split; reflexivity.
Qed.

(** ** [connect_block]: the BIP 30 test *)

Lemma not_duplicate_or_spent_iff (view : chain_view) (tx : transaction) :
  not_duplicate_or_spent view tx = true <-> absent_or_spent view tx.
Proof.
  unfold not_duplicate_or_spent, absent_or_spent. cbv zeta.
  destruct (transaction_exists view (hash_transaction tx)); simpl negb; cbv iota.
  - rewrite forallb_forall. split.
    + intros Hall. right. intros output_index Hrange. apply Hall.
      apply in_map_iff. exists (Z.to_nat output_index). split; [lia |].
      apply in_seq. lia.
    + intros [Habsent | Hall]; [discriminate |].
      intros output_index Hin. apply in_map_iff in Hin.
      destruct Hin as [n [<- Hin]]. apply in_seq in Hin. apply Hall. lia.
  - split; [intros _; left; reflexivity | reflexivity].
Qed.

Lemma bip30_test_iff (view : chain_view) (txs : list transaction) :
  forallb (not_duplicate_or_spent view) txs = true
  <-> Forall (absent_or_spent view) txs.
Proof.
  rewrite forallb_forall, Forall_forall. split; intros Hall tx Hin.
  - apply not_duplicate_or_spent_iff. apply Hall. exact Hin.
  - apply not_duplicate_or_spent_iff. apply Hall. exact Hin.
Qed.

Lemma connect_transactions_errors (view : chain_view) (depth_ : Z)
    (current_block_ : block) (txs : list (Z * transaction)) :
  forall fees total_sigops ec,
    connect_transactions view depth_ current_block_ txs fees total_sigops
    = Returns (inl ec) ->
    ec = error.too_many_sigs \/ ec = error.validate_inputs_failed
    \/ ec = error.fees_out_of_range.
Proof.
  induction txs as [| [tx_index tx] rest IH]; intros fees total_sigops ec;
    cbn [connect_transactions]; [discriminate |].
  cbv zeta.
  destruct (size_t (total_sigops + tx_legacy_sigops_count tx)
            >? max_block_script_sig_operations); [intros [= <-]; auto |].
  destruct (validate_inputs view depth_ current_block_ tx tx_index 0
              (size_t (total_sigops + tx_legacy_sigops_count tx)))
    as [[[connected value_in] sigops] |]; cbn [bind]; [| discriminate].
  destruct connected; cbn [negb]; [| intros [= <-]; auto].
  destruct (tally_fees tx value_in fees) as [in_range fees'].
  destruct in_range; cbn [negb]; [apply IH | intros [= <-]; auto].
Qed.

Lemma connect_block_after_bip30_errors (view : chain_view) (depth_ : Z)
    (current_block_ : block) :
  connect_block_after_bip30 view depth_ current_block_
  <> Returns error.duplicate_or_spent.
Proof.
  unfold connect_block_after_bip30.
  pose proof (connect_transactions_errors view depth_ current_block_
                (indexed_from 1 (tl (transactions current_block_))) 0 0) as Hloop.
  destruct (connect_transactions view depth_ current_block_
              (indexed_from 1 (tl (transactions current_block_))) 0 0)
    as [[ec | fees] |]; cbn [bind]; [| | discriminate].
  - intros [= ->].
    destruct (Hloop _ eq_refl) as [Hec | [Hec | Hec]]; discriminate.
  - destruct (at_index (transactions current_block_) 0) as [coinbase |];
      cbn [bind]; [| discriminate].
    cbv zeta.
    destruct (total_output_value coinbase >? uint64 (block_value depth_ + fees));
      discriminate.
Qed.

(** C7.  At a depth other than 91842 and 91880, [connect_block] returns
    [duplicate_or_spent] exactly when some transaction of the block fails
    the BIP 30 test, that is, unless every transaction has no earlier
    transaction with its hash or has all the outputs under that hash spent;
    at depths 91842 and 91880 the test is skipped: [connect_block] is the
    rest of the function and never returns [duplicate_or_spent]. *)
Theorem connect_block_bip30 (view : chain_view) (depth_ : Z) (current_block_ : block) :
  (depth_ <> 91842 -> depth_ <> 91880 ->
   (connect_block view depth_ current_block_ = Returns error.duplicate_or_spent
    <-> ~ Forall (absent_or_spent view) (transactions current_block_)))
  /\ (depth_ = 91842 \/ depth_ = 91880 ->
      connect_block view depth_ current_block_
      = connect_block_after_bip30 view depth_ current_block_
      /\ connect_block view depth_ current_block_
         <> Returns error.duplicate_or_spent).
Proof.
  unfold connect_block, bip30_rejects. split.
  - intros H1 H2. apply Z.eqb_neq in H1. apply Z.eqb_neq in H2.
    rewrite H1, H2. cbn [negb andb].
    rewrite <- bip30_test_iff.
    destruct (forallb (not_duplicate_or_spent view) (transactions current_block_));
      cbn [negb].
    + split.
      * intros Hrejected. exfalso.
        exact (connect_block_after_bip30_errors _ _ _ Hrejected).
      * intros Hnot. exfalso. apply Hnot. reflexivity.
    + split; [intros _; discriminate | reflexivity].
  - intros Hdepth.
    assert (Hskip : negb (depth_ =? 91842) && negb (depth_ =? 91880) = false).
    { destruct Hdepth as [-> | ->]; reflexivity. }
    rewrite Hskip. cbn [andb]. split; [reflexivity |].
    apply connect_block_after_bip30_errors.
Qed.

(** ** [connect_block]: fees and the value of the coinbase *)

Lemma at_index_nth_error {A : Type} (v : list A) (i : Z) (a : A) :
  at_index v i = Returns a -> nth_error v (Z.to_nat i) = Some a.
Proof.
  unfold at_index. destruct (i <? 0); [discriminate |].
  destruct (nth_error v (Z.to_nat i)); [| discriminate].
  intros [= ->]. reflexivity.
Qed.

Lemma at_index_middle {A : Type} (done rest : list A) (a : A) :
  at_index (done ++ a :: rest) (Z.of_nat (length done)) = Returns a.
Proof.
  unfold at_index.
  assert (Hneg : (Z.of_nat (length done) <? 0) = false) by (apply Z.ltb_ge; lia).
  rewrite Hneg, Nat2Z.id, nth_error_app2 by apply Nat.le_refl.
  rewrite Nat.sub_diag. reflexivity.
Qed.

(** Without overflow, the accumulated sum of the outputs is their sum. *)
Lemma fold_output_values_exact (outs : list transaction_output) :
  forall total,
    0 <= total ->
    Forall (fun output => 0 <= value output < 2 ^ 64) outs ->
    total + fold_right (fun output sum => value output + sum) 0 outs < 2 ^ 64 ->
    fold_left (fun total output => uint64 (total + value output)) outs total
    = total + fold_right (fun output sum => value output + sum) 0 outs.
Proof.
  induction outs as [| output rest IH]; intros total Hpos Htyped Hsum; simpl in *.
  - lia.
  - inversion Htyped as [| ? ? Hvalue Hrest]; subst.
    assert (Hrest_pos : 0 <= fold_right (fun output sum => value output + sum) 0 rest).
    { clear - Hrest. induction Hrest; simpl; lia. }
    rewrite uint64_small by lia.
    rewrite IH; [lia | lia | assumption | lia].
Qed.

Lemma total_output_value_exact (tx : transaction) :
  uint64_values tx ->
  check_transaction tx = error.success ->
  total_output_value tx = sum_output_values tx.
Proof.
  intros Htyped Hok. unfold total_output_value, sum_output_values.
  pose proof (check_transaction_success tx Hok) as [_ [_ [_ Hsum]]].
  unfold sum_output_values in Hsum. rewrite max_money_value in Hsum.
  rewrite fold_output_values_exact; [reflexivity | lia | exact Htyped |].
  rewrite two_pow_64. lia.
Qed.

Lemma total_output_value_range (tx : transaction) :
  0 <= total_output_value tx < 2 ^ 64.
Proof.
  unfold total_output_value.
  assert (Hgen : forall outs total, 0 <= total < 2 ^ 64 ->
            0 <= fold_left (fun total output => uint64 (total + value output))
                   outs total < 2 ^ 64).
  { induction outs as [| output rest IH]; intros total Htotal; simpl.
    - exact Htotal.
    - apply IH. apply uint64_range. }
  apply Hgen. rewrite two_pow_64. lia.
Qed.

Lemma block_value_range (depth_ : Z) :
  0 <= depth_ -> 0 <= block_value depth_ <= 5000000000.
Proof.
  intros Hdepth. unfold block_value.
  assert (Hshift : 0 <= depth_ / 210000) by (apply Z.div_pos; lia).
  rewrite Z.shiftr_div_pow2 by exact Hshift.
  change (50 * 100000000) with 5000000000.
  assert (Hpow : 0 < 2 ^ (depth_ / 210000)) by (apply Z.pow_pos_nonneg; lia).
  split.
  - apply Z.div_pos; lia.
  - apply Z.div_le_upper_bound; [exact Hpow | nia].
Qed.

(** A connected input adds the value of the output it spends. *)
Lemma validate_block_connect_input_value (view : chain_view) (depth_ : Z)
    (current_block_ : block) (index_in_parent : Z) (tx : transaction)
    (input_index value_in total_sigops value_in' total_sigops' : Z)
    (input : transaction_input) :
  well_typed_view view ->
  0 <= value_in <= max_money ->
  at_index (inputs tx) input_index = Returns input ->
  validate_block_connect_input view depth_ current_block_ index_in_parent tx
    input_index value_in total_sigops = Returns (true, value_in', total_sigops') ->
  value_in' = value_in + input_value view input /\ 0 <= value_in' <= max_money.
Proof.
  intros Hview Hvalue_in Hinput. unfold validate_block_connect_input.
  rewrite Hinput. cbn [bind]. unfold input_value, spent_output.
  destruct (fetch_transaction view (hash (previous_output input)))
    as [[previous_tx previous_depth] |] eqn:Hfetch; [| discriminate].
  destruct (at_index (outputs previous_tx) (index (previous_output input)))
    as [spent |] eqn:Hspent; cbn [bind]; [| discriminate].
  rewrite (at_index_nth_error _ _ _ Hspent).
  assert (Htyped : 0 <= value spent < 2 ^ 64).
  { pose proof (Hview _ _ _ Hfetch) as Hvalues. unfold uint64_values in Hvalues.
    rewrite Forall_forall in Hvalues. apply Hvalues.
    eapply at_index_In. exact Hspent. }
  cbv zeta.
  destruct (size_t _ >? max_block_script_sig_operations); [discriminate |].
  destruct (value spent >? max_money) eqn:Hlarge; [discriminate |].
  rewrite Z.gtb_ltb in Hlarge. apply Z.ltb_ge in Hlarge.
  destruct (is_coinbase previous_tx && _); [discriminate |].
  destruct (negb (script_run _ _ _ _ _)); [discriminate |].
  destruct (is_output_spent_within view _ _ _); [discriminate |].
  rewrite max_money_value in *. rewrite two_pow_64 in Htyped.
  rewrite uint64_small by (rewrite two_pow_64; lia).
  destruct (value_in + value spent >? 2100000000000000) eqn:Hsum; [discriminate |].
  rewrite Z.gtb_ltb in Hsum. apply Z.ltb_ge in Hsum.
  intros [= <- _]. lia.
Qed.

Lemma validate_inputs_loop_value (view : chain_view) (depth_ : Z)
    (current_block_ : block) (index_in_parent : Z) (tx : transaction)
    (rest : list transaction_input) :
  well_typed_view view ->
  forall done value_in total_sigops value_in' total_sigops',
    inputs tx = done ++ rest ->
    0 <= value_in <= max_money ->
    validate_inputs_loop view depth_ current_block_ tx index_in_parent
      (map Z.of_nat (seq (length done) (length rest))) value_in total_sigops
    = Returns (true, value_in', total_sigops') ->
    value_in'
    = value_in + fold_right (fun input total => input_value view input + total) 0 rest
    /\ 0 <= value_in' <= max_money.
Proof.
  intros Hview. induction rest as [| input rest IH];
    intros done value_in total_sigops value_in' total_sigops' Hsplit Hvalue_in;
    cbn [length seq map validate_inputs_loop fold_right].
  - intros [= <- _]. lia.
  - assert (Hinput : at_index (inputs tx) (Z.of_nat (length done)) = Returns input).
    { rewrite Hsplit. apply at_index_middle. }
    destruct (validate_block_connect_input view depth_ current_block_ index_in_parent
                tx (Z.of_nat (length done)) value_in total_sigops)
      as [[[connected value_mid] sigops_mid] |] eqn:Hconnect; cbn [bind];
      [| discriminate].
    destruct connected; cbn [negb]; [| discriminate].
    destruct (validate_block_connect_input_value _ _ _ _ _ _ _ _ _ _ _
                Hview Hvalue_in Hinput Hconnect) as [Hmid Hmid_range].
    intros Hloop.
    destruct (IH (done ++ [input]) value_mid sigops_mid value_in' total_sigops')
      as [Hfinal Hfinal_range].
    + rewrite Hsplit, <- app_assoc. reflexivity.
    + exact Hmid_range.
    + rewrite length_app, Nat.add_1_r. exact Hloop.
    + split; [lia | exact Hfinal_range].
Qed.

Lemma tally_fees_exact (tx : transaction) (value_in fees fees' : Z) :
  uint64_values tx ->
  check_transaction tx = error.success ->
  0 <= value_in <= max_money ->
  0 <= fees <= max_money ->
  tally_fees tx value_in fees = (true, fees') ->
  fees' = fees + (value_in - sum_output_values tx) /\ 0 <= fees' <= max_money.
Proof.
  intros Htyped Hok Hvalue_in Hfees. unfold tally_fees. cbv zeta.
  rewrite (total_output_value_exact tx Htyped Hok).
  assert (Hout : 0 <= sum_output_values tx).
  { rewrite <- (total_output_value_exact tx Htyped Hok).
    apply total_output_value_range. }
  destruct (value_in <? sum_output_values tx) eqn:Hless; [discriminate |].
  apply Z.ltb_ge in Hless. rewrite max_money_value in *.
  rewrite (uint64_small (value_in - sum_output_values tx))
    by (rewrite two_pow_64; lia).
  rewrite uint64_small by (rewrite two_pow_64; lia).
  destruct (fees + (value_in - sum_output_values tx) >? 2100000000000000) eqn:Hsum;
    [discriminate |].
  rewrite Z.gtb_ltb in Hsum. apply Z.ltb_ge in Hsum.
  intros [= <-]. lia.
Qed.

Lemma connect_transactions_fees (view : chain_view) (depth_ : Z)
    (current_block_ : block) (txs : list (Z * transaction)) :
  well_typed_view view ->
  Forall (fun entry => uint64_values (snd entry)
                       /\ check_transaction (snd entry) = error.success) txs ->
  forall fees total_sigops fees',
    0 <= fees <= max_money ->
    connect_transactions view depth_ current_block_ txs fees total_sigops
    = Returns (inr fees') ->
    fees' = fees + accumulated_fees view (map snd txs) /\ 0 <= fees' <= max_money.
Proof.
  intros Hview Htxs. induction Htxs as [| [tx_index tx] rest [Htyped Hok] Hrest IH];
    intros fees total_sigops fees' Hfees; cbn [connect_transactions].
  - intros [= <-]. cbn [map accumulated_fees fold_right]. lia.
  - change (accumulated_fees view (map snd ((tx_index, tx) :: rest)))
      with (transaction_fee view tx + accumulated_fees view (map snd rest)).
    cbv zeta. cbn [snd] in Htyped, Hok.
    destruct (size_t (total_sigops + tx_legacy_sigops_count tx)
              >? max_block_script_sig_operations); [discriminate |].
    destruct (validate_inputs view depth_ current_block_ tx tx_index 0
                (size_t (total_sigops + tx_legacy_sigops_count tx)))
      as [[[connected value_in] sigops] |] eqn:Hinputs; cbn [bind]; [| discriminate].
    destruct connected; cbn [negb]; [| discriminate].
    unfold validate_inputs in Hinputs.
    destruct (validate_inputs_loop_value view depth_ current_block_ tx_index tx
                (inputs tx) Hview [] 0 _ value_in sigops eq_refl
                ltac:(rewrite max_money_value; lia) Hinputs)
      as [Hvalue_in Hvalue_range].
    destruct (tally_fees tx value_in fees) as [in_range fees_mid] eqn:Htally.
    destruct in_range; cbn [negb]; [| discriminate].
    destruct (tally_fees_exact tx value_in fees fees_mid Htyped Hok Hvalue_range
                Hfees Htally) as [Hmid Hmid_range].
    intros Hloop. destruct (IH fees_mid sigops fees' Hmid_range Hloop)
      as [Hfinal Hfinal_range].
    split; [| exact Hfinal_range].
    unfold transaction_fee, sum_input_values. lia.
Qed.

Lemma snd_indexed_from {A : Type} (first : nat) (v : list A) :
  map snd (indexed_from first v) = v.
Proof.
  unfold indexed_from. revert first.
  induction v as [| a rest IH]; intros first; cbn [length seq map combine snd].
  - reflexivity.
  - rewrite IH. reflexivity.
Qed.

Lemma check_block_checks_transactions (universal_time : Z) (current_block_ : block) :
  check_block universal_time current_block_ = error.success ->
  Forall (fun tx => check_transaction tx = error.success)
         (transactions current_block_).
Proof.
  unfold check_block.
  destruct (transactions current_block_) as [| coinbase others] eqn:Htxs;
    [discriminate |].
  destruct (_ || _); [discriminate |].
  destruct (negb (check_proof_of_work _ _)); [discriminate |].
  destruct (timestamp current_block_ >? _); [discriminate |].
  destruct (negb (is_coinbase coinbase)); [discriminate |].
  destruct (existsb is_coinbase others); [discriminate |].
  destruct (find (fun tx => is_error (check_transaction tx)) (coinbase :: others))
    as [failed |] eqn:Hfind.
  - intros Hok. apply find_some in Hfind. destruct Hfind as [_ Herror].
    rewrite Hok in Herror. discriminate.
  - intros _. apply Forall_forall. intros tx Hin. apply is_error_false.
    exact (find_none _ _ Hfind tx Hin).
Qed.

(** [start] runs [connect_block] only on a block for which [check_block]
    and [accept_block] returned no error, and returns what it returns. *)
Lemma validate_block_start_order (universal_time : Z) (view : chain_view)
    (depth_ : Z) (current_block_ : block) (ec : error_code) :
  validate_block_start universal_time view depth_ current_block_ = Returns ec ->
  (ec = check_block universal_time current_block_ /\ ec <> error.success)
  \/ (check_block universal_time current_block_ = error.success
      /\ ec = accept_block view depth_ current_block_ /\ ec <> error.success)
  \/ (check_block universal_time current_block_ = error.success
      /\ accept_block view depth_ current_block_ = error.success
      /\ connect_block view depth_ current_block_ = Returns ec).
Proof.
  unfold validate_block_start. cbv zeta.
  destruct (is_error (check_block universal_time current_block_)) eqn:Hcheck.
  - intros [= <-]. left. split; [reflexivity |].
    intros Hok. rewrite Hok in Hcheck. discriminate.
  - apply is_error_false in Hcheck.
    destruct (is_error (accept_block view depth_ current_block_)) eqn:Haccept.
    + intros [= <-]. right. left. repeat split; [assumption |].
      intros Hok. rewrite Hok in Haccept. discriminate.
    + apply is_error_false in Haccept.
      destruct (connect_block view depth_ current_block_) as [ec' |];
        cbn [bind]; [| discriminate].
      destruct (is_error ec') eqn:Hconnect.
      * intros [= <-]. right. right. repeat split; assumption.
      * apply is_error_false in Hconnect. subst ec'. intros [= <-].
        right. right. repeat split; assumption.
Qed.

(** The value of the coinbase against the subsidy and the fees, for a block
    that passed [check_block]. *)
Lemma connect_block_coinbase (universal_time : Z) (view : chain_view) (depth_ : Z)
    (current_block_ : block) (coinbase : transaction) (others : list transaction) :
  0 <= depth_ ->
  well_typed_view view ->
  Forall uint64_values (transactions current_block_) ->
  transactions current_block_ = coinbase :: others ->
  check_block universal_time current_block_ = error.success ->
  (connect_block view depth_ current_block_ = Returns error.success ->
   sum_output_values coinbase <= block_value depth_ + accumulated_fees view others)
  /\ (bip30_rejects view depth_ current_block_ = false ->
      (exists fees,
         connect_transactions view depth_ current_block_ (indexed_from 1 others) 0 0
         = Returns (inr fees)) ->
      block_value depth_ + accumulated_fees view others < sum_output_values coinbase ->
      connect_block view depth_ current_block_ = Returns error.coinbase_too_large).
Proof.
  intros Hdepth Hview Htyped Htxs Hchecked.
  pose proof (check_block_checks_transactions _ _ Hchecked) as Hok.
  rewrite Htxs in Htyped, Hok.
  inversion Htyped as [| ? ? Htyped_coinbase Htyped_others]; subst.
  inversion Hok as [| ? ? Hok_coinbase Hok_others]; subst.
  assert (Hentries :
            Forall (fun entry => uint64_values (snd entry)
                                 /\ check_transaction (snd entry) = error.success)
                   (indexed_from 1 others)).
  { apply Forall_forall. intros entry Hin.
    assert (Hsnd : In (snd entry) others).
    { rewrite <- (snd_indexed_from 1 others). apply in_map. exact Hin. }
    rewrite Forall_forall in Htyped_others, Hok_others. split; auto. }
  pose proof (block_value_range depth_ Hdepth) as Hsubsidy.
  pose proof (total_output_value_exact coinbase Htyped_coinbase Hok_coinbase)
    as Hcoinbase.
  assert (Hloop : forall fees,
            connect_transactions view depth_ current_block_ (indexed_from 1 others) 0 0
            = Returns (inr fees) ->
            fees = accumulated_fees view others
            /\ uint64 (block_value depth_ + fees) = block_value depth_ + fees).
  { intros fees Hfees.
    destruct (connect_transactions_fees view depth_ current_block_ _ Hview Hentries
                0 0 fees ltac:(rewrite max_money_value; lia) Hfees)
      as [Hsum Hrange].
    rewrite snd_indexed_from in Hsum. split; [lia |].
    apply uint64_small. rewrite two_pow_64. rewrite max_money_value in Hrange. lia. }
  unfold connect_block, connect_block_after_bip30. rewrite Htxs. cbn [tl].
  change (at_index (coinbase :: others) 0) with (Returns coinbase).
  split.
  - destruct (bip30_rejects view depth_ current_block_); [discriminate |].
    destruct (connect_transactions view depth_ current_block_ (indexed_from 1 others)
                0 0) as [[ec | fees] |] eqn:Hrun; cbn [bind]; [| | discriminate].
    + intros [= ->].
      destruct (connect_transactions_errors _ _ _ _ _ _ _ Hrun)
        as [Hec | [Hec | Hec]]; discriminate.
    + destruct (Hloop fees eq_refl) as [-> Hexact]. cbv zeta.
      rewrite Hexact, Hcoinbase.
      destruct (sum_output_values coinbase
                >? block_value depth_ + accumulated_fees view others) eqn:Hlarge;
        [discriminate |].
      rewrite Z.gtb_ltb in Hlarge. apply Z.ltb_ge in Hlarge. intros _. exact Hlarge.
  - intros Hbip30 [fees Hrun] Hlarge. rewrite Hbip30, Hrun. cbn [bind]. cbv zeta.
    destruct (Hloop fees Hrun) as [-> Hexact]. rewrite Hexact, Hcoinbase.
    apply Z.gt_lt_iff in Hlarge. apply Z.gtb_gt in Hlarge. rewrite Hlarge.
    reflexivity.
Qed.

(** C6.  For a block that passed [check_block] (which [start] runs before
    [connect_block]), at a depth and with values that the types of the
    source hold: when [connect_block] returns no error, the sum of the
    output values of the coinbase is at most the subsidy of the depth plus
    the fees of the other transactions of the block; and when the BIP 30
    test and the loop over the other transactions pass and that sum is
    larger, [connect_block] returns [coinbase_too_large]. *)
Theorem coinbase_value_bounded (universal_time : Z) (view : chain_view) (depth_ : Z)
    (current_block_ : block) (coinbase : transaction) (others : list transaction) :
  0 <= depth_ ->
  well_typed_view view ->
  Forall uint64_values (transactions current_block_) ->
  transactions current_block_ = coinbase :: others ->
  check_block universal_time current_block_ = error.success ->
  (connect_block view depth_ current_block_ = Returns error.success ->
   sum_output_values coinbase <= block_value depth_ + accumulated_fees view others)
  /\ (bip30_rejects view depth_ current_block_ = false ->
      (exists fees,
         connect_transactions view depth_ current_block_ (indexed_from 1 others) 0 0
         = Returns (inr fees)) ->
      block_value depth_ + accumulated_fees view others < sum_output_values coinbase ->
      connect_block view depth_ current_block_ = Returns error.coinbase_too_large).
Proof.
  exact (connect_block_coinbase universal_time view depth_ current_block_ coinbase
           others).
Qed.

(** A block that [start] accepts pays its coinbase at most the subsidy and
    the fees. *)
Corollary accepted_block_coinbase (universal_time : Z) (view : chain_view)
    (depth_ : Z) (current_block_ : block) (coinbase : transaction)
    (others : list transaction) :
  0 <= depth_ ->
  well_typed_view view ->
  Forall uint64_values (transactions current_block_) ->
  transactions current_block_ = coinbase :: others ->
  validate_block_start universal_time view depth_ current_block_
  = Returns error.success ->
  sum_output_values coinbase <= block_value depth_ + accumulated_fees view others.
Proof.
  intros Hdepth Hview Htyped Htxs Hstart.
  destruct (validate_block_start_order _ _ _ _ _ Hstart)
    as [[_ Hfailed] | [[_ [_ Hfailed]] | [Hchecked [_ Hconnected]]]];
    try (exfalso; apply Hfailed; reflexivity).
  exact (proj1 (connect_block_coinbase universal_time view depth_ current_block_
                  coinbase others Hdepth Hview Htyped Htxs Hchecked) Hconnected).
Qed.

End Properties.

(** * The properties on the concrete platform *)

Lemma sample_view_well_typed : well_typed_view sample_view.
Proof.
  intros tx_hash tx depth. cbn [fetch_transaction sample_view].
  destruct (hash_eqb tx_hash (toy_hash 1)); [| discriminate].
  intros [= <- _]. repeat constructor; vm_compute; congruence.
Qed.

Lemma sample_block_well_typed :
  Forall uint64_values (transactions (sample_block 5100000000 0)).
Proof. repeat constructor; vm_compute; congruence. Qed.

Lemma sample_spender_well_typed : uint32_indices (sample_spender 0).
Proof. repeat constructor; vm_compute; congruence. Qed.


(** Where [op_1 .. op_16] stand at 1 .. 16, the checkmultisig of
    [sample_operations], after the push of 2, counts for 2. *)
Example count_script_sigops_sample :
  @count_script_sigops reference_platform sample_operations true = 2.
Proof. reflexivity. Qed.

(** C2 as the specification has it does not hold: the chain answers the
    duplicate check with [service_stopped] and the handler receives
    [duplicate]. *)
Lemma duplicate_check_service_stopped_counterexample :
  @basic_checks reference_platform (sample_spender 0) [] = error.success
  /\ fst (reply_fetch_transaction stopped_chain 0
            (@hash_transaction reference_platform (sample_spender 0)))
     = error.service_stopped
  /\ handled (@run reference_platform (sample_spender 0) [] stopped_chain 1)
     = [(error.duplicate, [])]
  /\ error.duplicate <> error.service_stopped.
Proof.
  split; [reflexivity |]. split; [reflexivity |]. split; [reflexivity |].
  discriminate.
Defined.

(** C2 as the code has it, on the stopping chain. *)
Lemma duplicate_check_reports_duplicate_witness :
  @basic_checks reference_platform (sample_spender 0) [] = error.success
  /\ fst (reply_fetch_transaction stopped_chain 0
            (@hash_transaction reference_platform (sample_spender 0)))
     <> error.not_found
  /\ handled (@run reference_platform (sample_spender 0) [] stopped_chain 3)
     = [(error.duplicate, [])]
  /\ awaiting (@run reference_platform (sample_spender 0) [] stopped_chain 3) = Idle.
Proof.
  split; [reflexivity |]. split; [discriminate |].
  apply (@duplicate_check_reports_duplicate reference_platform (sample_spender 0) []
           stopped_chain).
  - reflexivity.
  - discriminate.
  - repeat constructor.
Defined.

(** C3 as the specification has it does not hold at the zero hash and the
    compact form 0: the value of the hash is at most the target and the
    target is at most [max_target], but [check_proof_of_work] returns
    false. *)
Lemma check_proof_of_work_zero_counterexample :
  @check_proof_of_work reference_platform null_hash 0 = false
  /\ @set_hash reference_platform null_hash <= @set_compact reference_platform 0
  /\ @set_compact reference_platform 0 <= @max_target reference_platform.
Proof.
  split; [reflexivity |]. split; vm_compute; discriminate.
Defined.

(** C5 on [sample_spender 0]. *)
Lemma check_transaction_ok_bounds_witness :
  @check_transaction reference_platform (sample_spender 0) = error.success
  /\ (1 <= length (inputs (sample_spender 0)))%nat
  /\ (1 <= length (outputs (sample_spender 0)))%nat
  /\ Forall (fun output => value output <= max_money) (outputs (sample_spender 0))
  /\ sum_output_values (sample_spender 0) <= max_money.
Proof.
  split; [reflexivity |].
  apply (@check_transaction_ok_bounds reference_platform (sample_spender 0)).
  reflexivity.
Defined.

(** C6 on a block at depth 200 whose coinbase pays the subsidy of fifty
    coins and the fee of one coin. *)
Lemma coinbase_value_bounded_witness :
  @check_block reference_platform 1400000000 (sample_block 5100000000 0)
  = error.success
  /\ @connect_block reference_platform sample_view 200 (sample_block 5100000000 0)
     = Returns error.success
  /\ sum_output_values (sample_block_coinbase 5100000000)
     <= block_value 200 + accumulated_fees sample_view [sample_spender 0].
Proof.
  split; [reflexivity |]. split; [reflexivity |].
  apply (proj1 (@coinbase_value_bounded reference_platform 1400000000 sample_view 200
                  (sample_block 5100000000 0) (sample_block_coinbase 5100000000)
                  [sample_spender 0]
                  ltac:(discriminate) sample_view_well_typed sample_block_well_typed
                  eq_refl eq_refl)).
  reflexivity.
Defined.

Lemma sample_run_reachable :
  @reachable reference_platform (sample_spender 0) [] 5
    (@run reference_platform (sample_spender 0) [] confirming_chain 5).
Proof.
  repeat (cbn [run]; apply reachable_reply; [| vm_compute; discriminate]).
  apply reachable_start.
Qed.

(** C8 on a run that ends with success after five replies. *)
Lemma handler_called_exactly_once_witness :
  handled (@run reference_platform (sample_spender 0) [] confirming_chain 5)
  = [(error.success, [])]
  /\ (length (handled (@run reference_platform (sample_spender 0) []
                         confirming_chain 5)) <= 1)%nat
  /\ awaiting (@run reference_platform (sample_spender 0) [] confirming_chain 5)
     <> Faulted.
Proof.
  split; [reflexivity |].
  pose proof (@handler_called_exactly_once reference_platform (sample_spender 0) []
                5 _ sample_spender_well_typed sample_run_reachable)
    as [Hmost [Hsound _]].
  split; assumption.
Defined.

(** C9 on the spender of output 1 of [sample_coinbase], which has one
    output. *)
Lemma connect_input_bounds_asymmetry_witness :
  @validate_block_connect_input reference_platform sample_view 200
    (sample_block 5000000000 1) 1 (sample_spender 1) 0 0 0 = Out_of_range
  /\ @validate_transaction_connect_input reference_platform (sample_spender 1) 0
       sample_coinbase 1 200 0 = Returns (false, 0).
Proof.
  apply (@connect_input_bounds_asymmetry reference_platform sample_view 200
           (sample_block 5000000000 1) 1 (sample_spender 1) 0 0 0
           {| previous_output := {| hash := toy_hash 1; index := 1 |};
              input_script := empty_script;
              sequence := 4294967295 |}
           sample_coinbase 1 1 200).
  - reflexivity.
  - reflexivity.
  - vm_compute. discriminate.
Defined.

(** C10 as the specification has it does not hold: [parent_depth] is above
    [last_block_depth], yet the difference wraps to 1, below the maturity,
    and [connect_input] returns false. *)
Lemma coinbase_maturity_wrap_counterexample :
  @is_size_t reference_platform 0
  /\ @is_size_t reference_platform (2 ^ 64 - 1)
  /\ 0 < 2 ^ 64 - 1
  /\ is_coinbase sample_coinbase = true
  /\ @depth_difference reference_platform 0 (2 ^ 64 - 1) = 1
  /\ 1 < coinbase_maturity
  /\ @validate_transaction_connect_input reference_platform (sample_spender 0) 0
       sample_coinbase (2 ^ 64 - 1) 0 0 = Returns (false, 0).
Proof.
  repeat split; vm_compute; congruence.
Defined.

(** C10 as the code has it, on a parent 100 blocks above the last block. *)
Lemma coinbase_maturity_wraps_witness :
  32 <= @size_t_bits reference_platform
  /\ @is_size_t reference_platform 100
  /\ @is_size_t reference_platform 200
  /\ @depth_difference reference_platform 100 200 = 2 ^ 64 - (200 - 100)
  /\ coinbase_maturity <= @depth_difference reference_platform 100 200.
Proof.
  assert (Hwidth : 32 <= @size_t_bits reference_platform)
    by (vm_compute; discriminate).
  assert (Hlast : @is_size_t reference_platform 100)
    by (split; vm_compute; congruence).
  assert (Hparent : @is_size_t reference_platform 200)
    by (split; vm_compute; congruence).
  split; [exact Hwidth |]. split; [exact Hlast |]. split; [exact Hparent |].
  apply (proj1 (@coinbase_maturity_wraps reference_platform 100 200
                  Hwidth Hlast Hparent)).
  - vm_compute. reflexivity.
  - vm_compute. discriminate.
Defined.

(** ** Scenarios of the specification *)

Example retarget_clamped_low :
  @work_required reference_platform sample_view 2016
  = target_to_compact (compact_to_target 486604799 / 4).
Proof. reflexivity. Qed.

Example coinbase_too_large_at_210000 :
  block_value 210000 = 2500000000
  /\ @connect_block reference_platform sample_view 210000
       (sample_block_alone 2600000000) = Returns error.coinbase_too_large.
Proof. split; reflexivity. Qed.

Example bip30_exception_honoured :
  @connect_block reference_platform duplicating_view 200 (sample_block 5100000000 0)
  = Returns error.duplicate_or_spent
  /\ @connect_block reference_platform duplicating_view 91842
       (sample_block 5100000000 0) = Returns error.success.
Proof. split; reflexivity. Qed.

Example connect_block_out_of_range :
  @connect_block reference_platform sample_view 200 (sample_block 5000000000 1)
  = Out_of_range.
Proof. reflexivity. Qed.

Example coinbase_rejected_by_pool_validator :
  handled (@start reference_platform sample_coinbase [])
  = [(error.coinbase_transaction, [])].
Proof. reflexivity. Qed.

Example empty_transaction_rejected :
  @check_transaction reference_platform
    {| version := 1; locktime := 0; inputs := []; outputs := [] |}
  = error.empty_transaction.
Proof. reflexivity. Qed.

Example block_accepted :
  @validate_block_start reference_platform 1400000000 sample_view 200
    (sample_block 5100000000 0) = Returns error.success.
Proof. reflexivity. Qed.

Example checkpoint_mismatch :
  @accept_block reference_platform sample_view 11111 (sample_block 5100000000 0)
  = error.checkpoints_failed.
Proof. reflexivity. Qed.

(** [count_script_sigops] assigns the byte of the opcode to [last_number]:
    where [op_1 .. op_16] stand at 81 .. 96, a checkmultisig after [op_2]
    (the byte 82) counts for 82. *)
Example count_script_sigops_adds_opcode_byte :
  @count_script_sigops offset_platform
    [ {| code := 82; data := [] |}; {| code := 174; data := [] |} ] true = 82.
Proof. reflexivity. Qed.

(** * Further properties *)

(** ** The inventory buffer *)

Section Pumpkin_buffer_properties.

Context {Item : Type}.
Variable Item_eq_dec : forall a b : Item, {a = b} + {a <> b}.

Lemma skipn_S_tl (k : nat) (l : list Item) : skipn (S k) l = tl (skipn k l).
Proof.
  revert l. induction k as [| k IH]; intros l.
  - destruct l; reflexivity.
  - destruct l as [| a l]; [reflexivity |]. cbn [skipn]. rewrite <- IH. reflexivity.
Qed.

Lemma NoDup_skipn (k : nat) (l : list Item) : NoDup l -> NoDup (skipn k l).
Proof.
  revert l. induction k as [| k IH]; intros l Hl; [exact Hl |].
  destruct l as [| a l]; [exact Hl |]. cbn [skipn]. apply IH.
  inversion Hl. assumption.
Qed.

Lemma NoDup_without_last (l : list Item) (a : Item) : NoDup (l ++ [a]) -> NoDup l.
Proof.
  intros Hnodup. apply NoDup_remove_1 in Hnodup. rewrite app_nil_r in Hnodup.
  exact Hnodup.
Qed.

Lemma firstn_prefix (A C : list Item) : firstn (length A) (A ++ C) = A.
Proof. induction A as [| a A IH]; cbn; [destruct C | rewrite IH]; reflexivity. Qed.

Lemma skipn_prefix (A C : list Item) : skipn (length A) (A ++ C) = C.
Proof. induction A as [| a A IH]; cbn; [reflexivity | exact IH]. Qed.

Lemma firstn_prefix_next (A C : list Item) (x : Item) :
  firstn (S (length A)) (A ++ x :: C) = A ++ [x].
Proof.
  induction A as [| a A IH]; [destruct C; reflexivity |].
  cbn [length app]. cbn [firstn]. f_equal. exact IH.
Qed.

Lemma skipn_prefix_next (A C : list Item) (x : Item) :
  skipn (S (length A)) (A ++ x :: C) = C.
Proof. induction A as [| a A IH]; [reflexivity | exact IH]. Qed.

Lemma last_items_short (n : nat) (items : list Item) :
  (length items <= n)%nat -> last_items n items = items.
Proof.
  intros Hshort. unfold last_items.
  replace (length items - n)%nat with 0%nat by lia. reflexivity.
Qed.

Lemma last_items_snoc (n : nat) (items : list Item) (item : Item) :
  (1 <= n)%nat -> (n <= length items)%nat ->
  last_items n (items ++ [item]) = tl (last_items n items) ++ [item].
Proof.
  intros Hn Hlong. unfold last_items. rewrite length_app. cbn [length].
  replace (length items + 1 - n)%nat with (S (length items - n)) by lia.
  rewrite skipn_app.
  replace (S (length items - n) - length items)%nat with 0%nat by lia.
  rewrite skipn_S_tl. reflexivity.
Qed.

Lemma new_pumpkin_buffer_holds (n : nat) :
  holds_last n [] (@new_pumpkin_buffer Item (Z.of_nat n)).
Proof.
  unfold holds_last, new_pumpkin_buffer, from_pointer, last_items. cbn.
  repeat split; try lia; try reflexivity; try constructor;
    intros; cbn in *; contradiction.
Qed.

Lemma store_holds_last (n : nat) (items : list Item) (b : pumpkin_buffer Item)
    (item : Item) :
  (0 < n)%nat ->
  holds_last n items b ->
  exists b', store Item_eq_dec b item = Returns b'
             /\ holds_last n (items ++ [item]) b'.
Proof.
  intros Hn (Hmax & Hlen & Hpos & Hptr & Hfill & Hview & Hset & Hsub & Hsup).
  unfold store. rewrite Hmax.
  destruct (Z.of_nat (length (expiry_ b)) <? Z.of_nat n) eqn:Hroom.
  - (* the buffer fills up *)
    apply Z.ltb_lt in Hroom. assert (Hlt : (length (expiry_ b) < n)%nat) by lia.
    specialize (Hfill Hlt).
    assert (Hitems : expiry_ b = items).
    { unfold from_pointer in Hview. rewrite Hfill in Hview. cbn in Hview.
      rewrite app_nil_r in Hview. rewrite Hview. apply last_items_short. lia. }
    eexists. split; [reflexivity |].
    unfold holds_last, from_pointer. cbn [lookup_ expiry_ max_size_ pointer_].
    rewrite Hfill. cbn [Z.to_nat skipn firstn]. rewrite app_nil_r, !length_app.
    cbn [length]. repeat split; try lia.
    + rewrite Hitems. symmetry. apply last_items_short. rewrite length_app.
      cbn [length]. rewrite <- Hitems. lia.
    + apply set_add_nodup. exact Hset.
    + intros x Hin. apply set_add_elim in Hin. apply in_or_app.
      destruct Hin as [-> | Hin]; [right; left; reflexivity | left; auto].
    + intros Hnodup x Hin. apply in_app_or in Hin.
      destruct Hin as [Hin | [<- | []]].
      * apply set_add_intro1. apply Hsup; [| exact Hin].
        exact (NoDup_without_last _ _ Hnodup).
      * apply set_add_intro2. reflexivity.
  - (* the oldest entry is overwritten *)
    apply Z.ltb_ge in Hroom.
    assert (Hfull : length (expiry_ b) = n) by lia.
    assert (Hlong : (n <= length items)%nat) by lia.
    rewrite Hfull in Hptr. replace (Nat.max 1 n) with n in Hptr by lia.
    destruct (at_index_defined (expiry_ b) (pointer_ b)) as [e He]; [lia |].
    rewrite He. cbn [bind]. cbv zeta.
    apply at_index_nth_error in He.
    destruct (nth_error_split _ _ He) as (A & B & Hsplit & HA).
    assert (Hassign : assign_at (Z.to_nat (pointer_ b)) item (expiry_ b)
                      = A ++ item :: B).
    { unfold assign_at. rewrite Hsplit, <- HA.
      rewrite firstn_prefix, skipn_prefix_next. reflexivity. }
    rewrite Hassign.
    assert (Hsize : (length A + S (length B))%nat = n).
    { rewrite <- Hfull, Hsplit, length_app. reflexivity. }
    assert (Hold : from_pointer b = (e :: B) ++ A).
    { unfold from_pointer. rewrite Hsplit, <- HA.
      rewrite firstn_prefix, skipn_prefix. reflexivity. }
    rewrite Hold in Hview.
    assert (Hlength : length (A ++ item :: B) = n).
    { rewrite length_app. cbn [length]. exact Hsize. }
    eexists. split; [reflexivity |].
    unfold holds_last, from_pointer. cbn [lookup_ expiry_ max_size_ pointer_].
    rewrite Hlength.
    assert (Hnew : skipn (Z.to_nat (if pointer_ b + 1 =? Z.of_nat n then 0
                                    else pointer_ b + 1)) (A ++ item :: B)
                   ++ firstn (Z.to_nat (if pointer_ b + 1 =? Z.of_nat n then 0
                                        else pointer_ b + 1)) (A ++ item :: B)
                   = (B ++ A) ++ [item]).
    { destruct (pointer_ b + 1 =? Z.of_nat n) eqn:Hwrap.
      - apply Z.eqb_eq in Hwrap.
        assert (HB : B = []).
        { destruct B as [| b0 B]; [reflexivity |]. cbn [length] in Hsize. lia. }
        subst B. cbn [Z.to_nat skipn firstn app]. rewrite app_nil_r. reflexivity.
      - replace (Z.to_nat (pointer_ b + 1)) with (S (length A)) by lia.
        rewrite firstn_prefix_next, skipn_prefix_next, app_assoc. reflexivity. }
    rewrite Hnew.
    repeat split.
    + rewrite length_app. cbn [length]. lia.
    + destruct (pointer_ b + 1 =? Z.of_nat n); lia.
    + destruct (pointer_ b + 1 =? Z.of_nat n) eqn:Hwrap; [lia |].
      apply Z.eqb_neq in Hwrap. lia.
    + intros Habsurd. lia.
    + rewrite last_items_snoc by lia. rewrite <- Hview. reflexivity.
    + apply set_add_nodup. apply set_remove_nodup. exact Hset.
    + intros x Hin. apply set_add_elim in Hin.
      destruct Hin as [-> | Hin].
      * apply in_or_app. right. left. reflexivity.
      * pose proof (set_remove_2 _ Hset Hin) as Hne.
        apply set_remove_1 in Hin. apply Hsub in Hin. rewrite Hsplit in Hin.
        apply in_app_or in Hin. apply in_or_app.
        destruct Hin as [Hin | [Heq | Hin]];
          [left; exact Hin | exfalso; apply Hne; symmetry; exact Heq
          | right; right; exact Hin].
    + intros Hnodup x Hin.
      assert (Hitems : NoDup items) by exact (NoDup_without_last _ _ Hnodup).
      assert (Hwindow : NoDup ((e :: B) ++ A)).
      { rewrite Hview. unfold last_items. apply NoDup_skipn. exact Hitems. }
      cbn [app] in Hwindow. inversion Hwindow as [| ? ? Hfresh _]; subst.
      apply in_app_or in Hin. destruct Hin as [Hin | [<- | Hin]].
      * apply set_add_intro1. apply set_remove_3.
        -- apply Hsup; [exact Hitems |]. rewrite Hsplit. apply in_or_app. left.
           exact Hin.
        -- intros ->. apply Hfresh. apply in_or_app. right. exact Hin.
      * apply set_add_intro2. reflexivity.
      * apply set_add_intro1. apply set_remove_3.
        -- apply Hsup; [exact Hitems |]. rewrite Hsplit. apply in_or_app. right.
           right. exact Hin.
        -- intros ->. apply Hfresh. apply in_or_app. left. exact Hin.
Qed.

Lemma store_all_snoc (b : pumpkin_buffer Item) (items : list Item) (item : Item) :
  store_all Item_eq_dec b (items ++ [item])
  = bind (store_all Item_eq_dec b items) (fun b' => store Item_eq_dec b' item).
Proof. unfold store_all. rewrite fold_left_app. reflexivity. Qed.

Lemma store_all_holds_last (n : nat) (items : list Item) :
  (0 < n)%nat ->
  exists b, store_all Item_eq_dec (new_pumpkin_buffer (Z.of_nat n)) items = Returns b
            /\ holds_last n items b.
Proof.
  intros Hn. induction items as [| item items IH] using rev_ind.
  - eexists. split; [reflexivity | apply new_pumpkin_buffer_holds].
  - destruct IH as (b & Hrun & Hholds).
    destruct (store_holds_last n items b item Hn Hholds) as (b' & Hstore & Hholds').
    exists b'. split; [| exact Hholds'].
    rewrite store_all_snoc, Hrun. exact Hstore.
Qed.

Lemma store_then_exists (b b' : pumpkin_buffer Item) (item : Item) :
  store Item_eq_dec b item = Returns b' -> exists_ Item_eq_dec b' item = true.
Proof.
  unfold store, exists_.
  destruct (Z.of_nat (length (expiry_ b)) <? max_size_ b).
  - intros [= <-]. cbn [lookup_]. apply set_mem_correct2. apply set_add_intro2.
    reflexivity.
  - destruct (at_index (expiry_ b) (pointer_ b)); cbn [bind]; [| discriminate].
    intros [= <-]. cbn [lookup_]. apply set_mem_correct2. apply set_add_intro2.
    reflexivity.
Qed.

Lemma in_from_pointer (b : pumpkin_buffer Item) (item : Item) :
  In item (from_pointer b) <-> In item (expiry_ b).
Proof.
  unfold from_pointer.
  rewrite <- (firstn_skipn (Z.to_nat (pointer_ b)) (expiry_ b)) at 3.
  rewrite !in_app_iff. tauto.
Qed.

Lemma store_all_out_of_range (items : list Item) :
  fold_left (fun stored item => b <- stored ;; store Item_eq_dec b item) items
    Out_of_range = Out_of_range.
Proof. induction items as [| item items IH]; [reflexivity | exact IH]. Qed.

(** X1.  A buffer of capacity [n + 1] takes every sequence of items without
    indexing out of range; afterwards it holds as many items as were stored,
    up to its capacity, and read from the pointer they are the last
    [n + 1] items stored, oldest first. *)
Theorem pumpkin_buffer_keeps_last (n : nat) (items : list Item) :
  exists b,
    store_all Item_eq_dec (new_pumpkin_buffer (Z.of_nat (S n))) items = Returns b
    /\ length (expiry_ b) = Nat.min (length items) (S n)
    /\ from_pointer b = last_items (S n) items.
Proof.
  destruct (store_all_holds_last (S n) items (Nat.lt_0_succ n))
    as (b & Hrun & Hholds).
  exists b. split; [exact Hrun |].
  destruct Hholds as (_ & Hlen & _ & _ & _ & Hview & _). split; assumption.
Qed.

(** X2.  After any sequence of items, [exists] answers true for the item
    stored last; it answers true only for items among the last [n + 1]
    stored; and when no item was stored twice it answers true for exactly
    those. *)
Theorem pumpkin_buffer_exists (n : nat) (items : list Item) :
  exists b,
    store_all Item_eq_dec (new_pumpkin_buffer (Z.of_nat (S n))) items = Returns b
    /\ (forall older item, items = older ++ [item] ->
          exists_ Item_eq_dec b item = true)
    /\ (forall item, exists_ Item_eq_dec b item = true ->
          In item (last_items (S n) items))
    /\ (NoDup items ->
        forall item, exists_ Item_eq_dec b item = true
                     <-> In item (last_items (S n) items)).
Proof.
  destruct (store_all_holds_last (S n) items (Nat.lt_0_succ n))
    as (b & Hrun & Hholds).
  exists b. split; [exact Hrun |].
  destruct Hholds as (_ & _ & _ & _ & _ & Hview & _ & Hsub & Hsup).
  repeat split.
  - intros older item ->. rewrite store_all_snoc in Hrun.
    destruct (store_all Item_eq_dec (new_pumpkin_buffer (Z.of_nat (S n))) older)
      as [b0 |]; cbn [bind] in Hrun; [| discriminate].
    exact (store_then_exists b0 b item Hrun).
  - intros item Hexists. unfold exists_ in Hexists.
    apply set_mem_correct1 in Hexists. rewrite <- Hview.
    apply in_from_pointer. apply Hsub. exact Hexists.
  - intros Hexists. unfold exists_ in Hexists.
    apply set_mem_correct1 in Hexists. rewrite <- Hview.
    apply in_from_pointer. apply Hsub. exact Hexists.
  - intros Hin. unfold exists_. apply set_mem_correct2. apply Hsup; [assumption |].
    apply in_from_pointer. rewrite Hview. exact Hin.
Qed.

(** X3.  Once the buffer is full, the item that falls out of the last
    [n + 1] is reported absent after the next [store] of a different item,
    also when the same item was stored again since and is still in the
    buffer. *)
Theorem pumpkin_buffer_forgets_repeated (n : nat) (items : list Item)
    (oldest item : Item) (newer : list Item) :
  (S n <= length items)%nat ->
  last_items (S n) items = oldest :: newer ->
  item <> oldest ->
  exists b,
    store_all Item_eq_dec (new_pumpkin_buffer (Z.of_nat (S n))) (items ++ [item])
    = Returns b
    /\ exists_ Item_eq_dec b oldest = false
    /\ from_pointer b = newer ++ [item].
Proof.
  intros Hlong Hlast Hother.
  destruct (store_all_holds_last (S n) items (Nat.lt_0_succ n))
    as (b0 & Hrun0 & Hholds0).
  destruct (store_holds_last (S n) items b0 item (Nat.lt_0_succ n) Hholds0)
    as (b & Hstore & Hholds).
  exists b. split; [rewrite store_all_snoc, Hrun0; exact Hstore |].
  split.
  - destruct Hholds0 as (Hmax & Hlen & Hpos & Hptr & _ & Hview & Hset & _).
    assert (Hfull : length (expiry_ b0) = S n) by lia.
    rewrite Hfull in Hptr. replace (Nat.max 1 (S n)) with (S n) in Hptr by lia.
    unfold store in Hstore. rewrite Hmax, Hfull in Hstore.
    assert (Hroom : (Z.of_nat (S n) <? Z.of_nat (S n)) = false)
      by (apply Z.ltb_irrefl).
    rewrite Hroom in Hstore.
    destruct (at_index_defined (expiry_ b0) (pointer_ b0)) as [e He]; [lia |].
    rewrite He in Hstore. cbn [bind] in Hstore. cbv zeta in Hstore.
    apply at_index_nth_error in He.
    destruct (nth_error_split _ _ He) as (A & B & Hsplit & HA).
    assert (Hhead : e = oldest).
    { unfold from_pointer in Hview. rewrite Hsplit, <- HA in Hview.
      rewrite firstn_prefix, skipn_prefix, Hlast in Hview.
      cbn [app] in Hview. injection Hview as Hhead _. exact Hhead. }
    subst e. injection Hstore as <-. unfold exists_. cbn [lookup_].
    destruct (set_mem Item_eq_dec oldest
                (set_add Item_eq_dec item
                   (set_remove Item_eq_dec oldest (lookup_ b0)))) eqn:Hmem;
      [| reflexivity].
    apply set_mem_correct1 in Hmem. apply set_add_elim in Hmem.
    destruct Hmem as [Heq | Hmem].
    + exfalso. apply Hother. symmetry. exact Heq.
    + exfalso. exact (set_remove_2 _ Hset Hmem eq_refl).
  - destruct Hholds as (_ & _ & _ & _ & _ & Hview & _).
    rewrite Hview, last_items_snoc by lia. rewrite Hlast. reflexivity.
Qed.

(** X4.  As long as no item was stored twice, the assertions of the next
    [store] hold, whatever item it stores. *)
Theorem pumpkin_buffer_assertions (n : nat) (items : list Item) :
  NoDup items ->
  exists b,
    store_all Item_eq_dec (new_pumpkin_buffer (Z.of_nat (S n))) items = Returns b
    /\ store_asserts Item_eq_dec b = true.
Proof.
  intros Hnodup.
  destruct (store_all_holds_last (S n) items (Nat.lt_0_succ n))
    as (b & Hrun & Hholds).
  exists b. split; [exact Hrun |].
  destruct Hholds as (Hmax & Hlen & Hpos & Hptr & _ & _ & _ & _ & Hsup).
  unfold store_asserts. rewrite Hmax.
  destruct (Z.of_nat (length (expiry_ b)) <? Z.of_nat (S n)) eqn:Hroom;
    [reflexivity |].
  apply Z.ltb_ge in Hroom.
  assert (Hfull : length (expiry_ b) = S n) by lia.
  rewrite Hfull in Hptr. replace (Nat.max 1 (S n)) with (S n) in Hptr by lia.
  destruct (at_index_defined (expiry_ b) (pointer_ b)) as [e He]; [lia |].
  rewrite He, Hfull.
  apply at_index_nth_error in He. apply nth_error_In in He.
  rewrite (set_mem_correct2 Item_eq_dec _ _ (Hsup Hnodup e He)).
  assert (Hsame : (Z.of_nat (S n) =? Z.of_nat (S n)) = true) by apply Z.eqb_refl.
  assert (Hbelow : (pointer_ b <? Z.of_nat (S n)) = true) by (apply Z.ltb_lt; lia).
  rewrite Hsame, Hbelow. reflexivity.
Qed.

(** X5.  The stores index the vector out of range (the first of them does)
    exactly when the capacity is 0 and there is an item to store. *)
Theorem pumpkin_buffer_out_of_range (max_size : Z) (items : list Item) :
  store_all Item_eq_dec (new_pumpkin_buffer max_size) items = Out_of_range
  <-> max_size <= 0 /\ items <> [].
Proof.
  split.
  - intros Hrun. destruct (Z_le_gt_dec max_size 0) as [Hnone | Hsome].
    + split; [exact Hnone |]. intros ->. discriminate.
    + exfalso.
      destruct (store_all_holds_last (Z.to_nat max_size) items ltac:(lia))
        as (b & Hstored & _).
      rewrite Z2Nat.id in Hstored by lia. rewrite Hstored in Hrun. discriminate.
  - intros [Hnone Hitems]. destruct items as [| item items]; [contradiction |].
    unfold store_all. cbn [fold_left bind]. unfold store.
    cbn [new_pumpkin_buffer expiry_ max_size_ pointer_ length].
    assert (Hroom : (Z.of_nat 0 <? max_size) = false) by (apply Z.ltb_ge; lia).
    rewrite Hroom.
    change (at_index (@nil Item) 0) with (@Out_of_range Item). cbn [bind].
    apply store_all_out_of_range.
Qed.

End Pumpkin_buffer_properties.

(** ** The validators *)

Section Further_properties.

Context {X : externals}.

(** *** [check_transaction] *)

Lemma sum_values_nonneg (outs : list transaction_output) :
  Forall (fun output => 0 <= value output < 2 ^ 64) outs ->
  0 <= fold_right (fun output sum => value output + sum) 0 outs.
Proof. intros Htyped. induction Htyped; simpl; lia. Qed.

Lemma output_values_in_range_complete (outs : list transaction_output) :
  forall total,
    0 <= total ->
    Forall (fun output => 0 <= value output < 2 ^ 64) outs ->
    total + fold_right (fun output sum => value output + sum) 0 outs <= max_money ->
    output_values_in_range outs total = true.
Proof.
  induction outs as [| output rest IH]; intros total Hpos Htyped Hsum;
    [reflexivity |].
  inversion Htyped as [| ? ? Hvalue Hrest]; subst.
  pose proof (sum_values_nonneg rest Hrest) as Hnonneg.
  cbn [fold_right] in Hsum. cbn [output_values_in_range].
  rewrite max_money_value in *.
  assert (Hfirst : (value output >? 2100000000000000) = false).
  { rewrite Z.gtb_ltb. apply Z.ltb_ge. lia. }
  rewrite Hfirst. rewrite uint64_small by (rewrite two_pow_64; lia).
  assert (Hsecond : (total + value output >? 2100000000000000) = false).
  { rewrite Z.gtb_ltb. apply Z.ltb_ge. lia. }
  rewrite Hsecond. apply IH; [lia | assumption | lia].
Qed.

(** X6.  For output values that [uint64_t] holds, [check_transaction]
    returns no error exactly when the transaction has an input and an
    output, the sum of its output values is at most [max_money], and either
    it is a coinbase whose script takes 2 to 100 bytes or it is no coinbase
    and none of its inputs has a null previous output. *)
Theorem check_transaction_accepts (tx : transaction) :
  uint64_values tx ->
  (check_transaction tx = error.success <->
   inputs tx <> []
   /\ outputs tx <> []
   /\ sum_output_values tx <= max_money
   /\ (if is_coinbase tx
       then forall input0 rest,
              inputs tx = input0 :: rest ->
              2 <= save_script_size (input_script input0) <= 100
       else Forall (fun input => previous_output_is_null (previous_output input) = false)
                   (inputs tx))).
Proof.
  intros Htyped. split.
  - intros Hok.
    pose proof (check_transaction_success tx Hok) as (Hin & Hout & _ & Hsum).
    split; [intros Hnil; rewrite Hnil in Hin; cbn in Hin; lia |].
    split; [intros Hnil; rewrite Hnil in Hout; cbn in Hout; lia |].
    split; [exact Hsum |].
    unfold check_transaction in Hok.
    destruct (inputs tx) as [| input0 ins] eqn:Hins; [discriminate |].
    destruct (outputs tx) as [| output0 outs]; [discriminate |].
    destruct (negb (output_values_in_range (output0 :: outs) 0)); [discriminate |].
    destruct (is_coinbase tx).
    + intros input1 rest [= <- <-].
      destruct (save_script_size (input_script input0) <? 2) eqn:Hlow;
        [discriminate |].
      destruct (save_script_size (input_script input0) >? 100) eqn:Hhigh;
        [discriminate |].
      apply Z.ltb_ge in Hlow. rewrite Z.gtb_ltb in Hhigh. apply Z.ltb_ge in Hhigh.
      lia.
    + destruct (existsb (fun input => previous_output_is_null (previous_output input))
                  (input0 :: ins)) eqn:Hnull; [discriminate |].
      apply Forall_forall. intros input Hmember.
      destruct (previous_output_is_null (previous_output input)) eqn:Hthis;
        [| reflexivity].
      assert (Hexists : existsb (fun input => previous_output_is_null
                                                (previous_output input))
                          (input0 :: ins) = true).
      { apply existsb_exists. exists input. split; assumption. }
      rewrite Hexists in Hnull. discriminate.
  - intros (Hin & Hout & Hsum & Hkind). unfold check_transaction.
    destruct (inputs tx) as [| input0 ins] eqn:Hins; [contradiction |].
    destruct (outputs tx) as [| output0 outs] eqn:Houts; [contradiction |].
    unfold uint64_values in Htyped. unfold sum_output_values in Hsum.
    rewrite Houts in Htyped, Hsum.
    rewrite (output_values_in_range_complete (output0 :: outs) 0)
      by (try lia; assumption).
    cbn [negb]. destruct (is_coinbase tx).
    + specialize (Hkind input0 ins eq_refl).
      assert (Hlow : (save_script_size (input_script input0) <? 2) = false)
        by (apply Z.ltb_ge; lia).
      assert (Hhigh : (save_script_size (input_script input0) >? 100) = false)
        by (rewrite Z.gtb_ltb; apply Z.ltb_ge; lia).
      rewrite Hlow, Hhigh. reflexivity.
    + destruct (existsb (fun input => previous_output_is_null (previous_output input))
                  (input0 :: ins)) eqn:Hnull; [| reflexivity].
      apply existsb_exists in Hnull. destruct Hnull as (input & Hmember & Hthis).
      rewrite Forall_forall in Hkind. rewrite (Hkind input Hmember) in Hthis.
      discriminate.
Qed.

(** *** Counting signature operations *)

Lemma size_t_add_r (a b : Z) : size_t (a + size_t b) = size_t (a + b).
Proof. unfold size_t, wrap. apply Zplus_mod_idemp_r. Qed.

Lemma size_t_zero : size_t 0 = 0.
Proof. unfold size_t, wrap. apply Zmod_0_l. Qed.

Lemma count_script_sigops_fold_by_byte (accurate : bool) (ops : list operation) :
  forall seen total,
    size_t total = total ->
    fst (fold_left (count_script_sigops_step accurate) ops
           (total, last_opcode_byte seen))
    = size_t (total + sigops_sum_by_byte accurate seen ops).
Proof.
  induction ops as [| op rest IH]; intros seen total Htotal;
    cbn [fold_left sigops_sum_by_byte fst].
  - rewrite Z.add_0_r. symmetry. exact Htotal.
  - assert (Hstep : count_script_sigops_step accurate (total, last_opcode_byte seen) op
                    = (size_t (total + sigops_added_by_byte accurate seen op),
                       last_opcode_byte (op :: seen))).
    { unfold count_script_sigops_step, sigops_added_by_byte. cbv zeta.
      cbn [last_opcode_byte]. unfold is_number_opcode. rewrite Z.geb_leb.
      f_equal.
      destruct ((code op =? checksig) || (code op =? checksigverify));
        [reflexivity |].
      destruct ((code op =? checkmultisig) || (code op =? checkmultisigverify)).
      - destruct (accurate && negb (last_opcode_byte seen =? 0)); reflexivity.
      - rewrite Z.add_0_r. symmetry. exact Htotal. }
    rewrite Hstep, IH by apply size_t_idempotent.
    rewrite size_t_add_l. f_equal. lia.
Qed.

Lemma sigops_sum_inaccurate (ops : list operation) :
  forall seen, sigops_sum_by_byte false seen ops = legacy_weight ops.
Proof.
  induction ops as [| op rest IH]; intros seen; [reflexivity |].
  cbn [sigops_sum_by_byte legacy_weight fold_right]. rewrite IH.
  unfold sigops_added_by_byte, legacy_weight. cbn [andb]. reflexivity.
Qed.

Lemma count_script_sigops_total (ops : operation_stack) (accurate : bool) :
  count_script_sigops ops accurate = size_t (sigops_sum_by_byte accurate [] ops).
Proof.
  exact (count_script_sigops_fold_by_byte accurate ops [] 0 size_t_zero).
Qed.

(** X7.  Whatever the bytes of the opcodes: [count_script_sigops] returns,
    in [size_t], the sum over the operations of 1 for a checksig or
    checksigverify and, for a checkmultisig or checkmultisigverify, the byte
    of the most recent opcode between [op_1] and [op_16] when [accurate] is
    set and that byte is not 0, and 20 otherwise; without [accurate] this is
    the legacy weight of the script. *)
Theorem count_script_sigops_by_byte (ops : operation_stack) (accurate : bool) :
  count_script_sigops ops accurate = size_t (sigops_sum_by_byte accurate [] ops)
  /\ count_script_sigops ops false = size_t (legacy_weight ops).
Proof.
  split.
  - apply count_script_sigops_total.
  - rewrite count_script_sigops_total, sigops_sum_inaccurate. reflexivity.
Qed.





Lemma fold_size_t {A : Type} (counted exact : A -> Z) (l : list A) :
  (forall a, counted a = size_t (exact a)) ->
  forall total,
    size_t total = total ->
    fold_left (fun total a => size_t (total + counted a)) l total
    = size_t (total + fold_right (fun a sum => exact a + sum) 0 l).
Proof.
  intros Hcounted. induction l as [| a l IH]; intros total Htotal;
    cbn [fold_left fold_right].
  - rewrite Z.add_0_r. symmetry. exact Htotal.
  - rewrite IH by apply size_t_idempotent.
    rewrite Hcounted, size_t_add_r, size_t_add_l. f_equal. lia.
Qed.

Lemma count_script_sigops_legacy (ops : operation_stack) :
  count_script_sigops ops false = size_t (legacy_weight ops).
Proof.
  rewrite count_script_sigops_total, sigops_sum_inaccurate. reflexivity.
Qed.

Lemma tx_legacy_sigops_count_weight (tx : transaction) :
  tx_legacy_sigops_count tx = size_t (tx_legacy_weight tx).
Proof.
  unfold tx_legacy_sigops_count, tx_legacy_weight. cbv zeta.
  rewrite (fold_size_t
             (fun input => count_script_sigops (operations (input_script input)) false)
             (fun input => legacy_weight (operations (input_script input))))
    by (try (intros; apply count_script_sigops_legacy); apply size_t_zero).
  rewrite (fold_size_t
             (fun output => count_script_sigops (operations (output_script output)) false)
             (fun output => legacy_weight (operations (output_script output))))
    by (try (intros; apply count_script_sigops_legacy); apply size_t_idempotent).
  rewrite size_t_add_l. reflexivity.
Qed.

(** X8.  The legacy count of a block is, in [size_t], the sum over all its
    transactions, inputs and outputs of the legacy weights of the scripts:
    the reductions after each addition amount to one reduction of the
    sum. *)
Theorem legacy_sigops_count_weight (current_block_ : block) :
  legacy_sigops_count current_block_ = size_t (block_legacy_weight current_block_)
  /\ (block_legacy_weight current_block_ < 2 ^ size_t_bits ->
      legacy_sigops_count current_block_ = block_legacy_weight current_block_).
Proof.
  assert (Hcount : legacy_sigops_count current_block_
                   = size_t (block_legacy_weight current_block_)).
  { unfold legacy_sigops_count, block_legacy_weight.
    rewrite (fold_size_t tx_legacy_sigops_count tx_legacy_weight)
      by (try (intros; apply tx_legacy_sigops_count_weight); apply size_t_zero).
    reflexivity. }
  split; [exact Hcount |].
  intros Hsmall. rewrite Hcount. unfold size_t, wrap. apply Z.mod_small.
  split; [| exact Hsmall].
  unfold block_legacy_weight.
  induction (transactions current_block_) as [| tx txs IH]; cbn [fold_right];
    [lia |].
  assert (Hweight : forall ops, 0 <= legacy_weight ops).
  { intros ops. unfold legacy_weight.
    induction ops as [| op ops IHops]; cbn [fold_right]; [lia |].
    destruct ((code op =? checksig) || (code op =? checksigverify)); [lia |].
    destruct ((code op =? checkmultisig) || (code op =? checkmultisigverify)); lia. }
  assert (Htx : 0 <= tx_legacy_weight tx).
  { unfold tx_legacy_weight.
    assert (Hins : 0 <= fold_right (fun input total =>
                                      legacy_weight (operations (input_script input))
                                      + total) 0 (inputs tx)).
    { induction (inputs tx) as [| i l IHl]; cbn [fold_right]; [lia |].
      pose proof (Hweight (operations (input_script i))). lia. }
    assert (Houts : 0 <= fold_right (fun output total =>
                                       legacy_weight (operations (output_script output))
                                       + total) 0 (outputs tx)).
    { induction (outputs tx) as [| o l IHl]; cbn [fold_right]; [lia |].
      pose proof (Hweight (operations (output_script o))). lia. }
    lia. }
  lia.
Qed.

(** *** The difficulty *)

(** X9.  At a depth that is a positive multiple of the readjustment
    interval, with a previous target that is not negative, [work_required]
    is the compact form of a target that is at most [max_target], at most
    four times the previous target, and at least a quarter of it (or
    [max_target], if that is smaller). *)
Theorem work_required_within_factor_four (view : chain_view) (depth_ : Z) :
  depth_ <> 0 ->
  depth_ mod readjustment_interval = 0 ->
  0 <= set_compact (previous_block_bits view) ->
  exists retarget,
    work_required view depth_ = compact retarget
    /\ retarget <= max_target
    /\ retarget <= 4 * set_compact (previous_block_bits view)
    /\ Z.min max_target (set_compact (previous_block_bits view) / 4) <= retarget.
Proof.
  intros Hnz Hmod Hprevious. unfold work_required.
  apply Z.eqb_neq in Hnz. rewrite Hnz. apply Z.eqb_eq in Hmod. rewrite Hmod.
  cbn [negb]. cbv zeta. rewrite cap_is_min.
  change (uint64 (target_timespan * 4)) with (target_timespan * 4).
  rewrite range_constraint_clamp by (vm_compute; discriminate).
  set (previous := set_compact (previous_block_bits view)) in *.
  set (actual := clamp (actual_timespan view readjustment_interval)
                   (target_timespan / 4) (target_timespan * 4)).
  assert (Hactual : 302400 <= actual <= 4838400).
  { unfold actual, clamp.
    change (target_timespan / 4) with 302400.
    change (target_timespan * 4) with 4838400. lia. }
  change target_timespan with 1209600.
  rewrite Z.quot_div_nonneg by nia.
  assert (Hupper : previous * actual / 1209600 <= 4 * previous).
  { apply Z.div_le_upper_bound; nia. }
  assert (Hlower : previous / 4 <= previous * actual / 1209600).
  { apply Z.div_le_lower_bound; [lia |].
    pose proof (Z.mul_div_le previous 4 ltac:(lia)). nia. }
  eexists. split; [reflexivity |]. lia.
Qed.

(** *** [check_block] *)

Lemma hash_eqb_eq (a b : hash_digest) : hash_eqb a b = true <-> a = b.
Proof.
  unfold hash_eqb. destruct (list_eq_dec byte_eq_dec a b) as [Heq | Hne].
  - split; [intros _; exact Heq | reflexivity].
  - split; [discriminate | intros Heq; contradiction].
Qed.

Lemma nodup_length {A : Type} (dec : forall a b : A, {a = b} + {a <> b})
    (l : list A) :
  (length (nodup dec l) <= length l)%nat.
Proof.
  induction l as [| a l IH]; [apply Nat.le_refl |]. cbn [nodup].
  destruct (in_dec dec a l); cbn [length]; lia.
Qed.

Lemma nodup_length_iff {A : Type} (dec : forall a b : A, {a = b} + {a <> b})
    (l : list A) :
  length (nodup dec l) = length l <-> NoDup l.
Proof.
  split.
  - induction l as [| a l IH]; [constructor |]. cbn [nodup].
    destruct (in_dec dec a l) as [Hin | Hout]; cbn [length]; intros Hlen.
    + pose proof (nodup_length dec l). lia.
    + constructor; [exact Hout | apply IH; lia].
  - intros Hnodup. rewrite nodup_fixed_point by exact Hnodup. reflexivity.
Qed.

(** X10.  [check_block] returns no error exactly when the block has
    transactions, of which the first and only the first is a coinbase, their
    number and the raw size of the block are at most [max_block_size], the
    proof of work holds, the timestamp is at most two hours after the clock,
    every transaction passes [check_transaction], the hashes of the
    transactions are pairwise different, the legacy count is at most
    [max_block_script_sig_operations], and the merkle root is that of the
    transactions. *)
Theorem check_block_accepts (universal_time : Z) (current_block_ : block) :
  check_block universal_time current_block_ = error.success <->
  (exists coinbase others,
     transactions current_block_ = coinbase :: others
     /\ is_coinbase coinbase = true
     /\ Forall (fun tx => is_coinbase tx = false) others)
  /\ Z.of_nat (length (transactions current_block_)) <= max_block_size
  /\ satoshi_raw_size current_block_ <= max_block_size
  /\ check_proof_of_work (hash_block_header current_block_) (bits current_block_)
     = true
  /\ timestamp current_block_ <= universal_time + 2 * 3600
  /\ Forall (fun tx => check_transaction tx = error.success)
            (transactions current_block_)
  /\ NoDup (map hash_transaction (transactions current_block_))
  /\ legacy_sigops_count current_block_ <= max_block_script_sig_operations
  /\ merkle current_block_ = generate_merkle_root (transactions current_block_).
Proof.
  unfold check_block.
  destruct (transactions current_block_) as [| coinbase others] eqn:Htxs.
  { split; [discriminate |]. intros ((c & o & Hshape & _) & _). discriminate. }
  set (txs := coinbase :: others) in *.
  split.
  - intros Hok.
    destruct (Z.of_nat (length txs) >? max_block_size) eqn:Hcount;
      [discriminate |].
    destruct (satoshi_raw_size current_block_ >? max_block_size) eqn:Hraw;
      [discriminate |].
    cbn [orb] in Hok.
    destruct (check_proof_of_work (hash_block_header current_block_)
                (bits current_block_)) eqn:Hpow; [| discriminate].
    cbn [negb] in Hok.
    destruct (timestamp current_block_ >? universal_time + 2 * 3600) eqn:Htime;
      [discriminate |].
    destruct (is_coinbase coinbase) eqn:Hfirst; [| discriminate].
    cbn [negb] in Hok.
    destruct (existsb is_coinbase others) eqn:Hextra; [discriminate |].
    destruct (find (fun tx => is_error (check_transaction tx)) txs)
      as [failed |] eqn:Hfind.
    { apply find_some in Hfind. destruct Hfind as [_ Herror].
      rewrite Hok in Herror. discriminate. }
    destruct (length (nodup (list_eq_dec byte_eq_dec) (map hash_transaction txs))
              =? length txs)%nat eqn:Hunique; [| discriminate].
    cbn [negb] in Hok.
    destruct (legacy_sigops_count current_block_ >? max_block_script_sig_operations)
      eqn:Hsigops; [discriminate |].
    destruct (hash_eqb (merkle current_block_) (generate_merkle_root txs))
      eqn:Hmerkle; [| discriminate].
    rewrite Z.gtb_ltb in Hcount, Hraw, Htime, Hsigops.
    apply Z.ltb_ge in Hcount, Hraw, Htime, Hsigops.
    split.
    { exists coinbase, others. split; [reflexivity |]. split; [exact Hfirst |].
      apply Forall_forall. intros tx Hin.
      destruct (is_coinbase tx) eqn:Hthis; [| reflexivity].
      assert (Hexists : existsb is_coinbase others = true).
      { apply existsb_exists. exists tx. split; assumption. }
      rewrite Hexists in Hextra. discriminate. }
    split; [exact Hcount |]. split; [exact Hraw |]. split; [reflexivity |].
    split; [exact Htime |].
    split.
    { apply Forall_forall. intros tx Hin. apply is_error_false.
      exact (find_none _ _ Hfind tx Hin). }
    split.
    { apply (nodup_length_iff (list_eq_dec byte_eq_dec)).
      apply Nat.eqb_eq in Hunique. rewrite Hunique. rewrite length_map.
      reflexivity. }
    split; [exact Hsigops |].
    apply hash_eqb_eq. exact Hmerkle.
  - intros ((c & o & Hshape & Hfirst & Hothers) & Hcount & Hraw & Hpow & Htime
            & Hchecked & Hunique & Hsigops & Hmerkle).
    injection Hshape as <- <-.
    assert (Hc : (Z.of_nat (length txs) >? max_block_size) = false)
      by (rewrite Z.gtb_ltb; apply Z.ltb_ge; exact Hcount).
    assert (Hr : (satoshi_raw_size current_block_ >? max_block_size) = false)
      by (rewrite Z.gtb_ltb; apply Z.ltb_ge; exact Hraw).
    assert (Ht : (timestamp current_block_ >? universal_time + 2 * 3600) = false)
      by (rewrite Z.gtb_ltb; apply Z.ltb_ge; exact Htime).
    assert (Hs : (legacy_sigops_count current_block_
                  >? max_block_script_sig_operations) = false)
      by (rewrite Z.gtb_ltb; apply Z.ltb_ge; exact Hsigops).
    rewrite Hc, Hr, Hpow, Ht, Hfirst, Hs. cbn [orb negb].
    assert (Hextra : existsb is_coinbase others = false).
    { destruct (existsb is_coinbase others) eqn:Hextra; [| reflexivity].
      apply existsb_exists in Hextra. destruct Hextra as (tx & Hin & Hthis).
      rewrite Forall_forall in Hothers. rewrite (Hothers tx Hin) in Hthis.
      discriminate. }
    rewrite Hextra.
    assert (Hfind : find (fun tx => is_error (check_transaction tx)) txs = None).
    { destruct (find (fun tx => is_error (check_transaction tx)) txs)
        as [failed |] eqn:Hfind; [| reflexivity].
      apply find_some in Hfind. destruct Hfind as [Hin Herror].
      rewrite Forall_forall in Hchecked. rewrite (Hchecked failed Hin) in Herror.
      discriminate. }
    rewrite Hfind.
    apply (nodup_length_iff (list_eq_dec byte_eq_dec)) in Hunique.
    rewrite Hunique, length_map, Nat.eqb_refl. cbn [negb].
    apply hash_eqb_eq in Hmerkle. rewrite Hmerkle. reflexivity.
Qed.

(** *** [accept_block] *)

Lemma passes_checkpoints_iff (depth_ : Z) (current_block_ : block) :
  passes_checkpoints depth_ current_block_ = true <->
  forall block_hash,
    In (depth_, block_hash) checkpoints ->
    hash_block_header current_block_ = block_hash.
Proof.
  unfold passes_checkpoints. cbv zeta. rewrite forallb_forall. split.
  - intros Hall block_hash Hin. specialize (Hall _ Hin). cbn [fst snd] in Hall.
    rewrite Z.eqb_refl in Hall. cbn [andb] in Hall.
    apply negb_true_iff, negb_false_iff in Hall. apply hash_eqb_eq. exact Hall.
  - intros Hall [depth block_hash] Hin. cbn [fst snd].
    destruct (depth_ =? depth) eqn:Hdepth; [| reflexivity].
    apply Z.eqb_eq in Hdepth. subst depth.
    cbn [andb]. apply negb_true_iff, negb_false_iff. apply hash_eqb_eq.
    apply Hall. exact Hin.
Qed.

(** X11.  [accept_block] returns no error exactly when the bits of the block
    are the required work, its timestamp is after the median time past, each
    transaction is final, and the hash of the header is the hash that the
    table of checkpoints lists for the depth, if it lists one; the table
    lists no depth twice. *)
Theorem accept_block_accepts (view : chain_view) (depth_ : Z) (current_block_ : block) :
  (accept_block view depth_ current_block_ = error.success <->
   bits current_block_ = work_required view depth_
   /\ median_time_past view < timestamp current_block_
   /\ Forall (fun tx => is_final tx depth_ (timestamp current_block_) = true)
             (transactions current_block_)
   /\ (forall block_hash,
         In (depth_, block_hash) checkpoints ->
         hash_block_header current_block_ = block_hash))
  /\ NoDup (map fst checkpoints).
Proof.
  split.
  - split.
    + intros Hok. unfold accept_block in Hok.
      destruct (bits current_block_ =? work_required view depth_) eqn:Hbits;
        cbn [negb] in Hok; [| discriminate].
      destruct (timestamp current_block_ <=? median_time_past view) eqn:Htime;
        [discriminate |].
      destruct (forallb (fun tx => is_final tx depth_ (timestamp current_block_))
                  (transactions current_block_)) eqn:Hfinal;
        cbn [negb] in Hok; [| discriminate].
      destruct (passes_checkpoints depth_ current_block_) eqn:Hlisted;
        [| discriminate].
      split; [apply Z.eqb_eq; exact Hbits |].
      split; [apply Z.leb_gt; exact Htime |].
      split; [apply Forall_forall; exact (proj1 (forallb_forall _ _) Hfinal) |].
      apply passes_checkpoints_iff. exact Hlisted.
    + intros (Hbits & Htime & Hfinal & Hlisted). unfold accept_block.
      apply Z.eqb_eq in Hbits. apply Z.leb_gt in Htime.
      rewrite Forall_forall in Hfinal. apply forallb_forall in Hfinal.
      apply passes_checkpoints_iff in Hlisted.
      rewrite Hbits, Htime, Hfinal, Hlisted. reflexivity.
  - vm_compute. repeat constructor; intros H;
      repeat (destruct H as [H | H]; [discriminate H |]); exact H.
Qed.

(** *** [tally_fees] *)


(** *** Connecting the inputs of a block *)

Lemma gtb_false (a b : Z) : (a >? b) = false <-> a <= b.
Proof. rewrite Z.gtb_ltb. apply Z.ltb_ge. Qed.

Lemma validate_block_connect_input_iff (view : chain_view) (depth_ : Z)
    (current_block_ : block) (index_in_parent : Z) (tx : transaction)
    (input_index value_in total_sigops value_in' total_sigops' : Z)
    (input : transaction_input) :
  well_typed_view view ->
  0 <= value_in <= max_money ->
  at_index (inputs tx) input_index = Returns input ->
  (validate_block_connect_input view depth_ current_block_ index_in_parent tx
     input_index value_in total_sigops = Returns (true, value_in', total_sigops')
   <->
   input_connects view depth_ current_block_ index_in_parent tx input_index input
   /\ total_sigops' = size_t (total_sigops + input_sigops view input)
   /\ total_sigops' <= max_block_script_sig_operations
   /\ value_in' = value_in + input_value view input
   /\ value_in' <= max_money).
Proof.
  intros Hview Hvalue_in Hinput. unfold validate_block_connect_input.
  rewrite Hinput. cbn [bind].
  unfold input_connects, input_sigops, input_value, spent_output.
  destruct (fetch_transaction view (hash (previous_output input)))
    as [[previous_tx previous_depth] |] eqn:Hfetch.
  2:{ split; [discriminate |]. intros ((p & d & o & Habsurd & _) & _). discriminate. }
  destruct (at_index (outputs previous_tx) (index (previous_output input)))
    as [spent |] eqn:Hspent; cbn [bind].
  2:{ split; [discriminate |].
      intros ((p & d & o & Hknown & Hposition & _) & _).
      injection Hknown as <- <-. rewrite Hspent in Hposition. discriminate. }
  rewrite (at_index_nth_error _ _ _ Hspent).
  assert (Htyped : 0 <= value spent < 2 ^ 64).
  { pose proof (Hview _ _ _ Hfetch) as Hvalues. unfold uint64_values in Hvalues.
    rewrite Forall_forall in Hvalues. apply Hvalues.
    eapply at_index_In. exact Hspent. }
  rewrite two_pow_64 in Htyped. cbv zeta.
  set (sigops := size_t (total_sigops
                         + script_hash_signature_operations_count
                             (output_script spent) (input_script input))).
  set (flag := timestamp current_block_ >=? bip16_switchover_timestamp).
  split.
  - intros Hrun.
    destruct (sigops >? max_block_script_sig_operations) eqn:Hcount;
      [discriminate |].
    destruct (value spent >? max_money) eqn:Hlarge; [discriminate |].
    destruct (is_coinbase previous_tx) eqn:Hcoinbase; cbn [andb] in Hrun.
    + destruct (uint32 (size_t (depth_ - previous_depth)) <? coinbase_maturity)
        eqn:Hmature; [discriminate |].
      destruct (script_run (output_script spent) (input_script input) tx
                  input_index flag) eqn:Hscript; cbn [negb] in Hrun;
        [| discriminate].
      destruct (is_output_spent_within view (previous_output input)
                  index_in_parent input_index) eqn:Hunspent; [discriminate |].
      destruct (uint64 (value_in + value spent) >? max_money) eqn:Hsum;
        [discriminate |].
      injection Hrun as <- <-.
      apply gtb_false in Hcount, Hlarge, Hsum. apply Z.ltb_ge in Hmature.
      rewrite max_money_value in *.
      rewrite uint64_small in * by (rewrite two_pow_64; lia).
      split; [| repeat split; assumption].
      exists previous_tx, previous_depth, spent.
      repeat (split; [first [assumption | reflexivity | intros _; assumption] |]);
        first [assumption | reflexivity].
    + destruct (script_run (output_script spent) (input_script input) tx
                  input_index flag) eqn:Hscript; cbn [negb] in Hrun;
        [| discriminate].
      destruct (is_output_spent_within view (previous_output input)
                  index_in_parent input_index) eqn:Hunspent; [discriminate |].
      destruct (uint64 (value_in + value spent) >? max_money) eqn:Hsum;
        [discriminate |].
      injection Hrun as <- <-.
      apply gtb_false in Hcount, Hlarge, Hsum.
      rewrite max_money_value in *.
      rewrite uint64_small in * by (rewrite two_pow_64; lia).
      split; [| repeat split; assumption].
      exists previous_tx, previous_depth, spent.
      repeat (split; [first [assumption | reflexivity | intros Hc; congruence] |]);
        first [assumption | reflexivity].
  - intros ((p & d & o & Hknown & Hposition & Hlarge & Hmature & Hscript & Hunspent)
            & -> & Hcount & -> & Hsum).
    injection Hknown as <- <-. rewrite Hspent in Hposition.
    injection Hposition as <-.
    apply gtb_false in Hcount. fold sigops. rewrite Hcount.
    pose proof (proj2 (gtb_false _ _) Hlarge) as Hlarge'. rewrite Hlarge'.
    fold flag in Hscript. rewrite Hscript, Hunspent. cbn [negb].
    rewrite max_money_value in *.
    rewrite uint64_small by (rewrite two_pow_64; lia).
    pose proof (proj2 (gtb_false _ _) Hsum) as Hsum'. rewrite Hsum'.
    destruct (is_coinbase previous_tx); cbn [andb]; [| reflexivity].
    specialize (Hmature eq_refl). apply Z.ltb_ge in Hmature. rewrite Hmature.
    reflexivity.
Qed.

Lemma last_of_nonempty {A : Type} (l : list A) (a d d' : A) :
  last (a :: l) d = last (a :: l) d'.
Proof.
  revert a. induction l as [| b l IH]; intros a; [reflexivity |].
  change (last (b :: l) d = last (b :: l) d'). apply IH.
Qed.

Lemma rev_head_last {A : Type} (first : A) (rest : list A) :
  exists others, rev (first :: rest) = last rest first :: others.
Proof.
  revert first. induction rest as [| second rest IH]; intros first.
  - exists []. reflexivity.
  - destruct (IH second) as [others Hrev].
    exists (others ++ [first]).
    change (rev (first :: second :: rest)) with (rev (second :: rest) ++ [first]).
    rewrite Hrev. cbn [app]. f_equal.
    destruct rest as [| third rest]; [reflexivity |].
    change (last (third :: rest) second = last (third :: rest) first).
    apply last_of_nonempty.
Qed.

Lemma script_hash_signature_operations_count_total (output_script input_script : script)
    (total : Z) :
  size_t (total + script_hash_signature_operations_count output_script input_script)
  = size_t (total
            + sigops_sum_by_byte true [] (counted_operations output_script input_script)).
Proof.
  unfold script_hash_signature_operations_count, counted_operations.
  destruct (script_type output_script).
  - destruct (operations input_script) as [| first rest]; [reflexivity |].
    destruct (rev_head_last first rest) as [others Hrev]. rewrite Hrev.
    rewrite count_script_sigops_total. apply size_t_add_r.
  - rewrite count_script_sigops_total. apply size_t_add_r.
Qed.

Lemma at_index_iff {A : Type} (v : list A) (i : Z) (a : A) :
  at_index v i = Returns a <-> 0 <= i /\ nth_error v (Z.to_nat i) = Some a.
Proof.
  unfold at_index. destruct (i <? 0) eqn:Hnegative.
  - apply Z.ltb_lt in Hnegative. split; [discriminate | lia].
  - apply Z.ltb_ge in Hnegative.
    destruct (nth_error v (Z.to_nat i)) as [b |].
    + split; [intros [= ->]; split; [exact Hnegative | reflexivity]
             | intros [_ [= ->]]; reflexivity].
    + split; [discriminate | intros [_ Habsurd]; discriminate].
Qed.

Lemma block_depth_difference (depth_ previous_depth : Z) :
  32 <= size_t_bits ->
  0 <= depth_ < 2 ^ 32 ->
  0 <= previous_depth <= depth_ ->
  uint32 (size_t (depth_ - previous_depth)) = depth_ - previous_depth.
Proof.
  intros Hwidth Hdepth Hparent.
  assert (Hmodulus : 2 ^ 32 <= 2 ^ size_t_bits)
    by (apply Z.pow_le_mono_r; lia).
  unfold uint32, size_t, wrap.
  rewrite (Z.mod_small (depth_ - previous_depth) (2 ^ size_t_bits)) by lia.
  apply Z.mod_small. lia.
Qed.

(** X13.  For a block below depth 2^32 on a platform whose [size_t] has at
    least 32 bits, a parent that the chain holds at a depth not above that
    of the block (what the code asserts), a chain whose transactions have
    [uint64_t] values and a running input value between 0 and [max_money]:
    [validate_block::connect_input] returns true exactly when the chain
    knows the parent, the index is a position of its outputs, the spent
    value is at most [max_money], a coinbase parent lies at least
    [coinbase_maturity] blocks below the block, the script runs with the
    BIP 16 flag of the block, the output is unspent, the new count of
    signature operations is the old one plus the accurate count of the
    output script (for a pay-to-script-hash output: of the script in the
    last operation of the input script), reduced to [size_t], and at most
    [max_block_script_sig_operations], and the new input value is the old
    one plus the spent value and at most [max_money]. *)
Theorem validate_block_connect_input_accepts (view : chain_view) (depth_ : Z)
    (current_block_ : block) (index_in_parent : Z) (tx : transaction)
    (input_index value_in total_sigops value_in' total_sigops' : Z)
    (input : transaction_input) :
  well_typed_view view ->
  32 <= size_t_bits ->
  0 <= depth_ < 2 ^ 32 ->
  (forall previous_tx previous_depth,
     fetch_transaction view (hash (previous_output input))
     = Some (previous_tx, previous_depth) ->
     0 <= previous_depth <= depth_) ->
  0 <= value_in <= max_money ->
  at_index (inputs tx) input_index = Returns input ->
  (validate_block_connect_input view depth_ current_block_ index_in_parent tx
     input_index value_in total_sigops = Returns (true, value_in', total_sigops')
   <->
   exists previous_tx previous_depth spent,
     fetch_transaction view (hash (previous_output input))
     = Some (previous_tx, previous_depth)
     /\ 0 <= index (previous_output input)
     /\ nth_error (outputs previous_tx) (Z.to_nat (index (previous_output input)))
        = Some spent
     /\ value spent <= max_money
     /\ (is_coinbase previous_tx = true ->
         coinbase_maturity <= depth_ - previous_depth)
     /\ script_run (output_script spent) (input_script input) tx input_index
          (timestamp current_block_ >=? bip16_switchover_timestamp) = true
     /\ is_output_spent_within view (previous_output input) index_in_parent
          input_index = false
     /\ total_sigops'
        = size_t (total_sigops
                  + sigops_sum_by_byte true []
                      (counted_operations (output_script spent) (input_script input)))
     /\ total_sigops' <= max_block_script_sig_operations
     /\ value_in' = value_in + value spent
     /\ value_in' <= max_money).
Proof.
  intros Hview Hwidth Hdepth Hbelow Hvalue_in Hinput.
  rewrite (validate_block_connect_input_iff view depth_ current_block_ index_in_parent
             tx input_index value_in total_sigops value_in' total_sigops' input
             Hview Hvalue_in Hinput).
  unfold input_connects, input_sigops, input_value, spent_output. split.
  - intros ((previous_tx & previous_depth & spent & Hknown & Hposition & Hlarge
             & Hmature & Hscript & Hunspent) & Hsigops & Hcount & Hvalue & Hsum).
    rewrite Hknown in Hsigops, Hvalue.
    apply at_index_iff in Hposition. destruct Hposition as [Hindex Hposition].
    rewrite Hposition in Hsigops, Hvalue.
    rewrite script_hash_signature_operations_count_total in Hsigops.
    rewrite (block_depth_difference depth_ previous_depth Hwidth Hdepth
               (Hbelow _ _ Hknown)) in Hmature.
    exists previous_tx, previous_depth, spent.
    split; [exact Hknown |]. split; [exact Hindex |]. split; [exact Hposition |].
    split; [exact Hlarge |]. split; [exact Hmature |]. split; [exact Hscript |].
    split; [exact Hunspent |]. split; [exact Hsigops |]. split; [exact Hcount |].
    split; [exact Hvalue | exact Hsum].
  - intros (previous_tx & previous_depth & spent & Hknown & Hindex & Hposition
            & Hlarge & Hmature & Hscript & Hunspent & Hsigops & Hcount & Hvalue
            & Hsum).
    rewrite Hknown, Hposition.
    rewrite script_hash_signature_operations_count_total.
    split; [| split; [exact Hsigops |]; split; [exact Hcount |];
              split; [exact Hvalue | exact Hsum]].
    exists previous_tx, previous_depth, spent.
    split; [reflexivity |].
    split; [apply at_index_iff; split; assumption |].
    split; [exact Hlarge |].
    split.
    + rewrite (block_depth_difference depth_ previous_depth Hwidth Hdepth
                 (Hbelow _ _ Hknown)).
      exact Hmature.
    + split; assumption.
Qed.

Lemma validate_inputs_loop_connects (view : chain_view) (depth_ : Z)
    (current_block_ : block) (index_in_parent : Z) (tx : transaction)
    (rest : list transaction_input) :
  well_typed_view view ->
  forall done value_in total_sigops value_in' total_sigops',
    inputs tx = done ++ rest ->
    0 <= value_in <= max_money ->
    validate_inputs_loop view depth_ current_block_ tx index_in_parent
      (map Z.of_nat (seq (length done) (length rest))) value_in total_sigops
    = Returns (true, value_in', total_sigops') ->
    forall k input,
      nth_error rest k = Some input ->
      input_connects view depth_ current_block_ index_in_parent tx
        (Z.of_nat (length done + k)) input.
Proof.
  intros Hview. induction rest as [| first rest IH];
    intros done value_in total_sigops value_in' total_sigops' Hsplit Hvalue_in;
    cbn [length seq map validate_inputs_loop].
  - intros _ k input Hnth. destruct k; discriminate.
  - assert (Hinput : at_index (inputs tx) (Z.of_nat (length done)) = Returns first).
    { rewrite Hsplit. apply at_index_middle. }
    destruct (validate_block_connect_input view depth_ current_block_ index_in_parent
                tx (Z.of_nat (length done)) value_in total_sigops)
      as [[[connected value_mid] sigops_mid] |] eqn:Hconnect; cbn [bind];
      [| discriminate].
    destruct connected; cbn [negb]; [| discriminate].
    pose proof (proj1 (validate_block_connect_input_iff _ _ _ _ _ _ _ _ _ _ _
                         Hview Hvalue_in Hinput) Hconnect)
      as (Hconnects & _ & _ & Hmid & Hmid_max).
    assert (Hmid_range : 0 <= value_mid <= max_money).
    { destruct (validate_block_connect_input_value _ _ _ _ _ _ _ _ _ _ _
                  Hview Hvalue_in Hinput Hconnect) as [_ Hrange]. exact Hrange. }
    intros Hloop k input Hnth. destruct k as [| k].
    + injection Hnth as <-. rewrite Nat.add_0_r. exact Hconnects.
    + cbn [nth_error] in Hnth.
      replace (length done + S k)%nat with (length (done ++ [first]) + k)%nat
        by (rewrite length_app; cbn [length]; lia).
      apply (IH (done ++ [first]) value_mid sigops_mid value_in' total_sigops').
      * rewrite Hsplit, <- app_assoc. reflexivity.
      * exact Hmid_range.
      * rewrite length_app, Nat.add_1_r. exact Hloop.
      * exact Hnth.
Qed.

Lemma validate_inputs_sound (view : chain_view) (depth_ : Z) (current_block_ : block)
    (tx : transaction) (index_in_parent value_in total_sigops value_in'
     total_sigops' : Z) :
  well_typed_view view ->
  0 <= value_in <= max_money ->
  validate_inputs view depth_ current_block_ tx index_in_parent value_in total_sigops
  = Returns (true, value_in', total_sigops') ->
  (forall position input,
     nth_error (inputs tx) position = Some input ->
     input_connects view depth_ current_block_ index_in_parent tx
       (Z.of_nat position) input)
  /\ value_in' = value_in + sum_input_values view tx
  /\ 0 <= value_in' <= max_money.
Proof.
  intros Hview Hvalue_in Hrun. unfold validate_inputs in Hrun. split.
  - intros position input Hnth.
    exact (validate_inputs_loop_connects view depth_ current_block_ index_in_parent tx
             (inputs tx) Hview [] value_in total_sigops value_in' total_sigops'
             eq_refl Hvalue_in Hrun position input Hnth).
  - exact (validate_inputs_loop_value view depth_ current_block_ index_in_parent tx
             (inputs tx) Hview [] value_in total_sigops value_in' total_sigops'
             eq_refl Hvalue_in Hrun).
Qed.

(** X14.  When [validate_inputs] returns true, every input of the
    transaction connects at its position, and the input value has grown by
    the sum of the values of the outputs that the inputs spend, without
    overflow and not beyond [max_money]. *)
Theorem validate_inputs_connects (view : chain_view) (depth_ : Z)
    (current_block_ : block) (tx : transaction)
    (index_in_parent value_in total_sigops value_in' total_sigops' : Z) :
  well_typed_view view ->
  0 <= value_in <= max_money ->
  validate_inputs view depth_ current_block_ tx index_in_parent value_in total_sigops
  = Returns (true, value_in', total_sigops') ->
  (forall position input,
     nth_error (inputs tx) position = Some input ->
     input_connects view depth_ current_block_ index_in_parent tx
       (Z.of_nat position) input)
  /\ value_in' = value_in + sum_input_values view tx
  /\ 0 <= value_in' <= max_money.
Proof.
  exact (validate_inputs_sound view depth_ current_block_ tx index_in_parent value_in
           total_sigops value_in' total_sigops').
Qed.



(** *** Connecting an input of a loose transaction *)

(** X16.  For a parent with [uint64_t] output values, an index that is not
    negative and a running input value between 0 and [max_money],
    [validate_transaction::connect_input] returns true exactly when the
    index is a position of the outputs of the parent, a coinbase parent is
    mature by the wrapped depth difference, the script of the spent output
    runs on the input without the BIP 16 flag, and the new input value is
    the old one plus the spent value and at most [max_money]. *)
Theorem validate_transaction_connect_input_accepts (tx : transaction)
    (current_input : Z) (previous_tx : transaction)
    (parent_depth last_block_depth value_in value_in' : Z)
    (input : transaction_input) :
  at_index (inputs tx) current_input = Returns input ->
  uint64_values previous_tx ->
  0 <= index (previous_output input) ->
  0 <= value_in <= max_money ->
  (validate_transaction_connect_input tx current_input previous_tx parent_depth
     last_block_depth value_in = Returns (true, value_in')
   <->
   exists spent,
     nth_error (outputs previous_tx) (Z.to_nat (index (previous_output input)))
     = Some spent
     /\ (is_coinbase previous_tx = true ->
         coinbase_maturity <= depth_difference last_block_depth parent_depth)
     /\ script_run (output_script spent) (input_script input) tx current_input false
        = true
     /\ value_in' = value_in + value spent
     /\ value_in' <= max_money).
Proof.
  intros Hinput Htyped Hindex Hvalue_in. unfold validate_transaction_connect_input.
  rewrite Hinput. cbn [bind].
  destruct (index (previous_output input) >=? Z.of_nat (length (outputs previous_tx)))
    eqn:Hcheck.
  { split; [discriminate |]. intros (spent & Hnth & _).
    apply Z.geb_le in Hcheck.
    assert (Hnone : nth_error (outputs previous_tx)
                      (Z.to_nat (index (previous_output input))) = None)
      by (apply nth_error_None; lia).
    rewrite Hnone in Hnth. discriminate. }
  rewrite Z.geb_leb in Hcheck. apply Z.leb_gt in Hcheck.
  destruct (at_index_defined (outputs previous_tx) (index (previous_output input)))
    as [spent Hspent]; [lia |].
  rewrite Hspent. cbn [bind]. cbv zeta.
  pose proof (at_index_nth_error _ _ _ Hspent) as Hnth.
  assert (Hvalue : 0 <= value spent < 2 ^ 64).
  { unfold uint64_values in Htyped. rewrite Forall_forall in Htyped.
    apply Htyped. eapply at_index_In. exact Hspent. }
  rewrite two_pow_64 in Hvalue. rewrite max_money_value in *.
  split.
  - intros Hrun.
    destruct (value spent >? 2100000000000000) eqn:Hlarge; [discriminate |].
    destruct (is_coinbase previous_tx
              && (depth_difference last_block_depth parent_depth <? coinbase_maturity))
      eqn:Himmature; [discriminate |].
    destruct (script_run (output_script spent) (input_script input) tx current_input
                false) eqn:Hscript; cbn [negb] in Hrun; [| discriminate].
    apply gtb_false in Hlarge.
    rewrite uint64_small in Hrun by (rewrite two_pow_64; lia).
    destruct (value_in + value spent >? 2100000000000000) eqn:Hsum; [discriminate |].
    apply gtb_false in Hsum. injection Hrun as <-.
    exists spent. split; [exact Hnth |]. split.
    + intros Hcoinbase. rewrite Hcoinbase in Himmature. cbn [andb] in Himmature.
      apply Z.ltb_ge in Himmature. exact Himmature.
    + split; [exact Hscript |]. split; [reflexivity | exact Hsum].
  - intros (spent' & Hnth' & Hmature & Hscript & -> & Hsum).
    rewrite Hnth in Hnth'. injection Hnth' as <-.
    assert (Hlarge : (value spent >? 2100000000000000) = false)
      by (apply gtb_false; lia).
    rewrite Hlarge, Hscript. cbn [negb].
    rewrite uint64_small by (rewrite two_pow_64; lia).
    apply gtb_false in Hsum. rewrite Hsum.
    destruct (is_coinbase previous_tx); cbn [andb]; [| reflexivity].
    specialize (Hmature eq_refl). apply Z.ltb_ge in Hmature. rewrite Hmature.
    reflexivity.
Qed.

(** *** What the handler of the memory-pool validator is told *)

Ltac members :=
  cbn [awaiting handled current_input_ value_in_ unconfirmed_ last_block_depth_
       set_awaiting set_value_in set_current_input push_unconfirmed
       handle_validate_] in *.

Lemma unconfirmed_below_nil (bound : Z) : unconfirmed_below bound [].
Proof. split; constructor. Qed.

Lemma unconfirmed_below_mono (bound bound' : Z) (indices : index_list) :
  bound <= bound' -> unconfirmed_below bound indices ->
  unconfirmed_below bound' indices.
Proof.
  intros Hle [Hsorted Hrange]. split; [exact Hsorted |].
  eapply Forall_impl; [| exact Hrange]. cbv beta. intros i Hi. lia.
Qed.

Lemma unconfirmed_below_push (i : Z) (indices : index_list) :
  0 <= i -> unconfirmed_below i indices ->
  unconfirmed_below (i + 1) (indices ++ [i]).
Proof.
  intros Hpos [Hsorted Hrange]. split.
  - induction Hsorted as [| j l Hsorted IH Hall]; cbn [app].
    + repeat constructor.
    + inversion Hrange as [| ? ? Hj Hl]; subst. constructor.
      * apply IH. exact Hl.
      * apply Forall_app. split; [exact Hall |]. constructor; [lia | constructor].
  - apply Forall_app. split.
    + eapply Forall_impl; [| exact Hrange]. cbv beta. intros j Hj. lia.
    + constructor; [lia | constructor].
Qed.

Lemma call_sound_failure (tx_ : transaction) (pool_ : pool_buffer) (ec : error_code) :
  ec <> error.success -> call_sound tx_ pool_ (ec, []).
Proof.
  intros Hfailure. unfold call_sound. cbn [fst snd].
  split; [apply unconfirmed_below_nil |]. split; [reflexivity |].
  intros Hsuccess. contradiction.
Qed.

Lemma call_sound_not_found (tx_ : transaction) (pool_ : pool_buffer) (i : Z) :
  0 <= i < Z.of_nat (length (inputs tx_)) ->
  call_sound tx_ pool_ (error.input_not_found, [i]).
Proof.
  intros Hrange. unfold call_sound. cbn [fst snd]. split.
  - split; repeat constructor; lia.
  - split; [intros _ Habsurd; exfalso; apply Habsurd; reflexivity | discriminate].
Qed.

Lemma handle_validate_sound (tx_ : transaction) (pool_ : pool_buffer) (v : validator)
    (ec : error_code) (indices : index_list) :
  awaiting v = Idle -> handled v = [] ->
  call_sound tx_ pool_ (ec, indices) ->
  sound tx_ pool_ (handle_validate_ v ec indices).
Proof.
  intros Hidle Hnone Hcall. unfold sound. members. rewrite Hidle, Hnone.
  constructor; [exact Hcall | constructor].
Qed.

Lemma handle_previous_tx_sound (tx_ : transaction) (pool_ : pool_buffer)
    (v : validator) (ec : error_code) (previous_tx : transaction) (parent_depth : Z) :
  uint32_indices tx_ ->
  awaiting v = Idle -> handled v = [] ->
  0 <= current_input_ v < Z.of_nat (length (inputs tx_)) ->
  let v' := handle_previous_tx tx_ v ec previous_tx parent_depth in
  (awaiting v' = Idle /\ Forall (call_sound tx_ pool_) (handled v'))
  \/ (exists outpoint, awaiting v' = Await_spend outpoint)
     /\ unconfirmed_ v' = unconfirmed_ v
     /\ current_input_ v' = current_input_ v.
Proof.
  intros Htyped Hidle Hnone Hrange. cbv zeta. unfold handle_previous_tx.
  destruct (is_error ec).
  - left. members. rewrite Hidle, Hnone. split; [reflexivity |].
    constructor; [| constructor]. apply call_sound_not_found. exact Hrange.
  - destruct (connect_input_defined tx_ (current_input_ v) previous_tx parent_depth
                (last_block_depth_ v) (value_in_ v) Htyped Hrange)
      as [[connected value_in] Hr].
    rewrite Hr. cbv zeta. destruct connected; cbn [negb].
    + right. members.
      destruct (at_index_defined (inputs tx_) (current_input_ v) Hrange)
        as [input Hinput].
      rewrite Hinput. members. split; [eexists; reflexivity |].
      split; reflexivity.
    + left. members. rewrite Hidle, Hnone. split; [reflexivity |].
      constructor; [| constructor]. apply call_sound_failure. discriminate.
Qed.

Lemma is_error_true (ec : error_code) : is_error ec = true -> ec <> error.success.
Proof. intros Herror ->. discriminate. Qed.

(** One reply keeps what the validator knows of the transaction. *)
Lemma deliver_sound (tx_ : transaction) (pool_ : pool_buffer) (chain_ : blockchain)
    (n : nat) (v : validator) :
  uint32_indices tx_ ->
  consistent tx_ v ->
  sound tx_ pool_ v ->
  sound tx_ pool_ (deliver tx_ pool_ chain_ n v).
Proof.
  intros Htyped Hc Hs. unfold deliver. cbv zeta.
  assert (Hidle : awaiting (set_awaiting v Idle) = Idle) by reflexivity.
  assert (Hhandled : handled (set_awaiting v Idle) = handled v) by reflexivity.
  assert (Hcursor : current_input_ (set_awaiting v Idle) = current_input_ v)
    by reflexivity.
  assert (Hlist : unconfirmed_ (set_awaiting v Idle) = unconfirmed_ v)
    by reflexivity.
  unfold consistent in Hc. unfold sound in Hs.
  destruct (awaiting v) eqn:Hawaiting.
  - unfold sound. rewrite Hawaiting. exact Hs.
  - (* handle_duplicate_check *)
    destruct Hc as [Hnone Hinputs]. destruct Hs as [Hempty Hbasic].
    rewrite <- Hhandled in Hnone. unfold handle_duplicate_check.
    destruct (negb (error.eqb (fst (reply_fetch_transaction chain_ n tx_hash))
                      error.not_found)).
    + apply handle_validate_sound; try assumption.
      apply call_sound_failure. discriminate.
    + destruct (existsb (fun input => is_spent pool_ (previous_output input))
                  (inputs tx_)) eqn:Hconflict.
      * apply handle_validate_sound; try assumption.
        apply call_sound_failure. discriminate.
      * unfold sound. members. split; [exact Hempty |]. split; assumption.
  - (* set_last_depth *)
    destruct Hc as [Hnone Hinputs]. destruct Hs as [Hempty Hpassed].
    rewrite <- Hhandled in Hnone.
    destruct (reply_fetch_last_depth chain_ n) as [ec last_depth].
    unfold set_last_depth. destruct (is_error ec) eqn:Herror.
    + apply handle_validate_sound; try assumption.
      apply call_sound_failure. apply is_error_true. exact Herror.
    + unfold next_previous_transaction. members.
      destruct (at_index_defined (inputs tx_) 0) as [input Hinput]; [lia |].
      rewrite Hinput. unfold sound. members. rewrite Hempty.
      split; [apply unconfirmed_below_nil | exact Hpassed].
  - (* previous_tx_index *)
    destruct Hc as [Hnone Hrange]. destruct Hs as [Hbelow Hpassed].
    rewrite <- Hhandled in Hnone.
    destruct (reply_fetch_transaction_index chain_ n tx_hash) as [ec parent_depth].
    unfold previous_tx_index. destruct (is_error ec).
    + unfold search_pool_previous_tx. rewrite Hcursor.
      destruct (at_index_defined (inputs tx_) (current_input_ v) Hrange)
        as [input Hinput].
      rewrite Hinput.
      destruct (fetch pool_ (hash (previous_output input))) as [previous_tx |].
      * cbv zeta.
        destruct (handle_previous_tx_sound tx_ pool_ (set_awaiting v Idle)
                    error.success previous_tx 0 Htyped Hidle Hnone Hrange)
          as [[Hdone Hcalls] | [[outpoint Hwaits] [Hsame Hsame_cursor]]].
        -- unfold sound. members. rewrite Hdone. exact Hcalls.
        -- unfold sound. members. rewrite Hwaits, Hsame, Hsame_cursor.
           split; [| exact Hpassed].
           apply unconfirmed_below_push; [lia | exact Hbelow].
      * apply handle_validate_sound; try assumption.
        apply call_sound_not_found. exact Hrange.
    + rewrite Hcursor.
      destruct (at_index_defined (inputs tx_) (current_input_ v) Hrange)
        as [input Hinput].
      rewrite Hinput. unfold sound. members. split; assumption.
  - (* handle_previous_tx *)
    destruct Hc as [Hnone Hrange]. destruct Hs as [Hbelow Hpassed].
    rewrite <- Hhandled in Hnone.
    destruct (reply_fetch_transaction chain_ n tx_hash) as [ec previous_tx].
    destruct (handle_previous_tx_sound tx_ pool_ (set_awaiting v Idle) ec previous_tx
                parent_depth Htyped Hidle Hnone Hrange)
      as [[Hdone Hcalls] | [[outpoint Hwaits] [Hsame Hsame_cursor]]].
    + unfold sound. rewrite Hdone. exact Hcalls.
    + unfold sound. members. rewrite Hwaits, Hsame, Hsame_cursor.
      split; [| exact Hpassed].
      apply unconfirmed_below_mono with (bound := current_input_ v);
        [lia | exact Hbelow].
  - (* check_double_spend *)
    destruct Hc as [Hnone Hrange]. destruct Hs as [Hbelow Hpassed].
    rewrite <- Hhandled in Hnone. unfold check_double_spend.
    destruct (error.eqb (reply_fetch_spend chain_ n outpoint) error.unspent_output).
    + cbv zeta.
      change (current_input_
                (set_current_input (set_awaiting v Idle)
                   (current_input_ (set_awaiting v Idle) + 1)))
        with (current_input_ v + 1).
      destruct (current_input_ v + 1 =? Z.of_nat (length (inputs tx_))) eqn:Hlast.
      * apply Z.eqb_eq in Hlast. unfold check_fees.
        match goal with
        | |- context [tally_fees ?a ?b ?c] =>
            destruct (tally_fees a b c) as [in_range fee]
        end.
        apply handle_validate_sound; [reflexivity | exact Hnone |].
        unfold call_sound. cbn [fst snd]. members. rewrite <- Hlast.
        split; [exact Hbelow |].
        split; [intros Habsurd; exfalso; apply Habsurd; reflexivity |].
        intros _. exact Hpassed.
      * apply Z.eqb_neq in Hlast. unfold next_previous_transaction. members.
        destruct (at_index_defined (inputs tx_) (current_input_ v + 1))
          as [input Hinput]; [lia |].
        rewrite Hinput. unfold sound. members. split; assumption.
    + apply handle_validate_sound; try assumption.
      apply call_sound_failure. discriminate.
  - unfold sound. rewrite Hawaiting. exact I.
Qed.

Lemma start_sound (tx_ : transaction) (pool_ : pool_buffer) :
  sound tx_ pool_ (start tx_ pool_).
Proof.
  unfold start. cbv zeta.
  destruct (is_error (basic_checks tx_ pool_)) eqn:Hchecks.
  - apply handle_validate_sound; try reflexivity.
    apply call_sound_failure. apply is_error_true. exact Hchecks.
  - unfold sound. members. cbn [constructed awaiting unconfirmed_].
    split; [reflexivity | apply is_error_false; exact Hchecks].
Qed.

Lemma reachable_sound (tx_ : transaction) (pool_ : pool_buffer) (k : nat)
    (v : validator) :
  uint32_indices tx_ ->
  reachable tx_ pool_ k v ->
  sound tx_ pool_ v /\ Forall (call_sound tx_ pool_) (handled v).
Proof.
  intros Htyped Hreach.
  assert (Hsound : sound tx_ pool_ v).
  { induction Hreach as [| k v chain_ n Hreach IH Hbusy].
    - apply start_sound.
    - apply deliver_sound; [exact Htyped | | exact IH].
      exact (proj1 (reachable_consistent tx_ pool_ k v Htyped Hreach)). }
  split; [exact Hsound |].
  pose proof (proj1 (reachable_consistent tx_ pool_ k v Htyped Hreach)) as Hc.
  unfold consistent in Hc. unfold sound in Hsound.
  destruct (awaiting v); try exact Hsound; try contradiction;
    destruct Hc as [Hnone _]; rewrite Hnone; constructor.
Qed.

(** X17.  Every index list that the handler receives is a strictly
    increasing list of positions of the inputs of the transaction, and it is
    empty unless the code is success or [input_not_found]. *)
Theorem handler_index_lists (tx_ : transaction) (pool_ : pool_buffer) (k : nat)
    (v : validator) (ec : error_code) (indices : index_list) :
  uint32_indices tx_ ->
  reachable tx_ pool_ k v ->
  In (ec, indices) (handled v) ->
  StronglySorted Z.lt indices
  /\ Forall (fun i => 0 <= i < Z.of_nat (length (inputs tx_))) indices
  /\ (ec <> error.success -> ec <> error.input_not_found -> indices = []).
Proof.
  intros Htyped Hreach Hin.
  destruct (reachable_sound tx_ pool_ k v Htyped Hreach) as [_ Hcalls].
  rewrite Forall_forall in Hcalls. specialize (Hcalls _ Hin).
  destruct Hcalls as ([Hsorted Hrange] & Hempty & _). cbn [fst snd] in *.
  split; [exact Hsorted |]. split; assumption.
Qed.

Lemma output_point_eqb_eq (a b : output_point) :
  output_point_eqb a b = true <-> a = b.
Proof.
  unfold output_point_eqb. rewrite andb_true_iff, hash_eqb_eq, Z.eqb_eq.
  destruct a as [hash_a index_a], b as [hash_b index_b]. cbn [hash index]. split.
  - intros [-> ->]. reflexivity.
  - intros [= -> ->]. split; reflexivity.
Qed.

Lemma is_spent_false (pool_ : pool_buffer) (outpoint : output_point) :
  is_spent pool_ outpoint = false <-> unspent_in_pool pool_ outpoint.
Proof.
  unfold is_spent, unspent_in_pool. split.
  - intros Hnone entry input Hentry Hinput Hsame.
    assert (Hsome : existsb (fun entry =>
                               existsb (fun current_input =>
                                          output_point_eqb
                                            (previous_output current_input) outpoint)
                                       (inputs (entry_tx entry))) pool_ = true).
    { apply existsb_exists. exists entry. split; [exact Hentry |].
      apply existsb_exists. exists input. split; [exact Hinput |].
      apply output_point_eqb_eq. exact Hsame. }
    rewrite Hsome in Hnone. discriminate.
  - intros Hall.
    destruct (existsb (fun entry =>
                         existsb (fun current_input =>
                                    output_point_eqb
                                      (previous_output current_input) outpoint)
                                 (inputs (entry_tx entry))) pool_) eqn:Hsome;
      [| reflexivity].
    apply existsb_exists in Hsome. destruct Hsome as (entry & Hentry & Hsome).
    apply existsb_exists in Hsome. destruct Hsome as (input & Hinput & Hsame).
    apply output_point_eqb_eq in Hsame. exfalso.
    exact (Hall entry input Hentry Hinput Hsame).
Qed.

Lemma fetch_none (pool_ : pool_buffer) (tx_hash : hash_digest) :
  fetch pool_ tx_hash = None <->
  forall entry, In entry pool_ -> entry_hash entry <> tx_hash.
Proof.
  unfold fetch. split.
  - destruct (find (fun entry => hash_eqb (entry_hash entry) tx_hash) pool_)
      eqn:Hfind; [discriminate |].
    intros _ entry Hentry Hsame.
    pose proof (find_none _ _ Hfind entry Hentry) as Hdiffers. cbv beta in Hdiffers.
    apply hash_eqb_eq in Hsame. rewrite Hsame in Hdiffers. discriminate.
  - intros Hall.
    destruct (find (fun entry => hash_eqb (entry_hash entry) tx_hash) pool_)
      as [entry |] eqn:Hfind; [| reflexivity].
    apply find_some in Hfind. destruct Hfind as [Hentry Hsame].
    apply hash_eqb_eq in Hsame. exfalso. exact (Hall entry Hentry Hsame).
Qed.

Lemma basic_checks_success (tx_ : transaction) (pool_ : pool_buffer) :
  basic_checks tx_ pool_ = error.success ->
  check_transaction tx_ = error.success
  /\ is_coinbase tx_ = false
  /\ fetch pool_ (hash_transaction tx_) = None.
Proof.
  unfold basic_checks. cbv zeta.
  destruct (is_error (check_transaction tx_)) eqn:Hchecked.
  - intros Hok. rewrite Hok in Hchecked. discriminate.
  - apply is_error_false in Hchecked.
    destruct (is_coinbase tx_); [discriminate |]. cbn [is_standard negb].
    destruct (fetch pool_ (hash_transaction tx_)); [discriminate |].
    intros _. repeat split. exact Hchecked.
Qed.

(** X18.  A transaction for which the handler receives success passed
    [check_transaction], is no coinbase, has a hash that no entry of the pool
    has, and spends no outpoint that an input of a pool entry spends. *)
Theorem accepted_transaction (tx_ : transaction) (pool_ : pool_buffer) (k : nat)
    (v : validator) (indices : index_list) :
  uint32_indices tx_ ->
  reachable tx_ pool_ k v ->
  In (error.success, indices) (handled v) ->
  check_transaction tx_ = error.success
  /\ is_coinbase tx_ = false
  /\ (forall entry, In entry pool_ -> entry_hash entry <> hash_transaction tx_)
  /\ (forall input, In input (inputs tx_) ->
        unspent_in_pool pool_ (previous_output input)).
Proof.
  intros Htyped Hreach Hin.
  destruct (reachable_sound tx_ pool_ k v Htyped Hreach) as [_ Hcalls].
  rewrite Forall_forall in Hcalls. specialize (Hcalls _ Hin).
  destruct Hcalls as (_ & _ & Hpassed). cbn [fst] in Hpassed.
  destruct (Hpassed eq_refl) as [Hbasic Hconflicts].
  destruct (basic_checks_success tx_ pool_ Hbasic) as (Hchecked & Hcoinbase & Hfetch).
  split; [exact Hchecked |]. split; [exact Hcoinbase |].
  split; [apply fetch_none; exact Hfetch |].
  intros input Hinput. apply is_spent_false.
  destruct (is_spent pool_ (previous_output input)) eqn:Hspent; [| reflexivity].
  assert (Hsome : existsb (fun input => is_spent pool_ (previous_output input))
                    (inputs tx_) = true).
  { apply existsb_exists. exists input. split; assumption. }
  rewrite Hsome in Hconflicts. discriminate.
Qed.

Lemma run_rejected_at_once (tx_ : transaction) (pool_ : pool_buffer)
    (chain_ : blockchain) (k : nat) :
  basic_checks tx_ pool_ <> error.success ->
  handled (run tx_ pool_ chain_ k) = [(basic_checks tx_ pool_, [])].
Proof.
  intros Hfailed.
  assert (Hstart : start tx_ pool_
                   = handle_validate_ constructed (basic_checks tx_ pool_) []).
  { unfold start. cbv zeta.
    destruct (is_error (basic_checks tx_ pool_)) eqn:Herror; [reflexivity |].
    apply is_error_false in Herror. contradiction. }
  rewrite (run_stable tx_ pool_ chain_ 0%nat) by (cbn [run]; try rewrite Hstart;
                                                 first [reflexivity | lia]).
  cbn [run]. rewrite Hstart. reflexivity.
Qed.

Lemma run_rejected_as_duplicate (tx_ : transaction) (pool_ : pool_buffer)
    (chain_ : blockchain) (k : nat) :
  basic_checks tx_ pool_ = error.success ->
  fst (reply_fetch_transaction chain_ 0 (hash_transaction tx_)) <> error.not_found ->
  handled (run tx_ pool_ chain_ (S k)) = [(error.duplicate, [])].
Proof.
  intros Hchecks Hreply.
  assert (Hfirst : run tx_ pool_ chain_ 1
                   = handle_validate_ (set_awaiting constructed Idle) error.duplicate []).
  { cbn [run]. unfold start. cbv zeta. rewrite Hchecks.
    change (is_error error.success) with false. cbv iota.
    unfold deliver. cbv zeta. members. unfold handle_duplicate_check.
    destruct (error.eqb (fst (reply_fetch_transaction chain_ 0 (hash_transaction tx_)))
                error.not_found) eqn:Heq.
    - apply error_eqb_eq in Heq. contradiction.
    - reflexivity. }
  assert (Hidle : awaiting (run tx_ pool_ chain_ 1) = Idle)
    by (rewrite Hfirst; reflexivity).
  rewrite (run_stable tx_ pool_ chain_ 1%nat Hidle (S k)) by lia.
  rewrite Hfirst. reflexivity.
Qed.

(** X19.  A run in which the handler receives success began with basic
    checks that passed and a chain that answered the duplicate check with
    [not_found]. *)
Theorem accepted_run (tx_ : transaction) (pool_ : pool_buffer) (chain_ : blockchain)
    (k : nat) (indices : index_list) :
  In (error.success, indices) (handled (run tx_ pool_ chain_ k)) ->
  basic_checks tx_ pool_ = error.success
  /\ fst (reply_fetch_transaction chain_ 0 (hash_transaction tx_)) = error.not_found.
Proof.
  intros Hin.
  destruct (error.eq_dec (basic_checks tx_ pool_) error.success) as [Hbasic | Hbasic].
  - split; [exact Hbasic |].
    destruct (error.eq_dec
                (fst (reply_fetch_transaction chain_ 0 (hash_transaction tx_)))
                error.not_found) as [Hreply | Hreply]; [exact Hreply |].
    destruct k as [| k].
    + cbn [run] in Hin. unfold start in Hin. cbv zeta in Hin.
      rewrite Hbasic in Hin. contradiction.
    + rewrite (run_rejected_as_duplicate tx_ pool_ chain_ k Hbasic Hreply) in Hin.
      destruct Hin as [Hcall | []]. discriminate.
  - rewrite (run_rejected_at_once tx_ pool_ chain_ k Hbasic) in Hin.
    destruct Hin as [Hcall | []]. injection Hcall as Hec _. contradiction.
Qed.

End Further_properties.

(** * The further properties on the concrete platform *)

(** X3 on a buffer of capacity 2 that stored 7 twice: after the store of 8
    it still holds the second 7, and [exists] answers false for 7. *)
Lemma pumpkin_buffer_forgets_repeated_witness :
  exists b,
    store_all Z.eq_dec (new_pumpkin_buffer (Z.of_nat 2)) ([7; 7] ++ [8]) = Returns b
    /\ exists_ Z.eq_dec b 7 = false
    /\ from_pointer b = [7] ++ [8].
Proof.
  apply (pumpkin_buffer_forgets_repeated Z.eq_dec 1 [7; 7] 7 8 [7]).
  - cbn [length]. lia.
  - reflexivity.
  - discriminate.
Defined.

(** X4 on a buffer of capacity 2 after the stores of 7 and 8. *)
Lemma pumpkin_buffer_assertions_witness :
  exists b,
    store_all Z.eq_dec (new_pumpkin_buffer (Z.of_nat 2)) [7; 8] = Returns b
    /\ store_asserts Z.eq_dec b = true.
Proof.
  apply (pumpkin_buffer_assertions Z.eq_dec 1 [7; 8]).
  repeat constructor; cbn [In]; intros H;
    repeat (destruct H as [H | H]; [discriminate H |]); exact H.
Defined.

(** After the stores of 7, 7 and 8 the entry under the pointer is the
    second 7, which the set no longer has: the third assertion of the next
    [store] is false. *)
Example pumpkin_buffer_repeated_item_asserts :
  exists b,
    store_all Z.eq_dec (new_pumpkin_buffer 2) [7; 7; 8] = Returns b
    /\ store_asserts Z.eq_dec b = false.
Proof. eexists. split; reflexivity. Qed.

Lemma sample_spender_values : uint64_values (sample_spender 0).
Proof. repeat constructor; vm_compute; congruence. Qed.

Lemma sample_coinbase_values : uint64_values sample_coinbase.
Proof. repeat constructor; vm_compute; congruence. Qed.

(** X6 on [sample_spender 0], which [check_transaction] accepts. *)
Lemma check_transaction_accepts_witness :
  @check_transaction reference_platform (sample_spender 0) = error.success
  /\ inputs (sample_spender 0) <> []
  /\ outputs (sample_spender 0) <> []
  /\ sum_output_values (sample_spender 0) <= max_money.
Proof.
  split; [reflexivity |].
  destruct (proj1 (@check_transaction_accepts reference_platform (sample_spender 0)
                     sample_spender_values) eq_refl)
    as (Hinputs & Houtputs & Hsum & _).
  split; [exact Hinputs |]. split; [exact Houtputs | exact Hsum].
Defined.

(** X9 at depth 2016 of [sample_view], whose last 2016 blocks took an
    eighth of the target timespan. *)
Lemma work_required_within_factor_four_witness :
  exists retarget,
    @work_required reference_platform sample_view 2016
    = @compact reference_platform retarget
    /\ retarget <= @max_target reference_platform
    /\ retarget
       <= 4 * @set_compact reference_platform (previous_block_bits sample_view)
    /\ Z.min (@max_target reference_platform)
             (@set_compact reference_platform (previous_block_bits sample_view) / 4)
       <= retarget.
Proof.
  apply (@work_required_within_factor_four reference_platform sample_view 2016).
  - discriminate.
  - reflexivity.
  - vm_compute. discriminate.
Defined.


Lemma sample_view_parents_below (input : transaction_input)
    (previous_tx : transaction) (previous_depth : Z) :
  fetch_transaction sample_view (hash (previous_output input))
  = Some (previous_tx, previous_depth) ->
  0 <= previous_depth <= 200.
Proof.
  cbn [fetch_transaction sample_view].
  destruct (hash_eqb (hash (previous_output input)) (toy_hash 1)); [| discriminate].
  intros [= _ <-]. lia.
Qed.

(** X13 on the input of [sample_spender 0] in the sample block at depth
    200: its parent [sample_coinbase] lies 199 blocks below. *)
Lemma validate_block_connect_input_accepts_witness :
  exists previous_tx previous_depth spent,
    fetch_transaction sample_view (toy_hash 1) = Some (previous_tx, previous_depth)
    /\ 0 <= 0
    /\ nth_error (outputs previous_tx) (Z.to_nat 0) = Some spent
    /\ value spent <= max_money
    /\ (is_coinbase previous_tx = true -> coinbase_maturity <= 200 - previous_depth)
    /\ @script_run reference_platform (output_script spent) empty_script
         (sample_spender 0) 0
         (timestamp (sample_block 5100000000 0)
          >=? @bip16_switchover_timestamp reference_platform) = true
    /\ is_output_spent_within sample_view {| hash := toy_hash 1; index := 0 |} 1 0
       = false
    /\ 0 = @size_t reference_platform
             (0 + @sigops_sum_by_byte reference_platform true []
                    (@counted_operations reference_platform (output_script spent)
                       empty_script))
    /\ 0 <= max_block_script_sig_operations
    /\ 5000000000 = 0 + value spent
    /\ 5000000000 <= max_money.
Proof.
  apply (proj1 (@validate_block_connect_input_accepts reference_platform
                  sample_view 200 (sample_block 5100000000 0) 1 (sample_spender 0)
                  0 0 0 5000000000 0
                  {| previous_output := {| hash := toy_hash 1; index := 0 |};
                     input_script := empty_script;
                     sequence := 4294967295 |}
                  sample_view_well_typed
                  ltac:(vm_compute; discriminate)
                  ltac:(split; [vm_compute; discriminate | reflexivity])
                  (sample_view_parents_below _)
                  ltac:(split; vm_compute; discriminate)
                  eq_refl)).
  reflexivity.
Defined.

(** Without the assertion of a debug build, a coinbase parent above the
    block counts as mature: at depth 0 the difference to the parent at depth
    1 wraps to 2^32 - 1. *)
Example connect_input_parent_above_block :
  @validate_block_connect_input reference_platform sample_view 0
    (sample_block 5100000000 0) 1 (sample_spender 0) 0 0 0
  = Returns (true, 5000000000, 0).
Proof. reflexivity. Qed.

(** X14 on [sample_spender 0] in the sample block at depth 200. *)
Lemma validate_inputs_connects_witness :
  (forall position input,
     nth_error (inputs (sample_spender 0)) position = Some input ->
     @input_connects reference_platform sample_view 200 (sample_block 5100000000 0) 1
       (sample_spender 0) (Z.of_nat position) input)
  /\ 5000000000 = 0 + sum_input_values sample_view (sample_spender 0)
  /\ 0 <= 5000000000 <= max_money.
Proof.
  apply (@validate_inputs_connects reference_platform sample_view 200
           (sample_block 5100000000 0) (sample_spender 0) 1 0 0 5000000000 0).
  - exact sample_view_well_typed.
  - split; vm_compute; discriminate.
  - reflexivity.
Defined.


(** X16 on the input of [sample_spender 0], whose parent [sample_coinbase]
    lies 199 blocks below the last block. *)
Lemma validate_transaction_connect_input_accepts_witness :
  exists spent,
    nth_error (outputs sample_coinbase) (Z.to_nat 0) = Some spent
    /\ (is_coinbase sample_coinbase = true ->
        coinbase_maturity <= @depth_difference reference_platform 200 1)
    /\ @script_run reference_platform (output_script spent) empty_script
         (sample_spender 0) 0 false = true
    /\ 5000000000 = 0 + value spent
    /\ 5000000000 <= max_money.
Proof.
  apply (proj1 (@validate_transaction_connect_input_accepts reference_platform
                  (sample_spender 0) 0 sample_coinbase 1 200 0 5000000000
                  {| previous_output := {| hash := toy_hash 1; index := 0 |};
                     input_script := empty_script;
                     sequence := 4294967295 |}
                  eq_refl sample_coinbase_values
                  ltac:(vm_compute; discriminate)
                  ltac:(split; vm_compute; discriminate))).
  reflexivity.
Defined.

Lemma sample_pool_spender_well_typed : uint32_indices sample_pool_spender.
Proof. repeat constructor; vm_compute; congruence. Qed.

Lemma sample_pool_run_reachable :
  @reachable reference_platform sample_pool_spender sample_pool 7
    (@run reference_platform sample_pool_spender sample_pool pool_parent_chain 7).
Proof.
  repeat (cbn [run]; apply reachable_reply; [| vm_compute; discriminate]).
  apply reachable_start.
Qed.

(** X17 on the run of [sample_pool_spender] against [pool_parent_chain]: the
    parent of input 1 is found in the pool only, and the handler receives
    success with the index list [[1]]. *)
Lemma handler_index_lists_witness :
  handled (@run reference_platform sample_pool_spender sample_pool pool_parent_chain 7)
  = [(error.success, [1])]
  /\ StronglySorted Z.lt [1]
  /\ Forall (fun i => 0 <= i < Z.of_nat (length (inputs sample_pool_spender))) [1]
  /\ (error.success <> error.success -> error.success <> error.input_not_found ->
      [1] = []).
Proof.
  split; [vm_compute; reflexivity |].
  apply (@handler_index_lists reference_platform sample_pool_spender sample_pool 7
           (@run reference_platform sample_pool_spender sample_pool pool_parent_chain 7)
           error.success [1] sample_pool_spender_well_typed sample_pool_run_reachable).
  vm_compute. left. reflexivity.
Defined.

(** X18 on the run of [sample_spender 0] against [confirming_chain]. *)
Lemma accepted_transaction_witness :
  @check_transaction reference_platform (sample_spender 0) = error.success
  /\ is_coinbase (sample_spender 0) = false
  /\ (forall entry, In entry (@nil transaction_entry_info) ->
        entry_hash entry <> @hash_transaction reference_platform (sample_spender 0))
  /\ (forall input, In input (inputs (sample_spender 0)) ->
        unspent_in_pool [] (previous_output input)).
Proof.
  apply (@accepted_transaction reference_platform (sample_spender 0) [] 5
           (@run reference_platform (sample_spender 0) [] confirming_chain 5)
           [] sample_spender_well_typed sample_run_reachable).
  left. reflexivity.
Defined.

(** X19 on the same run. *)
Lemma accepted_run_witness :
  @basic_checks reference_platform (sample_spender 0) [] = error.success
  /\ fst (reply_fetch_transaction confirming_chain 0
            (@hash_transaction reference_platform (sample_spender 0)))
     = error.not_found.
Proof.
  apply (@accepted_run reference_platform (sample_spender 0) [] confirming_chain 5 []).
  left. reflexivity.
Defined.
